(** * ConvergeAI: the agent orchestration layer

    A shallow embedding of [AgentOrchestrator] and [SmartRoutingEngine]
    (src/js/components/sidebar.js) together with the properties of routing,
    dispatch, synthesis, caching, metrics and query logging, of rerouting
    and status changes, and of the performance tracking of [AICanvas].

    Modelling conventions.
    - A JavaScript string is a sequence of 16-bit code units. A [string]
      here is such a sequence with every code unit below 256: the character
      of code [n] is the code unit U+00[n], so "É" is the single character of
      code 201 ([JS.fromCodes [201]]), not the two bytes that a UTF-8 literal
      gives. On these strings [toLowerCase], [trim], [includes] and the
      default [sort] order are exactly those of ECMAScript; a string that
      holds a code unit above 255 is outside the model.
    - JavaScript numbers that hold fractions (confidences, response times,
      metrics) are rationals [Q]. In the orchestrator arithmetic is exact
      (IEEE-754 rounding is not modelled) and what is proved of a computed
      value is the expression the code computes, or a range that rounding to
      nearest keeps; in [AICanvas] the rounding of sums and quotients is a
      parameter. [Date.now()] readings are integers [Z] (milliseconds).
    - A [Map] whose iteration order is observable is an association list in
      insertion order; a [Map] used only for lookup is a [gmap].
    - The clock, the generated query id and the behaviour of the simulated
      agents are inputs ([Env]); one [processQuery] run is modelled without
      interleaving with other runs. *)

From Stdlib Require Import QArith Qminmax Lqa Ascii.
From stdpp Require Import gmap strings list fin_maps sorting.


(** ** JavaScript string and array primitives *)

Module JS.

(** The string with the given code units (each below 256). *)
Definition fromCodes (codes : list nat) : string :=
  foldr (fun n s => String (ascii_of_nat n) s) EmptyString codes.

(** The code units below 256 that have a lower-case mapping in the Unicode
    character database: A-Z (U+0041-U+005A) and the capital letters of
    Latin-1, U+00C0-U+00DE without the multiplication sign U+00D7. *)
Definition isUpper (c : ascii) : bool :=
  let n := N_of_ascii c in
  (((65 <=? n) && (n <=? 90)) || ((192 <=? n) && (n <=? 222) && negb (n =? 215)))%N.

(** Each of them maps to the code unit 32 above it; no code unit below 256
    has a special or context-dependent lower-case mapping. *)
Definition toLowerChar (c : ascii) : ascii :=
  if isUpper c then ascii_of_N (N_of_ascii c + 32) else c.

(** [String.prototype.toLowerCase] *)
Fixpoint toLowerCase (s : string) : string :=
  match s with
  | EmptyString => EmptyString
  | String c s' => String (toLowerChar c) (toLowerCase s')
  end.

(** The code units below 256 that ECMAScript counts as WhiteSpace or
    LineTerminator: TAB, LF, VT, FF, CR (U+0009-U+000D), SP (U+0020) and
    NBSP (U+00A0). NEL (U+0085) is not among them. *)
Definition isWhiteSpace (c : ascii) : bool :=
  let n := N_of_ascii c in
  (((9 <=? n) && (n <=? 13)) || (n =? 32) || (n =? 160))%N.

Fixpoint trimStart (s : string) : string :=
  match s with
  | EmptyString => EmptyString
  | String c s' => if isWhiteSpace c then trimStart s' else s
  end.

Fixpoint trimEnd (s : string) : string :=
  match s with
  | EmptyString => EmptyString
  | String c s' =>
      match trimEnd s' with
      | EmptyString => if isWhiteSpace c then EmptyString else String c EmptyString
      | t => String c t
      end
  end.

(** [String.prototype.trim] *)
Definition trim (s : string) : string := trimEnd (trimStart s).

(** [String.prototype.includes] *)
Fixpoint includes (s sub : string) : bool :=
  String.prefix sub s ||
  match s with
  | EmptyString => false
  | String _ s' => includes s' sub
  end.

(** [Array.prototype.join] on an array of strings *)
Definition join (sep : string) (l : list string) : string := String.concat sep l.

(** [Array.prototype.includes] on an array of strings *)
Definition arrayIncludes (l : list string) (x : string) : bool :=
  existsb (String.eqb x) l.

Section Sort.
Context {A : Type} (leb : A → A → bool).

Fixpoint insertSorted (x : A) (l : list A) : list A :=
  match l with
  | [] => [x]
  | y :: l' => if leb x y then x :: l else y :: insertSorted x l'
  end.

(** [Array.prototype.sort]: a stable sort; [leb a b] says that the
    comparator does not put [b] strictly before [a]. *)
Definition sortBy (l : list A) : list A := foldr insertSorted [] l.
End Sort.

(** [arr.sort()] with the default comparator, on strings: code-unit order. *)
Definition sort (l : list string) : list string := sortBy String.leb l.

(** [x || d] on a possibly missing number: [undefined] and [0] are falsy. *)
Definition numOr (x : option Q) (d : Q) : Q :=
  match x with
  | Some v => if Qeq_bool v 0 then d else v
  | None => d
  end.




End JS.

(** ** Data model *)

Inductive JsError :=
| Error (msg : string)
| TypeError (msg : string).

Definition errorMessage (e : JsError) : string :=
  match e with Error m => m | TypeError m => m end.

(** The strings that the sources assign to [agent.status]: 'online',
    'warning', 'offline', 'error' ([Failed]) and 'unknown'. *)
Inductive Status := Online | Warning | Offline | Failed | Unknown.

Definition isOnline (st : Status) : bool :=
  match st with Online => true | _ => false end.

(** The query object handed to [processQuery]; a missing property is [None]. *)
Module Query.
Record t := {
  message : option string;
  widgetId : option string;
  agents : option (list string);
  context : option string
}.
End Query.

Module Source.
Record t := { name : string; description : string }.
End Source.

Module Agent.
Record t := { name : string; type : string; status : Status }.
End Agent.

(** What [callAgent] resolves to. *)
Module Reply.
Record t := {
  content : string;
  sources : option (list Source.t);
  confidence : option Q
}.
End Reply.

(** What [executeSingleQuery] resolves to. *)
Module SingleResult.
Record t := {
  content : string;
  sources : list Source.t;
  confidence : Q;
  responseTime : Q
}.
End SingleResult.

(** An element of [successfulResults] in [executeParallelQueries]. *)
Module Result.
Record t := {
  agentId : string;
  content : string;
  sources : list Source.t;
  confidence : Q;
  responseTime : Q
}.
End Result.

Module Response.
Record t := {
  content : string;
  sources : list Source.t;
  agents : option (list string);
  confidence : option Q;
  synthesized : option bool;
  error : bool;
  responseTime : option Q
}.
End Response.

Module Config.
Record t := {
  maxConcurrentQueries : nat;
  defaultTimeout : Z;
  retryAttempts : nat;
  enableSmartRouting : bool;
  enableCaching : bool
}.
End Config.

Module Plan.
Record t := {
  strategy : string;
  agents : list string;
  parallel : bool;
  timeout : Z
}.
End Plan.

Module Metrics.
Record t := {
  totalQueries : nat;
  successfulQueries : nat;
  averageResponseTime : Q;
  errorRate : Q;
  lastResponseTime : Q;
  uptime : Q;
  reliability : Q
}.
End Metrics.

Module CacheEntry.
Record t := {
  response : Response.t;
  timestamp : Z;
  queryData : Query.t
}.
End CacheEntry.

(** A [queryHistory] entry (its ISO timestamp string is left out). *)
Module LogEntry.
Record t := {
  queryId : string;
  message : option string;
  agents : list string;
  responseAgents : list string;
  duration : Q;
  success : bool;
  confidence : Q;
  synthesized : bool;
  cached : bool
}.
End LogEntry.

(** An [activeQueries] entry: the query spread, [startTime], and the
    constant status ['processing']. *)
Module ActiveQuery.
Record t := { query : Query.t; startTime : Q }.
End ActiveQuery.

(** [document.dispatchEvent(new CustomEvent('agent:response-ready', ...))] *)
Inductive Event :=
| ResponseReady (widgetId : option string) (response : Response.t).

(** Instrumentation: which calls a run makes, in order. *)
Inductive Trace :=
| CallAgent (agentId : string)
| Synthesize (agentIds : list string).

(** ** Smart routing engine *)

Module SmartRoutingEngine.

Record t := {
  patterns : list (string * list string);
  agentCapabilities : list (string * list string)
}.

Definition loadRoutingPatterns : list (string * list string) :=
  [ ("hr", ["vacation"; "pto"; "time off"; "benefits"; "insurance"; "401k";
            "payroll"; "salary"; "leave"; "holiday"; "sick day"]);
    ("policy", ["policy"; "procedure"; "guideline"; "rule"; "compliance";
                "security"; "expense"; "reimbursement"; "training"]);
    ("finance", ["budget"; "cost"; "expense"; "financial"; "invoice";
                 "payment"; "accounting"; "revenue"; "forecast"]);
    ("knowledge", ["how to"; "what is"; "where can i"; "documentation";
                   "manual"; "guide"; "help"; "information"]) ].

Definition loadAgentCapabilities : list (string * list string) :=
  [ ("workday", ["hr"; "vacation"; "payroll"; "benefits"]);
    ("policy", ["policy"; "compliance"; "procedures"]);
    ("healthcare", ["benefits"; "insurance"; "wellness"]);
    ("finance", ["budget"; "expenses"; "financial"]) ].

Definition initialize : t :=
  {| patterns := loadRoutingPatterns;
     agentCapabilities := loadAgentCapabilities |}.

(** The local [scores] map, in insertion order. *)
Fixpoint scoresGet (scores : list (string * nat)) (k : string) : option nat :=
  match scores with
  | [] => None
  | (k', v) :: rest => if String.eqb k' k then Some v else scoresGet rest k
  end.

Fixpoint scoresSet (scores : list (string * nat)) (k : string) (v : nat)
  : list (string * nat) :=
  match scores with
  | [] => [(k, v)]
  | (k', v') :: rest =>
      if String.eqb k' k then (k', v) :: rest else (k', v') :: scoresSet rest k v
  end.

Definition matchCount (lowerMessage : string) (keywords : list string) : nat :=
  length (List.filter (fun keyword => JS.includes lowerMessage keyword) keywords).

(** The inner [agentCapabilities.forEach] for one matched category. *)
Definition scoreAgent (category : string) (count : nat) (excludeAgents : list string)
    (scores : list (string * nat)) (entry : string * list string)
  : list (string * nat) :=
  let '(agentId, capabilities) := entry in
  if JS.arrayIncludes capabilities category && negb (JS.arrayIncludes excludeAgents agentId)
  then
    let currentScore := default 0 (scoresGet scores agentId) in
    scoresSet scores agentId (currentScore + count)
  else scores.

(** The body of [patterns.forEach]. *)
Definition scoreCategory (e : t) (lowerMessage : string) (excludeAgents : list string)
    (scores : list (string * nat)) (entry : string * list string)
  : list (string * nat) :=
  let '(category, keywords) := entry in
  let count := matchCount lowerMessage keywords in
  if 0 <? count
  then foldl (scoreAgent category count excludeAgents) scores (agentCapabilities e)
  else scores.

Definition scoreAll (e : t) (message : string) (excludeAgents : list string)
  : list (string * nat) :=
  foldl (scoreCategory e (JS.toLowerCase message) excludeAgents) [] (patterns e).

(** The comparator [(a, b) => b[1] - a[1]]: [a] stays before [b] when
    [b[1] - a[1] <= 0]. *)
Definition byScoreDesc (a b : string * nat) : bool := snd b <=? snd a.

Definition recommendAgents (e : t) (message : string) (excludeAgents : list string)
  : list string :=
  let scores := scoreAll e message excludeAgents in
  let sortedAgents := take 3 (map fst (JS.sortBy byScoreDesc scores)) in
  if length sortedAgents =? 0
  then List.filter (fun id => negb (JS.arrayIncludes excludeAgents id)) ["workday"; "policy"]
  else sortedAgents.

Definition findAlternativeAgents (e : t) (message : string) (excludeAgents : list string)
  : list string :=
  recommendAgents e message excludeAgents.

(** Specification-side notions used to state the routing properties. *)

(** [message] contains [keyword] up to letter case. *)
Definition mentions (message keyword : string) : Prop :=
  ∃ pre mid post,
    message = pre +:+ mid +:+ post ∧ JS.toLowerCase mid = keyword.

(** Category [c] has a trigger keyword occurring in [message]. *)
Definition triggered (e : t) (message c : string) : Prop :=
  ∃ keywords keyword,
    (c, keywords) ∈ patterns e ∧ keyword ∈ keywords ∧ mentions message keyword.

(** Agent [a] lists [c] among its capabilities. *)
Definition serves (e : t) (a c : string) : Prop :=
  ∃ capabilities, (a, capabilities) ∈ agentCapabilities e ∧ c ∈ capabilities.

(** The capability list stored under agent [a]. *)
Definition lookupCapabilities (capabilities : list (string * list string)) (a : string)
  : option (list string) :=
  snd <$> List.find (fun entry => String.eqb (fst entry) a) capabilities.

(** Keyword hits of the categories in [categories] that [capabilities] lists. *)
Definition hitsIn (lowerMessage : string) (capabilities : list string)
    (categories : list (string * list string)) : nat :=
  sum_list
    (map (fun entry : string * list string =>
            if JS.arrayIncludes capabilities (fst entry)
            then matchCount lowerMessage (snd entry)
            else 0)
         categories).

(** Total keyword hits over the categories that [a] serves. *)
Definition hitScore (e : t) (message a : string) : nat :=
  match lookupCapabilities (agentCapabilities e) a with
  | None => 0
  | Some capabilities => hitsIn (JS.toLowerCase message) capabilities (patterns e)
  end.

End SmartRoutingEngine.

(** ** Orchestrator state, environment and effects *)

Module State.
Record t := {
  agents : gmap string Agent.t;
  routingEngine : SmartRoutingEngine.t;
  activeQueries : gmap string ActiveQuery.t;
  queryHistory : list LogEntry.t;
  performanceMetrics : gmap string Metrics.t;
  config : Config.t;
  responseCache : gmap string CacheEntry.t;
  events : list Event;
  trace : list Trace
}.

Definition withActiveQueries (f : gmap string ActiveQuery.t → gmap string ActiveQuery.t)
    (s : t) : t :=
  {| agents := agents s; routingEngine := routingEngine s;
     activeQueries := f (activeQueries s); queryHistory := queryHistory s;
     performanceMetrics := performanceMetrics s; config := config s;
     responseCache := responseCache s; events := events s; trace := trace s |}.

Definition withQueryHistory (f : list LogEntry.t → list LogEntry.t) (s : t) : t :=
  {| agents := agents s; routingEngine := routingEngine s;
     activeQueries := activeQueries s; queryHistory := f (queryHistory s);
     performanceMetrics := performanceMetrics s; config := config s;
     responseCache := responseCache s; events := events s; trace := trace s |}.

Definition withPerformanceMetrics (f : gmap string Metrics.t → gmap string Metrics.t)
    (s : t) : t :=
  {| agents := agents s; routingEngine := routingEngine s;
     activeQueries := activeQueries s; queryHistory := queryHistory s;
     performanceMetrics := f (performanceMetrics s); config := config s;
     responseCache := responseCache s; events := events s; trace := trace s |}.

Definition withResponseCache (f : gmap string CacheEntry.t → gmap string CacheEntry.t)
    (s : t) : t :=
  {| agents := agents s; routingEngine := routingEngine s;
     activeQueries := activeQueries s; queryHistory := queryHistory s;
     performanceMetrics := performanceMetrics s; config := config s;
     responseCache := f (responseCache s); events := events s; trace := trace s |}.

Definition withAgents (f : gmap string Agent.t → gmap string Agent.t) (s : t) : t :=
  {| agents := f (agents s); routingEngine := routingEngine s;
     activeQueries := activeQueries s; queryHistory := queryHistory s;
     performanceMetrics := performanceMetrics s; config := config s;
     responseCache := responseCache s; events := events s; trace := trace s |}.

Definition emit (ev : Event) (s : t) : t :=
  {| agents := agents s; routingEngine := routingEngine s;
     activeQueries := activeQueries s; queryHistory := queryHistory s;
     performanceMetrics := performanceMetrics s; config := config s;
     responseCache := responseCache s; events := events s ++ [ev]; trace := trace s |}.

Definition record (tr : Trace) (s : t) : t :=
  {| agents := agents s; routingEngine := routingEngine s;
     activeQueries := activeQueries s; queryHistory := queryHistory s;
     performanceMetrics := performanceMetrics s; config := config s;
     responseCache := responseCache s; events := events s; trace := trace s ++ [tr] |}.

Definition recordAll (trs : list Trace) (s : t) : t :=
  {| agents := agents s; routingEngine := routingEngine s;
     activeQueries := activeQueries s; queryHistory := queryHistory s;
     performanceMetrics := performanceMetrics s; config := config s;
     responseCache := responseCache s; events := events s; trace := trace s ++ trs |}.
End State.

(** Everything one [processQuery] run reads from outside the orchestrator. *)
Module Env.
Record t := {
  queryId : string;      (* generateQueryId() *)
  startTime : Q;         (* performance.now() on entry *)
  lookupNow : Z;         (* Date.now() in getCachedResponse *)
  storeNow : Z;          (* Date.now() in cacheResponse *)
  cleanNow : Z;          (* Date.now() in cleanExpiredCache *)
  metricsNow : Q;        (* performance.now() in updatePerformanceMetrics *)
  logNow : Q;            (* performance.now() at the logQuery call *)
  (* the i-th agent call of the run: its outcome and its measured time *)
  callAgent : nat → Agent.t → option string → option string → JsError + Reply.t;
  responseTime : nat → Q
}.
End Env.

(** State passing with exceptions: [inl] is a thrown error. *)
Definition M (A : Type) : Type := State.t → (JsError + A) * State.t.

Definition ret {A} (x : A) : M A := fun s => (inr x, s).

Definition throw {A} (e : JsError) : M A := fun s => (inl e, s).

Definition bind {A B} (m : M A) (k : A → M B) : M B :=
  fun s =>
    match m s with
    | (inr x, s') => k x s'
    | (inl e, s') => (inl e, s')
    end.

Definition gets {A} (f : State.t → A) : M A := fun s => (inr (f s), s).

Definition modify (f : State.t → State.t) : M unit := fun s => (inr tt, f s).

(** [promise.catch(...)] followed by [Promise.allSettled]: never throws. *)
Definition settle {A} (m : M A) : M (JsError + A) :=
  fun s => let '(r, s') := m s in (inr r, s').

Declare Scope orch_scope.
Delimit Scope orch_scope with orch.
Notation "x <- m ;; k" := (bind m (fun x => k))
  (at level 100, m at next level, right associativity) : orch_scope.
Notation "m ;;; k" := (bind m (fun _ => k))
  (at level 100, right associativity) : orch_scope.
Local Open Scope orch_scope.

(** ** Agent orchestrator *)

Module AgentOrchestrator.

Definition cacheExpiry : Z := 300000.

Definition defaultConfig : Config.t :=
  {| Config.maxConcurrentQueries := 10;
     Config.defaultTimeout := 30000;
     Config.retryAttempts := 3;
     Config.enableSmartRouting := true;
     Config.enableCaching := true |}.

Definition initialMetrics : Metrics.t :=
  {| Metrics.totalQueries := 0;
     Metrics.successfulQueries := 0;
     Metrics.averageResponseTime := 0;
     Metrics.errorRate := 0;
     Metrics.lastResponseTime := 0;
     Metrics.uptime := 100;
     Metrics.reliability := 100 |}.

(** The constructor followed by [initialize(agentMap)]. *)
Definition initialize (agentMap : gmap string Agent.t) : State.t :=
  {| State.agents := agentMap;
     State.routingEngine := SmartRoutingEngine.initialize;
     State.activeQueries := ∅;
     State.queryHistory := [];
     State.performanceMetrics := (fun _ => initialMetrics) <$> agentMap;
     State.config := defaultConfig;
     State.responseCache := ∅;
     State.events := [];
     State.trace := [] |}.

Definition hasOwnProperty (queryData : Query.t) (field : string) : bool :=
  if String.eqb field "message" then bool_decide (is_Some (Query.message queryData))
  else if String.eqb field "widgetId" then bool_decide (is_Some (Query.widgetId queryData))
  else if String.eqb field "agents" then bool_decide (is_Some (Query.agents queryData))
  else if String.eqb field "context" then bool_decide (is_Some (Query.context queryData))
  else false.

Definition validateQuery (queryData : Query.t) : bool :=
  let required := ["message"; "widgetId"] in
  forallb (hasOwnProperty queryData) required &&
  match Query.message queryData with
  | Some m => 0 <? String.length (JS.trim m)
  | None => false
  end.

(** [generateCacheKey]: the [.sort()] is in place, so the caller's agent
    array is left sorted; [sortedQuery] is the query object afterwards. *)
Definition sortedQuery (queryData : Query.t) : Query.t :=
  {| Query.message := Query.message queryData;
     Query.widgetId := Query.widgetId queryData;
     Query.agents := JS.sort <$> Query.agents queryData;
     Query.context := Query.context queryData |}.

Definition generateCacheKey (queryData : Query.t) : JsError + string :=
  match Query.message queryData with
  | None => inl (TypeError "Cannot read properties of undefined (reading 'toLowerCase')")
  | Some m =>
      let normalizedMessage := JS.trim (JS.toLowerCase m) in
      let sortedAgents := JS.join "," (JS.sort (default [] (Query.agents queryData))) in
      inr (normalizedMessage +:+ "|" +:+ sortedAgents)
  end.

Definition lift {A} (r : JsError + A) : M A :=
  match r with inl e => throw e | inr x => ret x end.

Definition shouldCacheResponse (response : Response.t) : bool :=
  negb (Response.error response) &&
  match Response.confidence response with
  | Some c => negb (Qle_bool c 0.7%Q)
  | None => false
  end.

Definition expired (now : Z) (cached : CacheEntry.t) : bool :=
  (cacheExpiry <? now - CacheEntry.timestamp cached)%Z.

Definition cleanExpiredCache (now : Z) : M unit :=
  modify (State.withResponseCache
            (filter (fun kv : string * CacheEntry.t => expired now (snd kv) = false))).

Definition cacheResponse (env : Env.t) (queryData : Query.t) (response : Response.t)
  : M unit :=
  cacheKey <- lift (generateCacheKey queryData) ;;
  modify (State.withResponseCache
            (insert cacheKey
               {| CacheEntry.response := response;
                  CacheEntry.timestamp := Env.storeNow env;
                  CacheEntry.queryData := queryData |})) ;;;
  cleanExpiredCache (Env.cleanNow env).

Definition getCachedResponse (now : Z) (queryData : Query.t) : M (option Response.t) :=
  cacheKey <- lift (generateCacheKey queryData) ;;
  cached <- gets (fun s => State.responseCache s !! cacheKey) ;;
  match cached with
  | None => ret None
  | Some cached =>
      if expired now cached
      then modify (State.withResponseCache (delete cacheKey)) ;;; ret None
      else ret (Some (CacheEntry.response cached))
  end.

(** The arithmetic of [updateAgentMetrics] on one metrics record. *)
Definition updateMetrics (metrics : Metrics.t) (responseTime : Q) (success : bool)
  : Metrics.t :=
  let totalQueries := S (Metrics.totalQueries metrics) in
  let successfulQueries :=
    if success then S (Metrics.successfulQueries metrics)
    else Metrics.successfulQueries metrics in
  let averageResponseTime :=
    if success
    then if Qeq_bool (Metrics.averageResponseTime metrics) 0
         then responseTime
         else ((Metrics.averageResponseTime metrics * 0.8) + (responseTime * 0.2))%Q
    else Metrics.averageResponseTime metrics in
  let errorRate :=
    ((inject_Z (Z.of_nat totalQueries - Z.of_nat successfulQueries)
        / inject_Z (Z.of_nat totalQueries)) * 100)%Q in
  let responseTimeFactor := Qmax 0 (100 - (responseTime / 50))%Q in
  {| Metrics.totalQueries := totalQueries;
     Metrics.successfulQueries := successfulQueries;
     Metrics.averageResponseTime := averageResponseTime;
     Metrics.errorRate := errorRate;
     Metrics.lastResponseTime := responseTime;
     Metrics.uptime := Metrics.uptime metrics;
     Metrics.reliability :=
       Qmax 0 ((100 - errorRate) * (responseTimeFactor / 100))%Q |}.

Definition updateAgentMetrics (agentId : string) (responseTime : Q) (success : bool)
  : M unit :=
  metrics <- gets (fun s => State.performanceMetrics s !! agentId) ;;
  match metrics with
  | None => ret tt
  | Some metrics =>
      modify (State.withPerformanceMetrics
                (insert agentId (updateMetrics metrics responseTime success)))
  end.

Fixpoint forEach {A} (f : A → M unit) (l : list A) : M unit :=
  match l with
  | [] => ret tt
  | x :: rest => f x ;;; forEach f rest
  end.

Definition updatePerformanceMetrics (agentIds : list string) (now startTime : Q)
    (success : bool) : M unit :=
  let totalTime := (now - startTime)%Q in
  forEach (fun agentId => updateAgentMetrics agentId totalTime success) agentIds.

Definition deliverResponse (widgetId : option string) (response : Response.t) : M unit :=
  modify (State.emit (ResponseReady widgetId response)).

Definition errorResponse (err : JsError) : Response.t :=
  {| Response.content :=
       "I encountered an error processing your request: " +:+ errorMessage err +:+
       ". Please try again or contact support if the issue persists.";
     Response.sources := [];
     Response.agents := Some [];
     Response.confidence := None;
     Response.synthesized := None;
     Response.error := true;
     Response.responseTime := None |}.

Definition deliverErrorResponse (widgetId : option string) (err : JsError) : M unit :=
  modify (State.emit (ResponseReady widgetId (errorResponse err))).

Definition isAvailable (agents : gmap string Agent.t) (agentId : string) : bool :=
  match agents !! agentId with
  | Some agent => isOnline (Agent.status agent)
  | None => false
  end.

Definition createRoutingPlan (queryData : Query.t) : M Plan.t :=
  cfg <- gets State.config ;;
  if negb (Config.enableSmartRouting cfg)
     || match Query.agents queryData with
        | None => true
        | Some agentIds => length agentIds =? 0
        end
  then
    engine <- gets State.routingEngine ;;
    match Query.message queryData with
    | None => throw (TypeError "Cannot read properties of undefined (reading 'toLowerCase')")
    | Some m =>
        let recommendedAgents := SmartRoutingEngine.recommendAgents engine m [] in
        ret {| Plan.strategy := "smart";
               Plan.agents := recommendedAgents;
               Plan.parallel := true;
               Plan.timeout := Config.defaultTimeout cfg |}
    end
  else
    agents <- gets State.agents ;;
    let availableAgents :=
      List.filter (isAvailable agents) (default [] (Query.agents queryData)) in
    if length availableAgents =? 0
    then throw (Error "No available agents for this query")
    else ret {| Plan.strategy := "specified";
                Plan.agents := availableAgents;
                Plan.parallel := 1 <? length availableAgents;
                Plan.timeout := Config.defaultTimeout cfg |}.

Definition executeSingleQuery (env : Env.t) (index : nat)
    (queryData : option ActiveQuery.t) (agentId : string) : M SingleResult.t :=
  agent <- gets (fun s => State.agents s !! agentId) ;;
  match agent with
  | None => throw (Error ("Agent " +:+ agentId +:+ " not found"))
  | Some agent =>
      if negb (isOnline (Agent.status agent))
      then throw (Error ("Agent " +:+ agentId +:+ " is not available"))
      else
        let responseTime := Env.responseTime env index in
        match queryData with
        | None =>
            updateAgentMetrics agentId responseTime false ;;;
            throw (TypeError "Cannot read properties of undefined (reading 'message')")
        | Some q =>
            modify (State.record (CallAgent agentId)) ;;;
            match Env.callAgent env index agent
                    (Query.message (ActiveQuery.query q))
                    (Query.context (ActiveQuery.query q)) with
            | inr response =>
                updateAgentMetrics agentId responseTime true ;;;
                ret {| SingleResult.content := Reply.content response;
                       SingleResult.sources := default [] (Reply.sources response);
                       SingleResult.confidence := JS.numOr (Reply.confidence response) 0.8%Q;
                       SingleResult.responseTime := responseTime |}
            | inl err =>
                updateAgentMetrics agentId responseTime false ;;;
                throw err
            end
        end
  end.

Fixpoint findIndex {A} (p : A → bool) (l : list A) : option nat :=
  match l with
  | [] => None
  | x :: rest => if p x then Some 0 else S <$> findIndex p rest
  end.

(** [arr.filter((x, index) => f x index)], counting from [index]. *)
Fixpoint filterIndexed {A} (f : A → nat → bool) (index : nat) (l : list A) : list A :=
  match l with
  | [] => []
  | x :: rest =>
      if f x index then x :: filterIndexed f (S index) rest
      else filterIndexed f (S index) rest
  end.

Definition uniqueSources (allSources : list Source.t) : list Source.t :=
  filterIndexed
    (fun source index =>
       bool_decide
         (findIndex (fun s => String.eqb (Source.name s) (Source.name source)) allSources
          = Some index))
    0 allSources.

Definition newline : string := String (ascii_of_nat 10) EmptyString.

Definition attribution (agents : gmap string Agent.t) (result : Result.t) : string :=
  let agentName :=
    match agents !! Result.agentId result with
    | Some agent =>
        if String.eqb (Agent.name agent) "" then Result.agentId result
        else Agent.name agent
    | None => Result.agentId result
    end in
  "**" +:+ agentName +:+ ":** " +:+ Result.content result.

Definition avgConfidence (results : list Result.t) : Q :=
  (foldl (fun sum result => sum + JS.numOr (Some (Result.confidence result)) 0) 0 results
   / inject_Z (Z.of_nat (length results)))%Q.

Definition synthesizeResponses (agents : gmap string Agent.t) (results : list Result.t)
  : Response.t :=
  match results with
  | [r] =>
      {| Response.content := Result.content r;
         Response.sources := Result.sources r;
         Response.agents := Some [Result.agentId r];
         Response.confidence := Some (Result.confidence r);
         Response.synthesized := Some false;
         Response.error := false;
         Response.responseTime := None |}
  | _ =>
      let content := JS.join (newline +:+ newline) (map (attribution agents) results) in
      let allSources := foldl (fun acc result => acc ++ Result.sources result) [] results in
      {| Response.content := content;
         Response.sources := uniqueSources allSources;
         Response.agents := Some (map Result.agentId results);
         Response.confidence := Some (avgConfidence results);
         Response.synthesized := Some true;
         Response.error := false;
         Response.responseTime := None |}
  end.

(** Every call of the plan settled, in plan order. *)
Fixpoint settleAll (env : Env.t) (index : nat) (queryData : option ActiveQuery.t)
    (agentIds : list string) : M (list (JsError + SingleResult.t)) :=
  match agentIds with
  | [] => ret []
  | agentId :: rest =>
      r <- settle (executeSingleQuery env index queryData agentId) ;;
      rs <- settleAll env (S index) queryData rest ;;
      ret (r :: rs)
  end.

Definition toResult (agentId : string) (v : SingleResult.t) : Result.t :=
  {| Result.agentId := agentId;
     Result.content := SingleResult.content v;
     Result.sources := SingleResult.sources v;
     Result.confidence := SingleResult.confidence v;
     Result.responseTime := SingleResult.responseTime v |}.

Fixpoint successfulResults (agentIds : list string)
    (results : list (JsError + SingleResult.t)) : list Result.t :=
  match agentIds, results with
  | agentId :: ids, inr v :: rs => toResult agentId v :: successfulResults ids rs
  | _ :: ids, inl _ :: rs => successfulResults ids rs
  | _, _ => []
  end.

Definition executeParallelQueries (env : Env.t) (queryData : option ActiveQuery.t)
    (plan : Plan.t) : M Response.t :=
  results <- settleAll env 0 queryData (Plan.agents plan) ;;
  let successful := successfulResults (Plan.agents plan) results in
  if length successful =? 0
  then throw (Error "All agents failed to respond")
  else
    modify (State.record (Synthesize (map Result.agentId successful))) ;;;
    agents <- gets State.agents ;;
    ret (synthesizeResponses agents successful).

Definition singleResponse (v : SingleResult.t) : Response.t :=
  {| Response.content := SingleResult.content v;
     Response.sources := SingleResult.sources v;
     Response.agents := None;
     Response.confidence := Some (SingleResult.confidence v);
     Response.synthesized := None;
     Response.error := false;
     Response.responseTime := Some (SingleResult.responseTime v) |}.

Definition executeQueryPlan (env : Env.t) (queryId : string) (plan : Plan.t)
  : M Response.t :=
  activeQuery <- gets (fun s => State.activeQueries s !! queryId) ;;
  if Plan.parallel plan && (1 <? length (Plan.agents plan))
  then executeParallelQueries env activeQuery plan
  else
    match Plan.agents plan with
    | agentId :: _ =>
        v <- executeSingleQuery env 0 activeQuery agentId ;;
        ret (singleResponse v)
    | [] => throw (Error "Agent undefined not found")
    end.

Definition shift {A} (l : list A) : list A := tail l.

(** The [logEntry] object built by [logQuery]. *)
Definition makeLogEntry (queryId : string) (queryData : Query.t) (response : Response.t)
    (duration : Q) : LogEntry.t :=
  {| LogEntry.queryId := queryId;
     LogEntry.message := Query.message queryData;
     LogEntry.agents := default [] (Query.agents queryData);
     LogEntry.responseAgents := default [] (Response.agents response);
     LogEntry.duration := duration;
     LogEntry.success := negb (Response.error response);
     LogEntry.confidence := JS.numOr (Response.confidence response) 0;
     LogEntry.synthesized := default false (Response.synthesized response);
     LogEntry.cached := false |}.

Definition logQuery (queryId : string) (queryData : Query.t) (response : Response.t)
    (duration : Q) : M unit :=
  let logEntry := makeLogEntry queryId queryData response duration in
  modify (State.withQueryHistory
            (fun history =>
               let pushed := history ++ [logEntry] in
               if 1000 <? length pushed then shift pushed else pushed)).

(** The [try] block of [processQuery]. *)
Definition processQueryBody (env : Env.t) (queryData : Query.t) : M unit :=
  (if negb (validateQuery queryData)
   then throw (Error "Invalid query format") else ret tt) ;;;
  cfg <- gets State.config ;;
  cachedResponse <-
    (if Config.enableCaching cfg
     then getCachedResponse (Env.lookupNow env) queryData
     else ret None) ;;
  (* the cache lookup has sorted [queryData.agents] in place *)
  let queryData := if Config.enableCaching cfg then sortedQuery queryData else queryData in
  match cachedResponse with
  | Some cachedResponse => deliverResponse (Query.widgetId queryData) cachedResponse
  | None =>
      modify (State.withActiveQueries
                (insert (Env.queryId env)
                   {| ActiveQuery.query := queryData;
                      ActiveQuery.startTime := Env.startTime env |})) ;;;
      routingPlan <- createRoutingPlan queryData ;;
      response <- executeQueryPlan env (Env.queryId env) routingPlan ;;
      (if Config.enableCaching cfg && shouldCacheResponse response
       then cacheResponse env queryData response else ret tt) ;;;
      deliverResponse (Query.widgetId queryData) response ;;;
      updatePerformanceMetrics (Plan.agents routingPlan)
        (Env.metricsNow env) (Env.startTime env) true ;;;
      logQuery (Env.queryId env) queryData response (Env.logNow env - Env.startTime env)%Q
  end.

(** The [catch] block. *)
Definition processQueryCatch (env : Env.t) (queryData : Query.t) (err : JsError)
  : M unit :=
  updatePerformanceMetrics (default [] (Query.agents queryData))
    (Env.metricsNow env) (Env.startTime env) false ;;;
  deliverErrorResponse (Query.widgetId queryData) err.

Definition processQuery (env : Env.t) (queryData : Query.t) (s : State.t) : State.t :=
  let s' :=
    match processQueryBody env queryData s with
    | (inr _, s1) => s1
    | (inl err, s1) =>
        (* once the cache lookup has run, [queryData.agents] is sorted *)
        let queryData :=
          if validateQuery queryData && Config.enableCaching (State.config s)
          then sortedQuery queryData else queryData in
        snd (processQueryCatch env queryData err s1)
    end in
  (* finally *)
  State.withActiveQueries (delete (Env.queryId env)) s'.

(** [handleAgentStatusChange] between runs: no query is in flight, so
    [handleAgentOffline] has nothing to reroute. [patch] stands for
    [Object.assign(perfMetrics, metrics)]. *)
Definition handleAgentStatusChange (agentId : string) (status : Status)
    (patch : option (Metrics.t → Metrics.t)) (s : State.t) : State.t :=
  match State.agents s !! agentId with
  | None => s
  | Some agent =>
      let s1 :=
        State.withAgents
          (insert agentId
             {| Agent.name := Agent.name agent; Agent.type := Agent.type agent;
                Agent.status := status |}) s in
      match patch with
      | Some f => State.withPerformanceMetrics (alter f agentId) s1
      | None => s1
      end
  end.

(** States the orchestrator can be in between two runs. *)
Inductive reachable : State.t → Prop :=
| reachable_init agentMap : reachable (initialize agentMap)
| reachable_query env queryData s :
    reachable s → reachable (processQuery env queryData s)
| reachable_status agentId status patch s :
    reachable s → reachable (handleAgentStatusChange agentId status patch s).

(** Specification side: keep the first source of each name. *)
Fixpoint dedupByName (seen : list string) (l : list Source.t) : list Source.t :=
  match l with
  | [] => []
  | x :: rest =>
      if JS.arrayIncludes seen (Source.name x) then dedupByName seen rest
      else x :: dedupByName (Source.name x :: seen) rest
  end.

End AgentOrchestrator.

(** ** The simulated agents behind [callAgent] *)

Module Simulated.

Definition source (name description : string) : Source.t :=
  {| Source.name := name; Source.description := description |}.

Definition reply (content : string) (sources : list Source.t) (confidence : Q) : Reply.t :=
  {| Reply.content := content;
     Reply.sources := Some sources;
     Reply.confidence := Some confidence |}.

Definition anyIncluded (lowerMessage : string) (words : list string) : bool :=
  existsb (JS.includes lowerMessage) words.

Definition simulateHRResponse (message : string) (agent : Agent.t) : Reply.t :=
  let lowerMessage := JS.toLowerCase message in
  if anyIncluded lowerMessage ["vacation"; "pto"; "time off"] then
    reply "You have 12 vacation days remaining this year. Your next scheduled PTO is March 15-17 (3 days). Would you like me to help you submit a new vacation request?"
      [source "Workday" "Employee vacation balance from Workday system";
       source "PTO Policy" "Company paid time off policy document"]
      0.95
  else if anyIncluded lowerMessage ["benefit"; "insurance"; "401k"] then
    reply "Your current benefits include Health Insurance (PPO plan), 401(k) with 6% company match, and $50,000 life insurance. Open enrollment is November 1-15. Need help with any specific benefit questions?"
      [source "Benefits Portal" "Employee benefits information system";
       source "HR Guidelines" "Benefits enrollment guidelines"]
      0.92
  else if anyIncluded lowerMessage ["remote"; "policy"; "work from home"] then
    reply "Our remote work policy allows up to 3 days per week remote with manager approval. Core hours are 10 AM - 3 PM ET. Equipment allowance includes laptop and $500 for home office setup."
      [source "Employee Handbook" "Remote work policy section 4.2";
       source "IT Policy" "Equipment and security guidelines"]
      0.88
  else
    reply "I can help with HR-related questions about vacation time, benefits, policies, and procedures. What specific information do you need?"
      [source (Agent.name agent) "HR assistance system"]
      0.7.

Definition simulateKnowledgeResponse (message : string) (agent : Agent.t) : Reply.t :=
  let lowerMessage := JS.toLowerCase message in
  if anyIncluded lowerMessage ["expense"; "reimburse"; "receipt"] then
    reply "Expense reimbursement policy: Meals up to $75/day with receipts required for amounts over $25. Alcohol not reimbursable. Submit through Concur within 30 days."
      [source "Finance Policy 3.1" "Employee expense reimbursement guidelines";
       source "Concur Guide" "Expense submission process documentation"]
      0.94
  else if anyIncluded lowerMessage ["security"; "password"; "vpn"] then
    reply "Security policy requires: Two-factor authentication for all systems, password rotation every 90 days, VPN for remote access, and immediate reporting of suspected security incidents."
      [source "IT Security Policy" "Corporate information security standards";
       source "Compliance Manual" "Security compliance requirements"]
      0.91
  else if anyIncluded lowerMessage ["compliance"; "training"; "ethics"] then
    reply "All employees must complete annual compliance training by December 31st. This includes ethics, anti-harassment, and data privacy modules. Certificates are tracked in the learning management system."
      [source "Compliance Framework" "Annual training requirements";
       source "Training Records" "Employee completion tracking system"]
      0.89
  else
    reply "I can help you find information about company policies, procedures, and compliance requirements. What specific topic are you looking for?"
      [source (Agent.name agent) "Knowledge base system"]
      0.7.

Definition simulateFinanceResponse (agent : Agent.t) : Reply.t :=
  reply "Your department budget shows 73% utilization ($127k of $175k allocated). Q2 forecast is on track. Major categories: Software licenses (45%), Contractors (28%), Travel (15%). Need specific budget details?"
    [source "SAP Financial System" "Department budget and expense tracking";
     source "Q2 Forecast" "Budget projection and variance analysis"]
    0.87.

Definition quote : string := String (ascii_of_nat 34) EmptyString.

Definition simulateGenericResponse (message : option string) (agent : Agent.t) : Reply.t :=
  reply ("I've processed your query: " +:+ quote +:+ default "undefined" message +:+ quote +:+
         ". I can provide general assistance, but you might get better results from a specialized agent for your specific domain.")
    [source (Agent.name agent) "General purpose AI assistant"]
    0.6.

Definition noMessage : JsError :=
  TypeError "Cannot read properties of undefined (reading 'toLowerCase')".

(** [callAgent] after its artificial delay; the call index is unused. *)
Definition callAgent (index : nat) (agent : Agent.t) (message context : option string)
  : JsError + Reply.t :=
  if String.eqb (Agent.type agent) "hr" then
    match message with
    | Some m => inr (simulateHRResponse m agent)
    | None => inl noMessage
    end
  else if String.eqb (Agent.type agent) "knowledge" then
    match message with
    | Some m => inr (simulateKnowledgeResponse m agent)
    | None => inl noMessage
    end
  else if String.eqb (Agent.type agent) "finance" then inr (simulateFinanceResponse agent)
  else inr (simulateGenericResponse message agent).

(** An environment with the simulated agents and the given clock. *)
Definition env (queryId : string) (now : Z) (delay : Q) : Env.t :=
  {| Env.queryId := queryId;
     Env.startTime := 0;
     Env.lookupNow := now;
     Env.storeNow := now;
     Env.cleanNow := now;
     Env.metricsNow := delay;
     Env.logNow := delay;
     Env.callAgent := callAgent;
     Env.responseTime := fun _ => delay |}.

End Simulated.

(** ** Concrete agent maps and queries *)

Module Scenario.

Definition workday (status : Status) : Agent.t :=
  {| Agent.name := "Workday Assistant"; Agent.type := "hr"; Agent.status := status |}.

Definition policy (status : Status) : Agent.t :=
  {| Agent.name := "Policy Bot"; Agent.type := "knowledge"; Agent.status := status |}.

(** The agent map of [loadFallbackAgents]: both agents are offline. *)
Definition fallbackAgents : gmap string Agent.t :=
  <["policy" := policy Offline]> (<["workday" := workday Offline]> ∅).

(** The same two agents once their health checks have put them online. *)
Definition onlineAgents : gmap string Agent.t :=
  <["policy" := policy Online]> (<["workday" := workday Online]> ∅).

(** Only the policy agent is online. *)
Definition mixedAgents : gmap string Agent.t :=
  <["policy" := policy Online]> (<["workday" := workday Offline]> ∅).

Definition query (message : string) (agents : option (list string)) : Query.t :=
  {| Query.message := Some message;
     Query.widgetId := Some "widget-1";
     Query.agents := agents;
     Query.context := None |}.

End Scenario.

(** ** Notions used to state the properties *)

(** [m] keeps [P] whatever it returns or throws. *)
Definition preserves (P : State.t → Prop) {A} (m : M A) : Prop :=
  ∀ s, P s → P (snd (m s)).

(** The outcome of one [executeSingleQuery] call as a function of the agent
    map alone: what the call settles to whatever its siblings do. *)
Definition callOutcome (env : Env.t) (agents : gmap string Agent.t)
    (queryData : option ActiveQuery.t) (index : nat) (agentId : string)
  : JsError + SingleResult.t :=
  match agents !! agentId with
  | None => inl (Error ("Agent " +:+ agentId +:+ " not found"))
  | Some agent =>
      if negb (isOnline (Agent.status agent))
      then inl (Error ("Agent " +:+ agentId +:+ " is not available"))
      else
        match queryData with
        | None => inl (TypeError "Cannot read properties of undefined (reading 'message')")
        | Some q =>
            match Env.callAgent env index agent
                    (Query.message (ActiveQuery.query q))
                    (Query.context (ActiveQuery.query q)) with
            | inl err => inl err
            | inr response =>
                inr {| SingleResult.content := Reply.content response;
                       SingleResult.sources := default [] (Reply.sources response);
                       SingleResult.confidence :=
                         JS.numOr (Reply.confidence response) 0.8%Q;
                       SingleResult.responseTime := Env.responseTime env index |}
            end
        end
  end.

(** The outcomes of the calls of a plan, the first one having index [index]. *)
Fixpoint callOutcomes (env : Env.t) (agents : gmap string Agent.t)
    (queryData : option ActiveQuery.t) (index : nat) (agentIds : list string)
  : list (JsError + SingleResult.t) :=
  match agentIds with
  | [] => []
  | agentId :: rest =>
      callOutcome env agents queryData index agentId
      :: callOutcomes env agents queryData (S index) rest
  end.

Definition failed {A} (r : JsError + A) : bool :=
  match r with inl _ => true | inr _ => false end.

(** Agent calls that get as far as [callAgent]. *)
Definition dispatched (agents : gmap string Agent.t) (queryData : option ActiveQuery.t)
    (agentIds : list string) : list Trace :=
  match queryData with
  | None => []
  | Some _ => map CallAgent (List.filter (AgentOrchestrator.isAvailable agents) agentIds)
  end.

Definition isSynthesize (tr : Trace) : bool :=
  match tr with Synthesize _ => true | CallAgent _ => false end.

(** The successful outcomes of a plan, each tagged with its agent. *)
Definition successesOf (agentIds : list string)
    (outcomes : list (JsError + SingleResult.t)) : list Result.t :=
  omap (fun entry : string * (JsError + SingleResult.t) =>
          match snd entry with
          | inr v => Some (AgentOrchestrator.toResult (fst entry) v)
          | inl _ => None
          end)
       (zip agentIds outcomes).

Definition Qsum (l : list Q) : Q := foldr Qplus 0%Q l.

(** The admission test of the response cache. *)
Definition cacheable (response : Response.t) : Prop :=
  Response.error response = false ∧
  ∃ c, Response.confidence response = Some c ∧ (0.7 < c)%Q.

Definition cacheOk (cache : gmap string CacheEntry.t) : Prop :=
  ∀ key entry, cache !! key = Some entry → cacheable (CacheEntry.response entry).

(** ** Further operations of the orchestrator *)

Module PerformanceStats.
Record t := {
  totalQueries : nat;
  averageResponseTime : Q;
  successRate : Q;
  agentStats : gmap string (string * Metrics.t);
  cacheSize : nat;
  cacheHitRate : Q
}.
End PerformanceStats.

(** The object built by [getSerializableState]; the metrics entries are
    kept as a map. *)
Module SerializableState.
Record t := {
  config : Config.t;
  performanceMetrics : gmap string Metrics.t;
  queryHistory : list LogEntry.t;
  cacheSize : nat
}.
End SerializableState.

Module OrchestratorOps.

(** [arr.slice(-n)]: the last [n] elements. *)
Definition sliceLast {A} (n : nat) (l : list A) : list A := drop (length l - n) l.

Definition getPerformanceStats (s : State.t) : PerformanceStats.t :=
  let history := State.queryHistory s in
  let nonEmpty := 0 <? length history in
  let successful := List.filter LogEntry.success history in
  {| PerformanceStats.totalQueries := length history;
     PerformanceStats.averageResponseTime :=
       if nonEmpty
       then (foldl (fun sum q => sum + LogEntry.duration q) 0 history
             / inject_Z (Z.of_nat (length history)))%Q
       else 0;
     PerformanceStats.successRate :=
       if nonEmpty
       then ((inject_Z (Z.of_nat (length successful))
              / inject_Z (Z.of_nat (length history))) * 100)%Q
       else 0;
     PerformanceStats.agentStats :=
       map_imap
         (fun agentId metrics =>
            let name :=
              match State.agents s !! agentId with
              | Some agent =>
                  if String.eqb (Agent.name agent) "" then agentId else Agent.name agent
              | None => agentId
              end in
            Some (name, metrics))
         (State.performanceMetrics s);
     PerformanceStats.cacheSize := size (State.responseCache s);
     PerformanceStats.cacheHitRate := 0 |}.

Definition getSerializableState (s : State.t) : SerializableState.t :=
  {| SerializableState.config := State.config s;
     SerializableState.performanceMetrics := State.performanceMetrics s;
     SerializableState.queryHistory := sliceLast 100 (State.queryHistory s);
     SerializableState.cacheSize := size (State.responseCache s) |}.

Definition withAgents (aq : ActiveQuery.t) (agents : list string) : ActiveQuery.t :=
  {| ActiveQuery.query :=
       {| Query.message := Query.message (ActiveQuery.query aq);
          Query.widgetId := Query.widgetId (ActiveQuery.query aq);
          Query.agents := Some agents;
          Query.context := Query.context (ActiveQuery.query aq) |};
     ActiveQuery.startTime := ActiveQuery.startTime aq |}.

(** The [try] block of [rerouteQuery]: the new agent list, or the error. *)
Definition rerouteAgents (engine : SmartRoutingEngine.t) (query : Query.t)
    (failedAgentId : string) : JsError + list string :=
  match Query.agents query with
  | None => inl (TypeError "Cannot read properties of undefined (reading 'filter')")
  | Some agents =>
      let remainingAgents :=
        List.filter (fun id => negb (String.eqb id failedAgentId)) agents in
      if 0 <? length remainingAgents then inr remainingAgents
      else
        match Query.message query with
        | None => inl (TypeError "Cannot read properties of undefined (reading 'toLowerCase')")
        | Some m =>
            let alternatives :=
              SmartRoutingEngine.findAlternativeAgents engine m [failedAgentId] in
            if 0 <? length alternatives then inr alternatives
            else inl (Error "No alternative agents available")
        end
  end.

Definition rerouteQuery (queryId failedAgentId : string) (s : State.t) : State.t :=
  match State.activeQueries s !! queryId with
  | None => s
  | Some query =>
      match rerouteAgents (State.routingEngine s) (ActiveQuery.query query) failedAgentId with
      | inr agents =>
          State.withActiveQueries (insert queryId (withAgents query agents)) s
      | inl err =>
          (* catch *)
          State.withActiveQueries (delete queryId)
            (State.emit
               (ResponseReady (Query.widgetId (ActiveQuery.query query))
                  (AgentOrchestrator.errorResponse err)) s)
      end
  end.

End OrchestratorOps.

(** ** Performance tracking of the canvas ([AICanvas]) *)

Module AICanvas.

Record Measurement := { value : Q; timestamp : Z }.

Record MetricStats := {
  average : Q;
  min : Q;
  max : Q;
  latest : Q;
  count : nat
}.

(** The table set up by the constructor. *)
Definition initialMetrics : gmap string (list Measurement) :=
  <["memoryUsage" := []]> (<["agentResponseTime" := []]> (<["widgetRenderTime" := []]> ∅)).

(** The property names that a plain object inherits from
    [Object.prototype]. Read on [this.performanceMetrics] they give a
    function or an object, which is truthy and has no [push]. *)
Definition inheritedKeys : list string :=
  ["constructor"; "hasOwnProperty"; "isPrototypeOf"; "propertyIsEnumerable";
   "toLocaleString"; "toString"; "valueOf"; "__proto__";
   "__defineGetter__"; "__defineSetter__"; "__lookupGetter__"; "__lookupSetter__"].

(** Values are numbers; [now] is [Date.now()]. *)
Definition trackPerformanceMetric (metric : string) (v : Q) (now : Z)
    (performanceMetrics : gmap string (list Measurement))
  : JsError + gmap string (list Measurement) :=
  match performanceMetrics !! metric with
  | None =>
      if JS.arrayIncludes inheritedKeys metric
      then inl (TypeError "this.performanceMetrics[metric].push is not a function")
      else
        let pushed := [] ++ [{| value := v; timestamp := now |}] in
        inr (<[metric := if 100 <? length pushed then tail pushed else pushed]>
               performanceMetrics)
  | Some current =>
      let pushed := current ++ [{| value := v; timestamp := now |}] in
      inr (<[metric := if 100 <? length pushed then tail pushed else pushed]>
             performanceMetrics)
  end.

(** The entry of [stats] for one metric; none when it has no values.
    [reduce] without an initial value starts from the first element.
    Measured values are numbers, so they are rationals, and [Math.min] and
    [Math.max] pick one of them; a sum or a quotient is rounded to a number
    again, and [round] is that rounding (to the nearest binary64 number): the
    average is the rounded quotient of the sum of rounded additions. *)
Definition statsOf (round : Q → Q) (values : list Q) : option MetricStats :=
  match values with
  | [] => None
  | first :: rest =>
      Some {| average :=
                round (foldl (fun a b => round (a + b)%Q) first rest
                       / inject_Z (Z.of_nat (length values)))%Q;
              min := foldl Qmin first rest;
              max := foldl Qmax first rest;
              latest := List.last values first;
              count := length values |}
  end.

Definition getPerformanceStats (round : Q → Q)
    (performanceMetrics : gmap string (list Measurement))
  : gmap string MetricStats :=
  omap (fun measurements => statsOf round (map value measurements)) performanceMetrics.

(** The table after a sequence of [trackPerformanceMetric] calls, each
    given as metric, value and time of the call; a call that throws ends
    the sequence. *)
Definition trackAll (samples : list (string * Q * Z))
  : JsError + gmap string (list Measurement) :=
  foldl (fun acc sample =>
           match acc with
           | inl err => inl err
           | inr pm => trackPerformanceMetric (sample.1.1) (sample.1.2) (sample.2) pm
           end)
    (inr initialMetrics) samples.

(** The measurements of one metric among the calls made, oldest first. *)
Definition samplesOf (metric : string) (samples : list (string * Q * Z))
  : list Measurement :=
  omap (fun sample : string * Q * Z =>
          if String.eqb (sample.1.1) metric
          then Some {| value := sample.1.2; timestamp := sample.2 |}
          else None)
    samples.

End AICanvas.

(** ** Specifications of runs *)

(** [m], started in a state with [P], ends with [Q] on its result when it
    returns and with [E] on the error when it throws. *)
Definition triple {A} (P : State.t → Prop) (m : M A)
    (Q : A → State.t → Prop) (E : JsError → State.t → Prop) : Prop :=
  ∀ s, P s →
    match m s with
    | (inr x, s') => Q x s'
    | (inl e, s') => E e s'
    end.

(** A traced call goes to an agent that is online in [agents]. *)
Definition callsOnline (agents : gmap string Agent.t) (tr : Trace) : bool :=
  match tr with
  | CallAgent agentId => AgentOrchestrator.isAvailable agents agentId
  | Synthesize _ => true
  end.

(** Counters and rates of a metrics record are consistent. *)
Definition metricsOk (m : Metrics.t) : Prop :=
  Metrics.successfulQueries m ≤ Metrics.totalQueries m ∧
  (0 <= Metrics.errorRate m)%Q ∧ (Metrics.errorRate m <= 100)%Q ∧
  (0 <= Metrics.reliability m)%Q ∧ (Metrics.reliability m <= 100)%Q.

(** The measured times of an environment are not negative. *)
Definition timesOk (env : Env.t) : Prop :=
  (∀ i, 0 <= Env.responseTime env i)%Q ∧ (Env.startTime env <= Env.metricsNow env)%Q.

(** What [recommendAgents] keeps true of its score table: one entry per
    agent, every key an agent of the capability table that is not excluded. *)
Definition scoresOk (excludeAgents : list string) (capabilities : list (string * list string))
    (scores : list (string * nat)) : Prop :=
  NoDup (map fst scores) ∧
  ∀ k, k ∈ map fst scores → (k ∉ excludeAgents) ∧ k ∈ map fst capabilities.

(** * Properties *)

(** ** Strings *)

Section StringFacts.

Lemma app_cons c (s t : string) : String c s +:+ t = String c (s +:+ t).
Proof. reflexivity. Qed.







Lemma toLowerCase_app s t :
  JS.toLowerCase (s +:+ t) = JS.toLowerCase s +:+ JS.toLowerCase t.
Proof.
  induction s as [|c s IH]; [done|].
  rewrite app_cons. cbn [JS.toLowerCase]. by rewrite IH, app_cons.
Qed.









End StringFacts.

(** ** Sorting *)

Section SortFacts.
Context {A : Type} (leb : A → A → bool).

Lemma insertSorted_perm x l : JS.insertSorted leb x l ≡ₚ x :: l.
Proof.
  induction l as [|y l IH]; [done|]. cbn.
  destruct (leb x y); [done|]. rewrite IH. apply Permutation_swap.
Qed.

Lemma sortBy_perm l : JS.sortBy leb l ≡ₚ l.
Proof.
  induction l as [|x l IH]; [done|]. cbn.
  rewrite insertSorted_perm. by constructor.
Qed.

Lemma sortBy_length l : length (JS.sortBy leb l) = length l.
Proof. apply Permutation_length, sortBy_perm. Qed.

Hypothesis leb_total : ∀ x y, leb x y = true ∨ leb y x = true.

Lemma insertSorted_sorted x l : Sorted (fun a b => leb a b = true) l →
  Sorted (fun a b => leb a b = true) (JS.insertSorted leb x l).
Proof.
  induction 1 as [|y l Hl IH Hy]; cbn.
  - repeat constructor.
  - destruct (leb x y) eqn:E.
    + constructor; [by constructor|]. by constructor.
    + constructor; [done|].
      assert (leb y x = true) as Hyx by (destruct (leb_total x y); [congruence|done]).
      destruct Hy as [|z l' Hyz]; cbn; [by constructor|].
      destruct (leb x z); by constructor.
Qed.

Lemma sortBy_sorted l : Sorted (fun a b => leb a b = true) (JS.sortBy leb l).
Proof.
  induction l as [|x l IH]; cbn; [constructor|]. by apply insertSorted_sorted.
Qed.

End SortFacts.

Lemma sort_sorted (l : list string) : Sorted String.le (JS.sort l).
Proof.
  unfold JS.sort.
  pose proof (sortBy_sorted String.leb String.leb_total l) as H.
  induction H as [|x l' Hl IH Hx]; constructor; [done|].
  destruct Hx as [|y l'' Hxy]; constructor. unfold String.le. by rewrite Hxy.
Qed.

Lemma sort_perm_eq (l1 l2 : list string) : l1 ≡ₚ l2 → JS.sort l1 = JS.sort l2.
Proof.
  intros H. apply (Sorted_unique String.le); [apply sort_sorted..|].
  unfold JS.sort. by rewrite !sortBy_perm.
Qed.

(** ** Cache keys *)



(** ** Runs: what each operation leaves alone *)

Lemma preserves_ret P {A} (x : A) : preserves P (ret x).
Proof. by intros s. Qed.

Lemma preserves_throw P {A} (e : JsError) : preserves P (@throw A e).
Proof. by intros s. Qed.

Lemma preserves_gets P {A} (f : State.t → A) : preserves P (gets f).
Proof. by intros s. Qed.

Lemma preserves_lift P {A} (r : JsError + A) : preserves P (AgentOrchestrator.lift r).
Proof. by destruct r; intros s. Qed.

Lemma preserves_modify (P : State.t → Prop) f :
  (∀ s, P s → P (f s)) → preserves P (modify f).
Proof. intros H s. apply H. Qed.

Lemma preserves_bind P {A B} (m : M A) (k : A → M B) :
  preserves P m → (∀ x, preserves P (k x)) → preserves P (bind m k).
Proof.
  intros Hm Hk s Hs. unfold bind. specialize (Hm s Hs).
  destruct (m s) as [[e|x] s1]; cbn in *; [done|]. by apply Hk.
Qed.

Lemma preserves_settle P {A} (m : M A) : preserves P m → preserves P (settle m).
Proof.
  intros Hm s Hs. unfold settle. specialize (Hm s Hs).
  by destruct (m s) as [r s1].
Qed.

Lemma preserves_forEach P {A} (f : A → M unit) l :
  (∀ x, preserves P (f x)) → preserves P (AgentOrchestrator.forEach f l).
Proof.
  intros Hf. induction l as [|x l IH]; cbn.
  - apply preserves_ret.
  - apply preserves_bind; auto.
Qed.

Ltac preserve_step :=
  lazymatch goal with
  | |- preserves _ (bind _ _) => apply preserves_bind; [|intros ?]
  | |- preserves _ (ret _) => apply preserves_ret
  | |- preserves _ (throw _) => apply preserves_throw
  | |- preserves _ (gets _) => apply preserves_gets
  | |- preserves _ (AgentOrchestrator.lift _) => apply preserves_lift
  | |- preserves _ (settle _) => apply preserves_settle
  | |- preserves _ (AgentOrchestrator.forEach _ _) => apply preserves_forEach; intros ?
  | |- preserves _ (modify _) => apply preserves_modify; auto
  | |- preserves _ (match ?x with _ => _ end) => destruct x
  end.

Ltac preserve := repeat preserve_step.

Section Frame.
Variable P : State.t → Prop.
Hypothesis frame_activeQueries : ∀ f s, P s → P (State.withActiveQueries f s).
Hypothesis frame_performanceMetrics : ∀ f s, P s → P (State.withPerformanceMetrics f s).
Hypothesis frame_emit : ∀ ev s, P s → P (State.emit ev s).
Hypothesis frame_record : ∀ tr s, P s → P (State.record tr s).

Lemma updateAgentMetrics_preserves agentId responseTime success :
  preserves P (AgentOrchestrator.updateAgentMetrics agentId responseTime success).
Proof. unfold AgentOrchestrator.updateAgentMetrics. preserve. Qed.

Lemma updatePerformanceMetrics_preserves agentIds now startTime success :
  preserves P (AgentOrchestrator.updatePerformanceMetrics agentIds now startTime success).
Proof.
  unfold AgentOrchestrator.updatePerformanceMetrics. preserve.
  apply updateAgentMetrics_preserves.
Qed.

Lemma deliverResponse_preserves widgetId response :
  preserves P (AgentOrchestrator.deliverResponse widgetId response).
Proof. unfold AgentOrchestrator.deliverResponse. preserve. Qed.

Lemma deliverErrorResponse_preserves widgetId err :
  preserves P (AgentOrchestrator.deliverErrorResponse widgetId err).
Proof. unfold AgentOrchestrator.deliverErrorResponse. preserve. Qed.

Lemma createRoutingPlan_preserves queryData :
  preserves P (AgentOrchestrator.createRoutingPlan queryData).
Proof. unfold AgentOrchestrator.createRoutingPlan. preserve. Qed.

Lemma executeSingleQuery_preserves env index queryData agentId :
  preserves P (AgentOrchestrator.executeSingleQuery env index queryData agentId).
Proof.
  unfold AgentOrchestrator.executeSingleQuery.
  preserve; apply updateAgentMetrics_preserves.
Qed.

Lemma settleAll_preserves env index queryData agentIds :
  preserves P (AgentOrchestrator.settleAll env index queryData agentIds).
Proof.
  revert index. induction agentIds as [|agentId rest IH]; intros index; cbn.
  - apply preserves_ret.
  - preserve; [apply executeSingleQuery_preserves | apply IH].
Qed.

Lemma executeParallelQueries_preserves env queryData plan :
  preserves P (AgentOrchestrator.executeParallelQueries env queryData plan).
Proof.
  unfold AgentOrchestrator.executeParallelQueries.
  preserve. apply settleAll_preserves.
Qed.

Lemma executeQueryPlan_preserves env queryId plan :
  preserves P (AgentOrchestrator.executeQueryPlan env queryId plan).
Proof.
  unfold AgentOrchestrator.executeQueryPlan. preserve;
    first [apply executeParallelQueries_preserves | apply executeSingleQuery_preserves].
Qed.

Lemma processQueryCatch_preserves env queryData err :
  preserves P (AgentOrchestrator.processQueryCatch env queryData err).
Proof.
  unfold AgentOrchestrator.processQueryCatch. preserve.
  - apply updatePerformanceMetrics_preserves.
  - apply deliverErrorResponse_preserves.
Qed.

Hypothesis getCachedResponse_preserves :
  ∀ now queryData, preserves P (AgentOrchestrator.getCachedResponse now queryData).
Hypothesis cacheResponse_preserves :
  ∀ env queryData response,
    AgentOrchestrator.shouldCacheResponse response = true →
    preserves P (AgentOrchestrator.cacheResponse env queryData response).
Hypothesis logQuery_preserves :
  ∀ queryId queryData response duration,
    preserves P (AgentOrchestrator.logQuery queryId queryData response duration).

Lemma processQueryBody_preserves env queryData :
  preserves P (AgentOrchestrator.processQueryBody env queryData).
Proof.
  unfold AgentOrchestrator.processQueryBody.
  apply preserves_bind; [preserve|intros _].
  apply preserves_bind; [preserve|intros cfg].
  apply preserves_bind; [destruct (Config.enableCaching cfg); preserve; auto|].
  intros [cached|].
  - apply deliverResponse_preserves.
  - apply preserves_bind; [preserve|intros _].
    apply preserves_bind; [apply createRoutingPlan_preserves|intros plan].
    apply preserves_bind; [apply executeQueryPlan_preserves|intros response].
    apply preserves_bind.
    { destruct (Config.enableCaching cfg); cbn; [|preserve].
      destruct (AgentOrchestrator.shouldCacheResponse response) eqn:E; [auto|preserve]. }
    intros _. apply preserves_bind; [apply deliverResponse_preserves|intros _].
    apply preserves_bind; [apply updatePerformanceMetrics_preserves|intros _].
    auto.
Qed.

Theorem processQuery_preserves env queryData s :
  P s → P (AgentOrchestrator.processQuery env queryData s).
Proof.
  intros Hs. unfold AgentOrchestrator.processQuery.
  apply frame_activeQueries.
  pose proof (processQueryBody_preserves env queryData s Hs) as Hbody.
  destruct (AgentOrchestrator.processQueryBody env queryData s) as [[err|[]] s1];
    cbn in Hbody; [|done].
  by apply processQueryCatch_preserves.
Qed.

End Frame.

(** ** Query history *)

Lemma logQuery_preserves_cache (P : gmap string CacheEntry.t → Prop)
    queryId queryData response duration :
  preserves (fun s => P (State.responseCache s))
    (AgentOrchestrator.logQuery queryId queryData response duration).
Proof. unfold AgentOrchestrator.logQuery. by preserve. Qed.

Lemma logQuery_bounded queryId queryData response duration :
  preserves (fun s => length (State.queryHistory s) ≤ 1000)
    (AgentOrchestrator.logQuery queryId queryData response duration).
Proof.
  unfold AgentOrchestrator.logQuery. apply preserves_modify. intros s Hs.
  cbn [State.queryHistory State.withQueryHistory].
  generalize (AgentOrchestrator.makeLogEntry queryId queryData response duration).
  intros entry. rewrite length_app. cbn [length].
  destruct (Nat.ltb_spec 1000 (length (State.queryHistory s) + 1)) as [E|E].
  - destruct (State.queryHistory s) as [|e0 h]; cbn in *; [lia|].
    rewrite length_app. cbn. lia.
  - rewrite length_app. cbn. lia.
Qed.

Lemma processQuery_history_bounded env queryData s :
  length (State.queryHistory s) ≤ 1000 →
  length (State.queryHistory (AgentOrchestrator.processQuery env queryData s)) ≤ 1000.
Proof.
  apply (processQuery_preserves (fun s => length (State.queryHistory s) ≤ 1000));
    try done.
  - intros now q. unfold AgentOrchestrator.getCachedResponse. by preserve.
  - intros env' q r _. unfold AgentOrchestrator.cacheResponse,
      AgentOrchestrator.cleanExpiredCache. by preserve.
  - apply logQuery_bounded.
Qed.

Lemma reachable_history_bounded s :
  AgentOrchestrator.reachable s → length (State.queryHistory s) ≤ 1000.
Proof.
  induction 1 as [agentMap | env q s _ IH | agentId status patch s _ IH].
  - cbn. lia.
  - by apply processQuery_history_bounded.
  - unfold AgentOrchestrator.handleAgentStatusChange.
    destruct (State.agents s !! agentId); [|done]. by destruct patch.
Qed.

(** C10: [logQuery] keeps [queryHistory] within 1000 entries. Below the bound
    the new entry is appended; at the bound the oldest entry is dropped and the
    new one appended; and a whole [processQuery] run keeps the bound too. *)
Theorem logQuery_history_bounded queryId queryData response duration s :
  length (State.queryHistory s) ≤ 1000 →
  let s' := snd (AgentOrchestrator.logQuery queryId queryData response duration s) in
  let entry := AgentOrchestrator.makeLogEntry queryId queryData response duration in
  length (State.queryHistory s') ≤ 1000 ∧
  (length (State.queryHistory s) < 1000 →
   State.queryHistory s' = State.queryHistory s ++ [entry]) ∧
  (length (State.queryHistory s) = 1000 →
   State.queryHistory s' = tail (State.queryHistory s) ++ [entry]) ∧
  (∀ env q,
     length (State.queryHistory (AgentOrchestrator.processQuery env q s)) ≤ 1000).
Proof.
  intros Hs s' entry. split; [by apply logQuery_bounded|].
  assert (State.queryHistory s' =
          if 1000 <? length (State.queryHistory s) + 1
          then tail (State.queryHistory s ++ [entry])
          else State.queryHistory s ++ [entry]) as ->.
  { subst s'. unfold AgentOrchestrator.logQuery, modify.
    cbn [snd State.queryHistory State.withQueryHistory].
    by rewrite length_app. }
  split; [|split].
  - intros Hlt. by destruct (Nat.ltb_spec 1000 (length (State.queryHistory s) + 1)); [lia|].
  - intros Heq. destruct (Nat.ltb_spec 1000 (length (State.queryHistory s) + 1)); [|lia].
    destruct (State.queryHistory s); [cbn in Heq; lia|reflexivity].
  - intros env q. by apply processQuery_history_bounded.
Qed.

Lemma logQuery_history_bounded_witness :
  let full :=
    State.withQueryHistory
      (fun _ => repeat (AgentOrchestrator.makeLogEntry "q0" 
                          {| Query.message := Some "hello"; Query.widgetId := Some "w";
                             Query.agents := None; Query.context := None |}
                          (AgentOrchestrator.errorResponse (Error "x")) 1) 1000)
      (AgentOrchestrator.initialize ∅) in
  length (State.queryHistory full) = 1000 ∧
  length (State.queryHistory
            (snd (AgentOrchestrator.logQuery "q1"
                    {| Query.message := Some "vacation"; Query.widgetId := Some "w";
                       Query.agents := None; Query.context := None |}
                    (AgentOrchestrator.errorResponse (Error "y")) 2 full))) ≤ 1000.
Proof.
  intros full. split; [apply repeat_length|].
  apply (logQuery_history_bounded "q1" _ _ 2 full).
  unfold full. cbn [State.queryHistory State.withQueryHistory].
  rewrite repeat_length. lia.
Defined.

(** ** Response cache *)

Lemma shouldCacheResponse_cacheable response :
  AgentOrchestrator.shouldCacheResponse response = true ↔ cacheable response.
Proof.
  unfold AgentOrchestrator.shouldCacheResponse, cacheable.
  rewrite andb_true_iff, negb_true_iff. split.
  - intros [Herr Hconf]. split; [done|].
    destruct (Response.confidence response) as [c|]; [|done].
    exists c. split; [done|]. apply negb_true_iff in Hconf.
    apply Qnot_le_lt. intros Hle. apply Qle_bool_iff in Hle. congruence.
  - intros [Herr (c & -> & Hlt)]. split; [done|]. apply negb_true_iff.
    destruct (Qle_bool c 0.7) eqn:E; [|done].
    apply Qle_bool_iff in E. by apply Qlt_not_le in Hlt.
Qed.

Section CacheInvariant.
Variable Phi : string → CacheEntry.t → Prop.
Hypothesis Phi_admits : ∀ key entry, cacheable (CacheEntry.response entry) → Phi key entry.

Lemma getCachedResponse_entries now queryData :
  preserves (fun s => map_Forall Phi (State.responseCache s))
    (AgentOrchestrator.getCachedResponse now queryData).
Proof.
  unfold AgentOrchestrator.getCachedResponse. preserve.
  intros s Hs key entry. cbn. rewrite lookup_delete_Some. intros [_ H]. by apply Hs.
Qed.

Lemma cleanExpiredCache_entries now :
  preserves (fun s => map_Forall Phi (State.responseCache s))
    (AgentOrchestrator.cleanExpiredCache now).
Proof.
  unfold AgentOrchestrator.cleanExpiredCache. apply preserves_modify.
  intros s Hs key entry. cbn. rewrite map_lookup_filter_Some. intros [H _]. by apply Hs.
Qed.

Lemma cacheResponse_entries env queryData response :
  AgentOrchestrator.shouldCacheResponse response = true →
  preserves (fun s => map_Forall Phi (State.responseCache s))
    (AgentOrchestrator.cacheResponse env queryData response).
Proof.
  intros Hadmit%shouldCacheResponse_cacheable.
  unfold AgentOrchestrator.cacheResponse. preserve.
  - intros s Hs key entry. cbn. rewrite lookup_insert_Some.
    intros [[<- <-] | [_ H]]; [by apply Phi_admits | by apply Hs].
  - apply cleanExpiredCache_entries.
Qed.

Lemma processQuery_entries env queryData s :
  map_Forall Phi (State.responseCache s) →
  map_Forall Phi (State.responseCache (AgentOrchestrator.processQuery env queryData s)).
Proof.
  apply (processQuery_preserves (fun s => map_Forall Phi (State.responseCache s)));
    try done.
  - apply getCachedResponse_entries.
  - apply cacheResponse_entries.
  - intros. apply (logQuery_preserves_cache (map_Forall Phi)).
Qed.

End CacheInvariant.

Lemma reachable_cacheOk s :
  AgentOrchestrator.reachable s → cacheOk (State.responseCache s).
Proof.
  induction 1 as [agentMap | env q s _ IH | agentId status patch s _ IH].
  - intros key entry. cbn. by rewrite lookup_empty.
  - by apply (processQuery_entries (fun _ entry => cacheable (CacheEntry.response entry))).
  - unfold AgentOrchestrator.handleAgentStatusChange.
    destruct (State.agents s !! agentId); [|done]. by destruct patch.
Qed.

Lemma cacheResponse_inserts env queryData response s key :
  AgentOrchestrator.generateCacheKey queryData = inr key →
  (Env.cleanNow env - Env.storeNow env ≤ AgentOrchestrator.cacheExpiry)%Z →
  let s' := snd (AgentOrchestrator.cacheResponse env queryData response s) in
  State.responseCache s' !! key =
    Some {| CacheEntry.response := response;
            CacheEntry.timestamp := Env.storeNow env;
            CacheEntry.queryData := queryData |} ∧
  ∀ key' entry',
    key' ≠ key → State.responseCache s !! key' = Some entry' →
    AgentOrchestrator.expired (Env.cleanNow env) entry' = false →
    State.responseCache s' !! key' = Some entry'.
Proof.
  intros Hkey Hfresh s'. subst s'.
  unfold AgentOrchestrator.cacheResponse, AgentOrchestrator.cleanExpiredCache.
  rewrite Hkey. cbn. split.
  - apply map_lookup_filter_Some. split; [by rewrite lookup_insert_eq|].
    cbn. unfold AgentOrchestrator.expired. cbn. by apply Z.ltb_ge.
  - intros key' entry' Hne Hin Hexp.
    apply map_lookup_filter_Some. split; [by rewrite lookup_insert_ne|done].
Qed.

(** C6: the response cache only ever holds non-error responses whose
    confidence is above 0.7: this holds in every reachable state; an entry
    that [processQuery] adds or replaces passes that test; and a response
    that passes it is stored whatever the size of the cache, the other
    unexpired entries staying in place (no capacity bound, no LRU). *)
Theorem responseCache_admission :
  (∀ s key entry,
     AgentOrchestrator.reachable s →
     State.responseCache s !! key = Some entry →
     cacheable (CacheEntry.response entry)) ∧
  (∀ env queryData s key entry,
     State.responseCache (AgentOrchestrator.processQuery env queryData s) !! key
       = Some entry →
     State.responseCache s !! key = Some entry ∨
     AgentOrchestrator.shouldCacheResponse (CacheEntry.response entry) = true) ∧
  (∀ env queryData response s key,
     AgentOrchestrator.generateCacheKey queryData = inr key →
     (Env.cleanNow env - Env.storeNow env ≤ AgentOrchestrator.cacheExpiry)%Z →
     let s' := snd (AgentOrchestrator.cacheResponse env queryData response s) in
     State.responseCache s' !! key =
       Some {| CacheEntry.response := response;
               CacheEntry.timestamp := Env.storeNow env;
               CacheEntry.queryData := queryData |} ∧
     ∀ key' entry',
       key' ≠ key → State.responseCache s !! key' = Some entry' →
       AgentOrchestrator.expired (Env.cleanNow env) entry' = false →
       State.responseCache s' !! key' = Some entry').
Proof.
  split; [|split].
  - intros s key entry Hs. apply (reachable_cacheOk s Hs).
  - intros env queryData s key entry.
    apply (processQuery_entries
             (fun key entry =>
                State.responseCache s !! key = Some entry ∨
                AgentOrchestrator.shouldCacheResponse (CacheEntry.response entry) = true)).
    + intros k e H. right. by apply shouldCacheResponse_cacheable.
    + intros k e H. by left.
  - apply cacheResponse_inserts.
Qed.

Lemma responseCache_admission_witness :
  let s :=
    AgentOrchestrator.processQuery (Simulated.env "query_1" 1000 800)
      (Scenario.query "Vacation days" (Some ["workday"]))
      (AgentOrchestrator.initialize Scenario.onlineAgents) in
  ∃ entry,
    State.responseCache s !! "vacation days|workday" = Some entry ∧
    cacheable (CacheEntry.response entry).
Proof.
  intros s. eexists. split; [vm_compute; reflexivity|].
  eapply (proj1 responseCache_admission s "vacation days|workday").
  - apply AgentOrchestrator.reachable_query, AgentOrchestrator.reachable_init.
  - vm_compute. reflexivity.
Defined.

Lemma getCachedResponse_run now queryData s key entry :
  AgentOrchestrator.generateCacheKey queryData = inr key →
  State.responseCache s !! key = Some entry →
  AgentOrchestrator.getCachedResponse now queryData s =
    if AgentOrchestrator.expired now entry
    then (inr None, State.withResponseCache (delete key) s)
    else (inr (Some (CacheEntry.response entry)), s).
Proof.
  intros Hkey Hin. unfold AgentOrchestrator.getCachedResponse.
  rewrite Hkey. cbn. unfold bind, gets. rewrite Hin.
  by destruct (AgentOrchestrator.expired now entry).
Qed.

(** C5 (amended): for an entry stored under the key of the query (the
    lower-cased, trimmed message, a bar, and the sorted agent ids joined by
    commas), [getCachedResponse] returns the stored response exactly when the
    age of the entry does not exceed the TTL of 300000 ms (an entry aged
    exactly 300000 ms is still served) and then leaves the cache as it is;
    when the age exceeds the TTL it returns null and deletes the entry in
    that same lookup. *)
Theorem getCachedResponse_ttl now queryData s m entry :
  Query.message queryData = Some m →
  let key :=
    JS.trim (JS.toLowerCase m) +:+ "|" +:+
    JS.join "," (JS.sort (default [] (Query.agents queryData))) in
  State.responseCache s !! key = Some entry →
  let age := (now - CacheEntry.timestamp entry)%Z in
  let result := AgentOrchestrator.getCachedResponse now queryData s in
  AgentOrchestrator.cacheExpiry = 300000%Z ∧
  (fst result = inr (Some (CacheEntry.response entry)) ↔ (age ≤ 300000)%Z) ∧
  ((age ≤ 300000)%Z → snd result = s) ∧
  ((300000 < age)%Z →
   fst result = inr None ∧
   State.responseCache (snd result) = delete key (State.responseCache s)).
Proof.
  intros Hm key Hin age result. subst result age.
  assert (AgentOrchestrator.generateCacheKey queryData = inr key) as Hkey.
  { unfold AgentOrchestrator.generateCacheKey. by rewrite Hm. }
  rewrite (getCachedResponse_run now queryData s key entry Hkey Hin).
  unfold AgentOrchestrator.expired, AgentOrchestrator.cacheExpiry.
  split; [done|].
  destruct (Z.ltb_spec 300000 (now - CacheEntry.timestamp entry)) as [Hlt|Hle]; cbn.
  - split; [split; [done|intros; exfalso; lia]|]. split; [intros; exfalso; lia|done].
  - split; [split; [intros; lia|done]|]. split; [done|intros; exfalso; lia].
Qed.

Lemma getCachedResponse_ttl_witness :
  let s :=
    AgentOrchestrator.processQuery (Simulated.env "query_1" 1000 800)
      (Scenario.query "Vacation days" (Some ["workday"]))
      (AgentOrchestrator.initialize Scenario.onlineAgents) in
  let result :=
    AgentOrchestrator.getCachedResponse 400000
      (Scenario.query "vacation days" (Some ["workday"])) s in
  fst result = inr None ∧
  State.responseCache (snd result)
    = delete "vacation days|workday" (State.responseCache s).
Proof.
  intros s result.
  assert (∃ entry, State.responseCache s !! "vacation days|workday" = Some entry
                   ∧ CacheEntry.timestamp entry = 1000%Z) as (entry & Hin & Hts).
  { eexists. split; vm_compute; reflexivity. }
  apply (getCachedResponse_ttl 400000
           (Scenario.query "vacation days" (Some ["workday"])) s
           "vacation days" entry eq_refl Hin).
  rewrite Hts. lia.
Defined.

(** C5, as stated, fails at the boundary: an entry whose age is exactly the
    TTL, hence not strictly below it, is still returned. *)
Lemma getCachedResponse_returns_at_ttl :
  let s :=
    AgentOrchestrator.processQuery (Simulated.env "query_1" 1000 800)
      (Scenario.query "Vacation days" (Some ["workday"]))
      (AgentOrchestrator.initialize Scenario.onlineAgents) in
  ∃ entry,
    State.responseCache s !! "vacation days|workday" = Some entry ∧
    (301000 - CacheEntry.timestamp entry)%Z = AgentOrchestrator.cacheExpiry ∧
    ¬ (301000 - CacheEntry.timestamp entry < AgentOrchestrator.cacheExpiry)%Z ∧
    fst (AgentOrchestrator.getCachedResponse 301000
           (Scenario.query "Vacation days" (Some ["workday"])) s)
      = inr (Some (CacheEntry.response entry)).
Proof.
  intros s. eexists. split; [vm_compute; reflexivity|].
  split; [reflexivity|]. split; [by vm_compute|]. vm_compute. reflexivity.
Qed.

(** ** Validation *)

Lemma updateAgentMetrics_run agentId responseTime success s :
  ∃ pm,
    AgentOrchestrator.updateAgentMetrics agentId responseTime success s =
      (inr tt, State.withPerformanceMetrics (fun _ => pm) s).
Proof.
  unfold AgentOrchestrator.updateAgentMetrics, bind, gets.
  destruct (State.performanceMetrics s !! agentId) as [m|].
  - by eexists.
  - exists (State.performanceMetrics s). by destruct s.
Qed.

Lemma updatePerformanceMetrics_run agentIds now startTime success s :
  ∃ pm,
    AgentOrchestrator.updatePerformanceMetrics agentIds now startTime success s =
      (inr tt, State.withPerformanceMetrics (fun _ => pm) s).
Proof.
  unfold AgentOrchestrator.updatePerformanceMetrics.
  revert s. induction agentIds as [|agentId rest IH]; intros s; cbn.
  - exists (State.performanceMetrics s). by destruct s.
  - unfold bind.
    destruct (updateAgentMetrics_run agentId (now - startTime) success s) as [pm1 ->].
    destruct (IH (State.withPerformanceMetrics (fun _ => pm1) s)) as [pm2 ->].
    by exists pm2.
Qed.

Lemma processQueryCatch_run env queryData err s :
  ∃ pm,
    AgentOrchestrator.processQueryCatch env queryData err s =
      (inr tt,
       State.emit
         (ResponseReady (Query.widgetId queryData) (AgentOrchestrator.errorResponse err))
         (State.withPerformanceMetrics (fun _ => pm) s)).
Proof.
  unfold AgentOrchestrator.processQueryCatch, bind.
  destruct (updatePerformanceMetrics_run (default [] (Query.agents queryData))
              (Env.metricsNow env) (Env.startTime env) false s) as [pm ->].
  by exists pm.
Qed.

Lemma validateQuery_malformed queryData :
  Query.message queryData = None ∨ Query.widgetId queryData = None ∨
  (∃ m, Query.message queryData = Some m ∧ JS.trim m = "") →
  AgentOrchestrator.validateQuery queryData = false.
Proof.
  unfold AgentOrchestrator.validateQuery. cbn.
  intros [-> | [-> | (m & -> & ->)]]; cbn.
  - done.
  - by rewrite andb_false_r.
  - by rewrite andb_false_r.
Qed.

(** C7: a query without a message, without a widget id, or whose message
    trims to the empty string (white space only, the no-break space U+00A0
    included) is rejected by [validateQuery]; [processQuery] then makes no
    agent call, leaves cache, history and agents as they are, and delivers
    exactly one response, to the widget of the query: an error response,
    with [error = true], the text built from "Invalid query format", no
    sources and no agents; the handler itself completes normally, so no
    exception leaves [processQuery]. *)
Theorem processQuery_rejects_malformed env queryData s :
  Query.message queryData = None ∨ Query.widgetId queryData = None ∨
  (∃ m, Query.message queryData = Some m ∧ JS.trim m = "") →
  let s' := AgentOrchestrator.processQuery env queryData s in
  AgentOrchestrator.validateQuery queryData = false ∧
  State.trace s' = State.trace s ∧
  State.events s' =
    State.events s ++
    [ResponseReady (Query.widgetId queryData)
       (AgentOrchestrator.errorResponse (Error "Invalid query format"))] ∧
  State.responseCache s' = State.responseCache s ∧
  State.queryHistory s' = State.queryHistory s ∧
  State.agents s' = State.agents s ∧
  (∀ err s1, fst (AgentOrchestrator.processQueryCatch env queryData err s1) = inr tt) ∧
  (∃ response,
     State.events s' =
       State.events s ++ [ResponseReady (Query.widgetId queryData) response] ∧
     Response.error response = true ∧
     Response.content response =
       "I encountered an error processing your request: Invalid query format. Please try again or contact support if the issue persists." ∧
     Response.sources response = [] ∧
     Response.agents response = Some [] ∧
     Response.confidence response = None).
Proof.
  intros Hbad s'. pose proof (validateQuery_malformed queryData Hbad) as Hv.
  split; [done|].
  assert (AgentOrchestrator.processQueryBody env queryData s
          = (inl (Error "Invalid query format"), s)) as Hbody.
  { unfold AgentOrchestrator.processQueryBody. by rewrite Hv. }
  subst s'. unfold AgentOrchestrator.processQuery. rewrite Hbody, Hv.
  cbn [andb].
  destruct (processQueryCatch_run env queryData (Error "Invalid query format") s)
    as [pm ->].
  cbn [snd State.trace State.events State.responseCache State.queryHistory State.agents
       State.withActiveQueries State.emit State.withPerformanceMetrics].
  split; [done|]. split; [done|]. split; [done|]. split; [done|]. split; [done|].
  split.
  - intros err s1. by destruct (processQueryCatch_run env queryData err s1) as [pm1 ->].
  - exists (AgentOrchestrator.errorResponse (Error "Invalid query format")).
    split; [done|]. by vm_compute.
Qed.

(** The message is a space, a no-break space (code unit 160) and a tab. *)
Lemma processQuery_rejects_malformed_witness :
  let s := AgentOrchestrator.initialize Scenario.onlineAgents in
  let s' :=
    AgentOrchestrator.processQuery (Simulated.env "query_1" 1000 800)
      (Scenario.query (JS.fromCodes [32; 160; 9]) (Some ["workday"])) s in
  State.trace s' = [] ∧
  ∃ response,
    State.events s' = [ResponseReady (Some "widget-1") response] ∧
    Response.error response = true.
Proof.
  intros s s'.
  destruct (processQuery_rejects_malformed (Simulated.env "query_1" 1000 800)
              (Scenario.query (JS.fromCodes [32; 160; 9]) (Some ["workday"])) s)
    as (_ & Ht & _ & _ & _ & _ & _ & response & He & Herr & _).
  - right. right. exists (JS.fromCodes [32; 160; 9]). split; reflexivity.
  - split; [exact Ht|]. exists response. split; [exact He | exact Herr].
Defined.

(** ** Metrics *)

Lemma updateAgentMetrics_lookup agentId responseTime success s m :
  State.performanceMetrics s !! agentId = Some m →
  State.performanceMetrics
    (snd (AgentOrchestrator.updateAgentMetrics agentId responseTime success s)) !! agentId
  = Some (AgentOrchestrator.updateMetrics m responseTime success).
Proof.
  intros Hm. unfold AgentOrchestrator.updateAgentMetrics, bind, gets. rewrite Hm.
  cbn. by rewrite lookup_insert_eq.
Qed.

Lemma errorRate_range (total successful : nat) :
  successful ≤ S total →
  let rate :=
    ((inject_Z (Z.of_nat (S total) - Z.of_nat successful)
      / inject_Z (Z.of_nat (S total))) * 100)%Q in
  (0 <= rate)%Q ∧ (rate <= 100)%Q.
Proof.
  intros Hle rate. subst rate.
  assert (0 < inject_Z (Z.of_nat (S total)))%Q as Hpos.
  { change 0%Q with (inject_Z 0). rewrite <- Zlt_Qlt. lia. }
  assert (0 <= inject_Z (Z.of_nat (S total) - Z.of_nat successful))%Q as Hnum.
  { change 0%Q with (inject_Z 0). rewrite <- Zle_Qle. lia. }
  assert (inject_Z (Z.of_nat (S total) - Z.of_nat successful)
          <= inject_Z (Z.of_nat (S total)))%Q as Hfrac.
  { rewrite <- Zle_Qle. lia. }
  split.
  - apply Qmult_le_0_compat; [|done].
    apply Qle_shift_div_l; [done|]. by rewrite Qmult_0_l.
  - assert (inject_Z (Z.of_nat (S total) - Z.of_nat successful)
            / inject_Z (Z.of_nat (S total)) <= 1)%Q as H1.
    { apply Qle_shift_div_r; [done|]. by rewrite Qmult_1_l. }
    apply Qle_trans with (1 * 100)%Q; [|by compute].
    by apply Qmult_le_compat_r.
Qed.

Lemma reliability_range (rate responseTime : Q) :
  (0 <= rate)%Q → (rate <= 100)%Q → (0 <= responseTime)%Q →
  let factor := Qmax 0 (100 - responseTime / 50) in
  let reliability := Qmax 0 ((100 - rate) * (factor / 100)) in
  (0 <= reliability)%Q ∧ (reliability <= 100)%Q.
Proof.
  intros H0 H100 Hrt factor reliability. subst reliability.
  split; [apply Q.le_max_l|].
  assert (0 <= factor)%Q as Hf0 by apply Q.le_max_l.
  assert (factor <= 100)%Q as Hf100.
  { subst factor. apply Q.max_lub; [by compute|].
    assert (0 <= responseTime / 50)%Q by (apply Qle_shift_div_l; [by compute|lra]).
    lra. }
  apply Q.max_lub; [by compute|].
  generalize dependent factor. intros factor Hf0 Hf100.
  assert (0 <= factor / 100)%Q as Hd0 by (apply Qle_shift_div_l; [by compute|lra]).
  assert (factor / 100 <= 1)%Q as Hd1 by (apply Qle_shift_div_r; [by compute|lra]).
  apply Qle_trans with ((100 - rate) * 1)%Q; [|lra].
  rewrite !(Qmult_comm (100 - rate)).
  apply Qmult_le_compat_r; [done|lra].
Qed.

(** C8: [updateAgentMetrics] keeps the average response time as an
    exponential moving average with weight 0.2 on the new sample: after a
    successful call it is 0.8 times the old average plus 0.2 times the sample,
    the sample itself when the old average is 0, and unchanged after a failed
    call; the error rate is (totalQueries - successfulQueries) / totalQueries
    times 100 on the updated counters; the reliability is the inverted error
    rate times the response-time factor max(0, 100 - sample / 50) / 100,
    clamped at 0. Error rate and reliability stay within 0 and 100. *)
Theorem updateAgentMetrics_ema agentId responseTime success s m :
  State.performanceMetrics s !! agentId = Some m →
  ∃ m',
    State.performanceMetrics
      (snd (AgentOrchestrator.updateAgentMetrics agentId responseTime success s))
      !! agentId = Some m' ∧
    Metrics.totalQueries m' = S (Metrics.totalQueries m) ∧
    Metrics.successfulQueries m' =
      (if success then S (Metrics.successfulQueries m) else Metrics.successfulQueries m) ∧
    Metrics.lastResponseTime m' = responseTime ∧
    (success = true → ¬ (Metrics.averageResponseTime m == 0)%Q →
     (Metrics.averageResponseTime m'
      == 0.8 * Metrics.averageResponseTime m + 0.2 * responseTime)%Q) ∧
    (success = true → (Metrics.averageResponseTime m == 0)%Q →
     Metrics.averageResponseTime m' = responseTime) ∧
    (success = false →
     Metrics.averageResponseTime m' = Metrics.averageResponseTime m) ∧
    (Metrics.errorRate m'
     == inject_Z (Z.of_nat (Metrics.totalQueries m') - Z.of_nat (Metrics.successfulQueries m'))
        / inject_Z (Z.of_nat (Metrics.totalQueries m')) * 100)%Q ∧
    (Metrics.reliability m'
     == Qmax 0 ((100 - Metrics.errorRate m')
                * (Qmax 0 (100 - responseTime / 50) / 100)))%Q ∧
    (Metrics.successfulQueries m ≤ Metrics.totalQueries m → (0 <= responseTime)%Q →
     (0 <= Metrics.errorRate m')%Q ∧ (Metrics.errorRate m' <= 100)%Q ∧
     (0 <= Metrics.reliability m')%Q ∧ (Metrics.reliability m' <= 100)%Q).
Proof.
  intros Hm. exists (AgentOrchestrator.updateMetrics m responseTime success).
  split; [by apply updateAgentMetrics_lookup|].
  unfold AgentOrchestrator.updateMetrics. cbn.
  split; [done|]. split; [done|]. split; [done|].
  split; [|split; [|split; [|split; [|split]]]].
  - intros -> Hne. destruct (Qeq_bool _ 0) eqn:E; [by apply Qeq_bool_iff in E|]. ring.
  - intros -> Heq. apply Qeq_bool_iff in Heq. by rewrite Heq.
  - by intros ->.
  - reflexivity.
  - reflexivity.
  - intros Hle Hrt.
    assert ((if success then S (Metrics.successfulQueries m)
             else Metrics.successfulQueries m) ≤ S (Metrics.totalQueries m)) as Hle'.
    { destruct success; lia. }
    destruct (errorRate_range (Metrics.totalQueries m) _ Hle') as [H0 H100].
    destruct (reliability_range _ responseTime H0 H100 Hrt) as [Hr0 Hr100].
    done.
Qed.

Lemma updateAgentMetrics_ema_witness :
  let s := AgentOrchestrator.initialize Scenario.onlineAgents in
  let s1 := snd (AgentOrchestrator.updateAgentMetrics "workday" 800 true s) in
  let s2 := snd (AgentOrchestrator.updateAgentMetrics "workday" 1300 true s1) in
  ∃ m2,
    State.performanceMetrics s2 !! "workday" = Some m2 ∧
    (Metrics.averageResponseTime m2 == 900)%Q ∧
    (Metrics.errorRate m2 == 0)%Q.
Proof.
  intros s s1 s2.
  assert (∃ m1, State.performanceMetrics s1 !! "workday" = Some m1 ∧
                Metrics.averageResponseTime m1 = 800%Q ∧
                Metrics.totalQueries m1 = 1 ∧ Metrics.successfulQueries m1 = 1)
    as (m1 & Hm1 & Havg & Htot & Hsuc).
  { eexists. split; [vm_compute; reflexivity|]. by vm_compute. }
  destruct (updateAgentMetrics_ema "workday" 1300 true s1 m1 Hm1)
    as (m2 & Hm2 & Ht2 & Hs2 & _ & Hema & _ & _ & Herr & _).
  exists m2. split; [exact Hm2|]. split.
  - rewrite Hema, Havg; [reflexivity|reflexivity|by rewrite Havg].
  - rewrite Herr, Ht2, Hs2, Htot, Hsuc. reflexivity.
Defined.

(** ** Synthesis *)

Lemma findIndex_lt {A} (p : A → bool) l i :
  AgentOrchestrator.findIndex p l = Some i → i < length l.
Proof.
  revert i. induction l as [|x l IH]; intros i; cbn; [done|].
  destruct (p x); [intros [= <-]; lia|].
  destruct (AgentOrchestrator.findIndex p l) as [j|]; cbn; [|done].
  intros [= <-]. specialize (IH j eq_refl). lia.
Qed.

Lemma findIndex_None {A} (p : A → bool) l :
  AgentOrchestrator.findIndex p l = None ↔ existsb p l = false.
Proof.
  induction l as [|x l IH]; cbn; [done|].
  destruct (p x); cbn; [done|].
  rewrite <- IH. by destruct (AgentOrchestrator.findIndex p l).
Qed.

Lemma findIndex_app {A} (p : A → bool) l1 l2 :
  AgentOrchestrator.findIndex p (l1 ++ l2) =
    match AgentOrchestrator.findIndex p l1 with
    | Some i => Some i
    | None => (fun j => length l1 + j) <$> AgentOrchestrator.findIndex p l2
    end.
Proof.
  induction l1 as [|x l1 IH]; cbn.
  - by destruct (AgentOrchestrator.findIndex p l2).
  - destruct (p x); [done|]. rewrite IH.
    destruct (AgentOrchestrator.findIndex p l1); [done|].
    by destruct (AgentOrchestrator.findIndex p l2).
Qed.

Lemma arrayIncludes_elem (l : list string) x : JS.arrayIncludes l x = true ↔ x ∈ l.
Proof.
  unfold JS.arrayIncludes. rewrite existsb_exists. split.
  - intros (y & Hy & ->%String.eqb_eq). by apply list_elem_of_In.
  - intros H. exists x. split; [by apply list_elem_of_In|apply String.eqb_refl].
Qed.

Lemma dedupByName_ext seen seen' l :
  (∀ n, n ∈ seen ↔ n ∈ seen') →
  AgentOrchestrator.dedupByName seen l = AgentOrchestrator.dedupByName seen' l.
Proof.
  revert seen seen'. induction l as [|x l IH]; intros seen seen' Heq; cbn; [done|].
  assert (JS.arrayIncludes seen (Source.name x) = JS.arrayIncludes seen' (Source.name x))
    as ->.
  { apply eq_true_iff_eq. rewrite !arrayIncludes_elem. apply Heq. }
  destruct (JS.arrayIncludes seen' (Source.name x)); [by apply IH|].
  f_equal. apply IH. intros n. rewrite !elem_of_cons. by rewrite Heq.
Qed.

(** The index-based filter of the source is first-occurrence de-duplication. *)
Lemma uniqueSources_from (before rest : list Source.t) :
  AgentOrchestrator.filterIndexed
    (fun source index =>
       bool_decide
         (AgentOrchestrator.findIndex
            (fun s => String.eqb (Source.name s) (Source.name source)) (before ++ rest)
          = Some index))
    (length before) rest
  = AgentOrchestrator.dedupByName (map Source.name before) rest.
Proof.
  revert before. induction rest as [|x rest IH]; intros before; [done|].
  cbn [AgentOrchestrator.filterIndexed AgentOrchestrator.dedupByName].
  specialize (IH (before ++ [x])).
  rewrite <- app_assoc, length_app, Nat.add_1_r in IH. cbn [app] in IH.
  rewrite IH. clear IH.
  rewrite findIndex_app. cbn [AgentOrchestrator.findIndex].
  rewrite String.eqb_refl. cbn [fmap option_fmap option_map].
  destruct (AgentOrchestrator.findIndex
              (fun s => String.eqb (Source.name s) (Source.name x)) before)
    as [i|] eqn:Hfi.
  - assert (JS.arrayIncludes (map Source.name before) (Source.name x) = true) as ->.
    { destruct (existsb (fun s => String.eqb (Source.name s) (Source.name x)) before)
        eqn:Hex; [|apply findIndex_None in Hex; congruence].
      apply existsb_exists in Hex as (y & Hy & Heq%String.eqb_eq).
      apply arrayIncludes_elem. rewrite <- Heq.
      apply list_elem_of_fmap. exists y. split; [done|by apply list_elem_of_In]. }
    rewrite bool_decide_eq_false_2.
    + apply dedupByName_ext. intros n. rewrite map_app, elem_of_app. cbn.
      rewrite list_elem_of_singleton. split; [|tauto].
      intros [H | ->]; [done|].
      apply findIndex_lt in Hfi as Hlt.
      assert (existsb (fun s => String.eqb (Source.name s) (Source.name x)) before = true)
        as Hex.
      { destruct (existsb _ before) eqn:Hex; [done|].
        apply findIndex_None in Hex. congruence. }
      apply existsb_exists in Hex as (y & Hy & Heq%String.eqb_eq).
      rewrite <- Heq. apply list_elem_of_fmap. exists y.
      split; [done|by apply list_elem_of_In].
    + intros [= ->]. apply findIndex_lt in Hfi. lia.
  - assert (JS.arrayIncludes (map Source.name before) (Source.name x) = false) as ->.
    { apply findIndex_None in Hfi. apply not_true_iff_false.
      rewrite arrayIncludes_elem. intros (y & Heq & Hy)%list_elem_of_fmap.
      apply not_true_iff_false in Hfi. apply Hfi, existsb_exists.
      exists y. split; [by apply list_elem_of_In|]. rewrite <- Heq. apply String.eqb_refl. }
    rewrite bool_decide_eq_true_2 by (f_equal; lia).
    f_equal. apply dedupByName_ext. intros n.
    rewrite map_app, elem_of_app, elem_of_cons. cbn.
    rewrite list_elem_of_singleton. tauto.
Qed.

Lemma uniqueSources_dedup l :
  AgentOrchestrator.uniqueSources l = AgentOrchestrator.dedupByName [] l.
Proof. apply (uniqueSources_from [] l). Qed.

Lemma dedupByName_fresh seen l x :
  x ∈ AgentOrchestrator.dedupByName seen l → (Source.name x ∉ seen) ∧ (x ∈ l).
Proof.
  revert seen. induction l as [|y l IH]; intros seen; cbn; [by intros ?%elem_of_nil|].
  destruct (JS.arrayIncludes seen (Source.name y)) eqn:E.
  - intros [H1 H2]%IH. split; [done|by right].
  - intros Hx. apply elem_of_cons in Hx as [->|Hx].
    + split; [|by left]. rewrite <- arrayIncludes_elem. congruence.
    + apply IH in Hx as [H1 H2].
      split; [|by right]. intros H. apply H1. by right.
Qed.

Lemma dedupByName_NoDup seen l :
  NoDup (map Source.name (AgentOrchestrator.dedupByName seen l)).
Proof.
  revert seen. induction l as [|y l IH]; intros seen; cbn; [constructor|].
  destruct (JS.arrayIncludes seen (Source.name y)); [apply IH|].
  cbn. constructor; [|apply IH].
  intros (z & Heq & [Hz _]%dedupByName_fresh)%list_elem_of_fmap.
  apply Hz. rewrite Heq. by left.
Qed.

Lemma dedupByName_complete seen l x :
  x ∈ l →
  Source.name x ∈ seen ∨
  Source.name x ∈ map Source.name (AgentOrchestrator.dedupByName seen l).
Proof.
  revert seen. induction l as [|y l IH]; intros seen; [by intros ?%elem_of_nil|].
  cbn. intros [->|Hx]%elem_of_cons.
  - destruct (JS.arrayIncludes seen (Source.name y)) eqn:E.
    + left. by apply arrayIncludes_elem.
    + right. cbn. by left.
  - destruct (JS.arrayIncludes seen (Source.name y)) eqn:E; [by apply IH|].
    destruct (IH (Source.name y :: seen) Hx) as [[->|H]%elem_of_cons|H].
    + right. cbn. by left.
    + by left.
    + right. cbn. by right.
Qed.

Lemma allSources_concat (results : list Result.t) acc :
  foldl (fun acc result => acc ++ Result.sources result) acc results
  = acc ++ concat (map Result.sources results).
Proof.
  revert acc. induction results as [|r results IH]; intros acc; cbn.
  - by rewrite app_nil_r.
  - by rewrite IH, app_assoc.
Qed.

Lemma numOr_zero c : (JS.numOr (Some c) 0 == c)%Q.
Proof.
  unfold JS.numOr. destruct (Qeq_bool c 0) eqn:E; [|reflexivity].
  apply Qeq_bool_iff in E. by rewrite E.
Qed.

Lemma confidence_sum (results : list Result.t) acc :
  (foldl (fun sum result => sum + JS.numOr (Some (Result.confidence result)) 0) acc results
   == acc + Qsum (map Result.confidence results))%Q.
Proof.
  unfold Qsum.
  revert acc. induction results as [|r results IH]; intros acc; cbn [foldl map foldr].
  - ring.
  - rewrite IH, numOr_zero. ring.
Qed.

(** C4: [synthesizeResponses] passes a single result through (content and
    sources unchanged, [synthesized = false]); for two or more results the
    sources are the concatenation of the per-agent source lists de-duplicated
    by name keeping the first occurrence (so sources named A, A, B give
    exactly the first A and B), the confidence is the arithmetic mean of the
    per-agent confidences, and [synthesized = true]. *)
Theorem synthesizeResponses_spec (agents : gmap string Agent.t) :
  (∀ r,
     AgentOrchestrator.synthesizeResponses agents [r] =
       {| Response.content := Result.content r;
          Response.sources := Result.sources r;
          Response.agents := Some [Result.agentId r];
          Response.confidence := Some (Result.confidence r);
          Response.synthesized := Some false;
          Response.error := false;
          Response.responseTime := None |}) ∧
  (∀ results,
     2 ≤ length results →
     let out := AgentOrchestrator.synthesizeResponses agents results in
     let allSources := concat (map Result.sources results) in
     Response.synthesized out = Some true ∧
     Response.sources out = AgentOrchestrator.dedupByName [] allSources ∧
     NoDup (map Source.name (Response.sources out)) ∧
     (∀ x, x ∈ Response.sources out → x ∈ allSources) ∧
     (∀ x, x ∈ allSources → Source.name x ∈ map Source.name (Response.sources out)) ∧
     ∃ c,
       Response.confidence out = Some c ∧
       (c == Qsum (map Result.confidence results)
             / inject_Z (Z.of_nat (length results)))%Q) ∧
  (∀ r1 r2 a a' b,
     Result.sources r1 ++ Result.sources r2 = [a; a'; b] →
     Source.name a = "A" → Source.name a' = "A" → Source.name b = "B" →
     Response.sources (AgentOrchestrator.synthesizeResponses agents [r1; r2]) = [a; b]).
Proof.
  split; [done|].
  assert (∀ results, 2 ≤ length results →
          AgentOrchestrator.synthesizeResponses agents results =
            {| Response.content :=
                 JS.join (AgentOrchestrator.newline +:+ AgentOrchestrator.newline)
                   (map (AgentOrchestrator.attribution agents) results);
               Response.sources :=
                 AgentOrchestrator.dedupByName [] (concat (map Result.sources results));
               Response.agents := Some (map Result.agentId results);
               Response.confidence := Some (AgentOrchestrator.avgConfidence results);
               Response.synthesized := Some true;
               Response.error := false;
               Response.responseTime := None |}) as Hmulti.
  { intros [|r1 [|r2 results]] Hlen; cbn in Hlen; [lia..|].
    unfold AgentOrchestrator.synthesizeResponses.
    by rewrite uniqueSources_dedup, allSources_concat. }
  split.
  - intros results Hlen out allSources. subst out allSources.
    rewrite (Hmulti results Hlen). cbn [Response.synthesized Response.sources
      Response.confidence].
    split; [done|]. split; [done|]. split; [apply dedupByName_NoDup|].
    split; [by intros x [_ Hx]%dedupByName_fresh|]. split.
    + intros x Hx. destruct (dedupByName_complete [] _ x Hx) as [H|H]; [|done].
      by apply elem_of_nil in H.
    + eexists. split; [reflexivity|].
      unfold AgentOrchestrator.avgConfidence. rewrite confidence_sum.
      by rewrite Qplus_0_l.
  - intros r1 r2 a a' b Hsrc Ha Ha' Hb.
    rewrite (Hmulti [r1; r2]) by (cbn; lia).
    cbn [Response.sources map concat]. rewrite app_nil_r, Hsrc.
    cbn. by rewrite Ha, Ha', Hb.
Qed.

Lemma synthesizeResponses_spec_witness :
  let src name := {| Source.name := name; Source.description := "from " +:+ name |} in
  let result agentId sources confidence :=
    {| Result.agentId := agentId; Result.content := "answer of " +:+ agentId;
       Result.sources := sources; Result.confidence := confidence;
       Result.responseTime := 800 |} in
  let out :=
    AgentOrchestrator.synthesizeResponses Scenario.onlineAgents
      [result "workday" [src "A"] 0.9%Q; result "policy" [src "A"; src "B"] 0.7%Q] in
  Response.sources out = [src "A"; src "B"] ∧
  Response.synthesized out = Some true ∧
  ∃ c, Response.confidence out = Some c ∧ (c == 0.8)%Q.
Proof.
  intros src result out.
  destruct (proj1 (proj2 (synthesizeResponses_spec Scenario.onlineAgents))
              [result "workday" [src "A"] 0.9%Q; result "policy" [src "A"; src "B"] 0.7%Q])
    as (Hsyn & Hsrc & _ & _ & _ & c & Hc & Hmean).
  - cbn. lia.
  - split; [exact Hsrc|]. split; [exact Hsyn|].
    exists c. split; [exact Hc|]. rewrite Hmean. reflexivity.
Defined.

(** ** Parallel dispatch *)

Lemma recordAll_nil s : State.recordAll [] s = s.
Proof. destruct s. unfold State.recordAll. cbn. by rewrite app_nil_r. Qed.


Lemma dispatched_cons agents queryData agentId rest :
  dispatched agents queryData (agentId :: rest)
  = dispatched agents queryData [agentId] ++ dispatched agents queryData rest.
Proof.
  unfold dispatched. destruct queryData; [|done]. cbn.
  by destruct (AgentOrchestrator.isAvailable agents agentId).
Qed.

Lemma dispatched_one agents queryData agentId :
  dispatched agents queryData [agentId] =
    match queryData, agents !! agentId with
    | Some _, Some agent =>
        if isOnline (Agent.status agent) then [CallAgent agentId] else []
    | _, _ => []
    end.
Proof.
  unfold dispatched, AgentOrchestrator.isAvailable. cbn [List.filter].
  destruct queryData; [|done].
  destruct (agents !! agentId) as [agent|]; [|done].
  by destruct (isOnline (Agent.status agent)).
Qed.

Lemma executeSingleQuery_run env index queryData agentId s :
  ∃ pm,
    AgentOrchestrator.executeSingleQuery env index queryData agentId s =
      (callOutcome env (State.agents s) queryData index agentId,
       State.withPerformanceMetrics (fun _ => pm)
         (State.recordAll (dispatched (State.agents s) queryData [agentId]) s)).
Proof.
  rewrite dispatched_one.
  unfold AgentOrchestrator.executeSingleQuery, callOutcome.
  unfold bind at 1. unfold gets at 1.
  destruct (State.agents s !! agentId) as [agent|] eqn:Hagent.
  2:{ exists (State.performanceMetrics s). unfold throw.
      destruct queryData; rewrite recordAll_nil; by destruct s. }
  destruct (isOnline (Agent.status agent)); cbn [negb].
  2:{ exists (State.performanceMetrics s). unfold throw.
      destruct queryData; rewrite recordAll_nil; by destruct s. }
  destruct queryData as [q|].
  - unfold bind at 1. unfold modify at 1.
    destruct (Env.callAgent env index agent _ _) as [err|response]; unfold bind at 1.
    + destruct (updateAgentMetrics_run agentId (Env.responseTime env index) false
                  (State.record (CallAgent agentId) s)) as [pm ->].
      by exists pm.
    + destruct (updateAgentMetrics_run agentId (Env.responseTime env index) true
                  (State.record (CallAgent agentId) s)) as [pm ->].
      by exists pm.
  - unfold bind at 1.
    destruct (updateAgentMetrics_run agentId (Env.responseTime env index) false s)
      as [pm ->].
    exists pm. by rewrite recordAll_nil.
Qed.

Lemma settleAll_run env index queryData agentIds s :
  ∃ pm,
    AgentOrchestrator.settleAll env index queryData agentIds s =
      (inr (callOutcomes env (State.agents s) queryData index agentIds),
       State.withPerformanceMetrics (fun _ => pm)
         (State.recordAll (dispatched (State.agents s) queryData agentIds) s)).
Proof.
  revert index s. induction agentIds as [|agentId rest IH]; intros index s.
  - exists (State.performanceMetrics s). cbn.
    assert (dispatched (State.agents s) queryData [] = []) as ->
      by (by destruct queryData).
    rewrite recordAll_nil. by destruct s.
  - cbn [AgentOrchestrator.settleAll callOutcomes]. unfold bind at 1, settle.
    destruct (executeSingleQuery_run env index queryData agentId s) as [pm1 ->].
    unfold bind at 1.
    destruct (IH (S index)
                (State.withPerformanceMetrics (fun _ => pm1)
                   (State.recordAll (dispatched (State.agents s) queryData [agentId]) s)))
      as [pm2 ->].
    exists pm2. cbn [State.agents State.withPerformanceMetrics State.recordAll].
    unfold ret. f_equal.
    rewrite (dispatched_cons _ _ agentId rest).
    unfold State.withPerformanceMetrics, State.recordAll. cbn.
    by rewrite app_assoc.
Qed.

Lemma callOutcomes_length env agents queryData index agentIds :
  length (callOutcomes env agents queryData index agentIds) = length agentIds.
Proof.
  revert index. induction agentIds as [|a l IH]; intros index; cbn; [done|].
  by rewrite IH.
Qed.

Lemma callOutcomes_lookup env agents queryData index agentIds i agentId :
  agentIds !! i = Some agentId →
  callOutcomes env agents queryData index agentIds !! i
  = Some (callOutcome env agents queryData (index + i) agentId).
Proof.
  revert index i. induction agentIds as [|a l IH]; intros index i; [done|].
  destruct i as [|i]; cbn.
  - intros [= ->]. by rewrite Nat.add_0_r.
  - intros H. etrans; [by apply IH|]. do 2 f_equal. lia.
Qed.

Lemma successfulResults_successesOf agentIds outcomes :
  length outcomes = length agentIds →
  AgentOrchestrator.successfulResults agentIds outcomes = successesOf agentIds outcomes.
Proof.
  unfold successesOf.
  revert outcomes. induction agentIds as [|a l IH]; intros [|[e|v] outcomes] Hlen;
    cbn in *; try done.
  - apply IH. lia.
  - f_equal. apply IH. lia.
Qed.

Lemma successesOf_nil_iff agentIds outcomes :
  length outcomes = length agentIds →
  length (successesOf agentIds outcomes) = 0 ↔ forallb failed outcomes = true.
Proof.
  unfold successesOf.
  revert outcomes. induction agentIds as [|a l IH]; intros [|[e|v] outcomes] Hlen;
    cbn in *; try done.
  apply IH. lia.
Qed.

Lemma executeParallelQueries_run env queryData plan s :
  let agentIds := Plan.agents plan in
  let outcomes := callOutcomes env (State.agents s) queryData 0 agentIds in
  let successes := successesOf agentIds outcomes in
  ∃ pm,
    AgentOrchestrator.executeParallelQueries env queryData plan s =
      if forallb failed outcomes
      then (inl (Error "All agents failed to respond"),
            State.withPerformanceMetrics (fun _ => pm)
              (State.recordAll (dispatched (State.agents s) queryData agentIds) s))
      else (inr (AgentOrchestrator.synthesizeResponses (State.agents s) successes),
            State.withPerformanceMetrics (fun _ => pm)
              (State.recordAll
                 (dispatched (State.agents s) queryData agentIds
                  ++ [Synthesize (map Result.agentId successes)]) s)).
Proof.
  intros agentIds outcomes successes.
  unfold AgentOrchestrator.executeParallelQueries. unfold bind at 1.
  destruct (settleAll_run env 0 queryData (Plan.agents plan) s) as [pm ->].
  exists pm. fold agentIds. fold outcomes.
  pose proof (callOutcomes_length env (State.agents s) queryData 0 agentIds) as Hlen.
  fold outcomes in Hlen.
  rewrite (successfulResults_successesOf agentIds outcomes Hlen). fold successes.
  pose proof (successesOf_nil_iff agentIds outcomes Hlen) as Hnil. fold successes in Hnil.
  destruct (forallb failed outcomes).
  - assert (length successes = 0) as -> by (by apply Hnil). done.
  - destruct (length successes) as [|n] eqn:E;
      [by destruct Hnil as [Hn _]; specialize (Hn eq_refl)|].
    cbn [Nat.eqb]. unfold bind, modify, gets, ret. cbn [State.agents].
    f_equal. unfold State.withPerformanceMetrics, State.recordAll, State.record. cbn.
    by rewrite app_assoc.
Qed.

(** C2: [executeParallelQueries] settles every call of the plan on its own:
    the i-th outcome is that of the i-th call whatever the siblings do, and
    every available agent is called. The run rejects with "All agents failed
    to respond" if and only if every call failed, and then
    [synthesizeResponses] is not invoked; otherwise it returns the synthesis
    of exactly the successful results, the failed agents left out. *)
Theorem executeParallelQueries_spec env queryData plan s :
  let agentIds := Plan.agents plan in
  let outcomes := callOutcomes env (State.agents s) queryData 0 agentIds in
  let successes := successesOf agentIds outcomes in
  let run := AgentOrchestrator.executeParallelQueries env queryData plan s in
  fst (AgentOrchestrator.settleAll env 0 queryData agentIds s) = inr outcomes ∧
  (∀ i agentId,
     agentIds !! i = Some agentId →
     outcomes !! i = Some (callOutcome env (State.agents s) queryData i agentId)) ∧
  (forallb failed outcomes = true ↔
   fst run = inl (Error "All agents failed to respond")) ∧
  (forallb failed outcomes = true →
   State.trace (snd run) = State.trace s ++ dispatched (State.agents s) queryData agentIds ∧
   forallb (fun tr => negb (isSynthesize tr))
     (dispatched (State.agents s) queryData agentIds) = true) ∧
  (forallb failed outcomes = false →
   fst run = inr (AgentOrchestrator.synthesizeResponses (State.agents s) successes) ∧
   State.trace (snd run) =
     State.trace s ++ dispatched (State.agents s) queryData agentIds
       ++ [Synthesize (map Result.agentId successes)]).
Proof.
  intros agentIds outcomes successes run.
  split; [|split].
  { destruct (settleAll_run env 0 queryData agentIds s) as [pm ->]. done. }
  { intros i agentId Hi. by apply (callOutcomes_lookup env _ queryData 0 agentIds). }
  subst run.
  destruct (executeParallelQueries_run env queryData plan s) as [pm ->].
  fold agentIds. fold outcomes. fold successes.
  assert (forallb (fun tr => negb (isSynthesize tr))
            (dispatched (State.agents s) queryData agentIds) = true) as Hcalls.
  { unfold dispatched. destruct queryData; [|done].
    induction (List.filter _ agentIds); [done|]. by cbn. }
  destruct (forallb failed outcomes); cbn [fst snd].
  - split; [done|]. split; [done|]. intros [=].
  - split; [split; [intros [=]|intros [=]]|]. split; [intros [=]|done].
Qed.

Lemma executeParallelQueries_spec_witness :
  let plan :=
    {| Plan.strategy := "specified"; Plan.agents := ["workday"; "policy"];
       Plan.parallel := true; Plan.timeout := 30000 |} in
  let queryData :=
    Some {| ActiveQuery.query := Scenario.query "expense policy" (Some ["workday"; "policy"]);
            ActiveQuery.startTime := 0 |} in
  let env := Simulated.env "query_1" 1000 800 in
  (* workday is offline, policy answers: the failure is left out *)
  (∃ response,
     fst (AgentOrchestrator.executeParallelQueries env queryData plan
            (AgentOrchestrator.initialize Scenario.mixedAgents)) = inr response ∧
     Response.agents response = Some ["policy"]) ∧
  (* both agents offline: aggregate failure, nothing synthesized *)
  fst (AgentOrchestrator.executeParallelQueries env queryData plan
         (AgentOrchestrator.initialize Scenario.fallbackAgents))
    = inl (Error "All agents failed to respond").
Proof.
  intros plan queryData env. split.
  - destruct (executeParallelQueries_spec env queryData plan
                (AgentOrchestrator.initialize Scenario.mixedAgents))
      as (_ & _ & _ & _ & Hsome).
    destruct (Hsome eq_refl) as [Hrun _].
    eexists. split; [exact Hrun|]. vm_compute. reflexivity.
  - destruct (executeParallelQueries_spec env queryData plan
                (AgentOrchestrator.initialize Scenario.fallbackAgents))
      as (_ & _ & Hall & _).
    by apply Hall.
Defined.

(** ** Routing: keyword matching *)

Lemma prefix_spec (sub s : string) :
  String.prefix sub s = true ↔ ∃ post, s = sub +:+ post.
Proof.
  revert s. induction sub as [|c sub IH]; intros s.
  - split; [intros _; by exists s|by destruct s].
  - destruct s as [|d s]; [split; [done|by intros [post [=]]]|].
    cbn [String.prefix]. destruct (Ascii.ascii_dec c d) as [->|Hne].
    + rewrite IH. split.
      * intros [post ->]. by exists post.
      * intros [post [= ->]]. by exists post.
    + split; [done|]. intros [post [= -> _]]. done.
Qed.

Lemma includes_spec (s sub : string) :
  JS.includes s sub = true ↔ ∃ pre post, s = pre +:+ sub +:+ post.
Proof.
  induction s as [|c s IH]; cbn [JS.includes]; rewrite orb_true_iff.
  - rewrite prefix_spec. split.
    + intros [[post ->]|?]; [|done]. by exists "", post.
    + intros ([|? pre] & post & H); [|done]. left. by exists post.
  - rewrite prefix_spec, IH. split.
    + intros [[post ->]|(pre & post & ->)].
      * by exists "", post.
      * by exists (String c pre), post.
    + intros ([|d pre] & post & H).
      * left. by exists post.
      * right. injection H as -> ->. by exists pre, post.
Qed.

Lemma toLowerCase_split (s a b : string) :
  JS.toLowerCase s = a +:+ b →
  ∃ s1 s2, s = s1 +:+ s2 ∧ JS.toLowerCase s1 = a ∧ JS.toLowerCase s2 = b.
Proof.
  revert s. induction a as [|c a IH]; intros s H.
  - by exists "", s.
  - destruct s as [|d s]; [done|]. cbn in H. injection H as Hc Hs.
    destruct (IH s Hs) as (s1 & s2 & -> & H1 & H2).
    exists (String d s1), s2. cbn. by rewrite Hc, H1.
Qed.

Lemma includes_mentions (message keyword : string) :
  JS.includes (JS.toLowerCase message) keyword = true ↔
  SmartRoutingEngine.mentions message keyword.
Proof.
  rewrite includes_spec. unfold SmartRoutingEngine.mentions. split.
  - intros (pre & post & H).
    apply toLowerCase_split in H as (s1 & s23 & -> & _ & H).
    apply toLowerCase_split in H as (s2 & s3 & -> & H2 & _).
    by exists s1, s2, s3.
  - intros (pre & mid & post & -> & <-).
    exists (JS.toLowerCase pre), (JS.toLowerCase post).
    by rewrite !toLowerCase_app.
Qed.

Lemma matchCount_pos (lowerMessage : string) (keywords : list string) :
  0 < SmartRoutingEngine.matchCount lowerMessage keywords ↔
  ∃ keyword, keyword ∈ keywords ∧ JS.includes lowerMessage keyword = true.
Proof.
  unfold SmartRoutingEngine.matchCount.
  induction keywords as [|k keywords IH]; cbn.
  - split; [lia|]. by intros (? & ?%elem_of_nil & _).
  - destruct (JS.includes lowerMessage k) eqn:E; cbn.
    + split; [|lia]. intros _. exists k. split; [by left|done].
    + rewrite IH. split.
      * intros (kw & Hin & Hkw). exists kw. split; [by right|done].
      * intros (kw & [->|Hin]%elem_of_cons & Hkw); [congruence|]. by exists kw.
Qed.

Lemma triggered_matchCount (e : SmartRoutingEngine.t) (message c : string) :
  SmartRoutingEngine.triggered e message c ↔
  ∃ keywords,
    (c, keywords) ∈ SmartRoutingEngine.patterns e ∧
    0 < SmartRoutingEngine.matchCount (JS.toLowerCase message) keywords.
Proof.
  unfold SmartRoutingEngine.triggered. split.
  - intros (keywords & keyword & Hc & Hk & Hm). exists keywords. split; [done|].
    apply matchCount_pos. exists keyword. by rewrite includes_mentions.
  - intros (keywords & Hc & (keyword & Hk & Hm)%matchCount_pos).
    exists keywords, keyword. by rewrite <- includes_mentions.
Qed.

(** ** Routing: the score table *)

Lemma scoresGet_set_eq scores k v :
  SmartRoutingEngine.scoresGet (SmartRoutingEngine.scoresSet scores k v) k = Some v.
Proof.
  induction scores as [|[k' v'] scores IH]; cbn.
  - by rewrite String.eqb_refl.
  - destruct (String.eqb k' k) eqn:E; cbn; by rewrite E.
Qed.

Lemma scoresGet_set_ne scores k v k' :
  k ≠ k' →
  SmartRoutingEngine.scoresGet (SmartRoutingEngine.scoresSet scores k v) k'
  = SmartRoutingEngine.scoresGet scores k'.
Proof.
  intros Hne. induction scores as [|[k0 v0] scores IH]; cbn.
  - by apply String.eqb_neq in Hne as ->.
  - destruct (String.eqb k0 k) eqn:E; cbn; [|by rewrite IH].
    apply String.eqb_eq in E as ->. by apply String.eqb_neq in Hne as ->.
Qed.


Lemma scoresGet_elem scores k v :
  SmartRoutingEngine.scoresGet scores k = Some v → (k, v) ∈ scores.
Proof.
  induction scores as [|[k' v'] scores IH]; cbn; [done|].
  destruct (String.eqb k' k) eqn:E.
  - apply String.eqb_eq in E as ->. intros [= ->]. by left.
  - intros H. right. by apply IH.
Qed.

Lemma elem_scoresGet scores k v :
  NoDup (map fst scores) → (k, v) ∈ scores →
  SmartRoutingEngine.scoresGet scores k = Some v.
Proof.
  induction scores as [|[k' v'] scores IH]; cbn; [by intros _ ?%elem_of_nil|].
  intros [Hk' Hnd]%NoDup_cons [[= -> ->]|Hin]%elem_of_cons.
  - by rewrite String.eqb_refl.
  - destruct (String.eqb k' k) eqn:E; [|by apply IH].
    apply String.eqb_eq in E as ->. exfalso. apply Hk'.
    apply list_elem_of_fmap. by exists (k, v).
Qed.

Lemma scoresSet_keys scores k v :
  map fst (SmartRoutingEngine.scoresSet scores k v) =
    if bool_decide (k ∈ map fst scores) then map fst scores else map fst scores ++ [k].
Proof.
  induction scores as [|[k' v'] scores IH]; cbn.
  - by rewrite bool_decide_eq_false_2 by apply not_elem_of_nil.
  - destruct (String.eqb k' k) eqn:E; cbn.
    + apply String.eqb_eq in E as ->. by rewrite bool_decide_eq_true_2 by left.
    + apply String.eqb_neq in E. rewrite IH.
      destruct (decide (k ∈ map fst scores)) as [Hin|Hout].
      * by rewrite !bool_decide_eq_true_2 by (done || by right).
      * rewrite !bool_decide_eq_false_2; [done| |done].
        rewrite not_elem_of_cons. by split.
Qed.

Lemma scoresSet_NoDup scores k v :
  NoDup (map fst scores) → NoDup (map fst (SmartRoutingEngine.scoresSet scores k v)).
Proof.
  intros Hnd. rewrite scoresSet_keys. case_bool_decide as Hin; [done|].
  apply NoDup_app. split; [done|]. split; [|apply NoDup_singleton].
  intros x Hx ->%list_elem_of_singleton. done.
Qed.

Lemma scoreAgent_NoDup c n exclude scores entry :
  NoDup (map fst scores) →
  NoDup (map fst (SmartRoutingEngine.scoreAgent c n exclude scores entry)).
Proof.
  intros Hnd. destruct entry as [agentId capabilities]. cbn.
  destruct (_ && _); [by apply scoresSet_NoDup|done].
Qed.

Lemma scoreAgents_NoDup c n exclude caps scores :
  NoDup (map fst scores) →
  NoDup (map fst (foldl (SmartRoutingEngine.scoreAgent c n exclude) scores caps)).
Proof.
  revert scores. induction caps as [|entry caps IH]; intros scores Hnd; cbn; [done|].
  by apply IH, scoreAgent_NoDup.
Qed.

Lemma lookupCapabilities_None caps a :
  a ∉ map fst caps → SmartRoutingEngine.lookupCapabilities caps a = None.
Proof.
  unfold SmartRoutingEngine.lookupCapabilities.
  induction caps as [|[k v] caps IH]; cbn; [done|].
  rewrite not_elem_of_cons. intros [Hne Hout].
  apply not_eq_sym, String.eqb_neq in Hne. rewrite Hne. by apply IH.
Qed.

Lemma lookupCapabilities_elem caps a capabilities :
  SmartRoutingEngine.lookupCapabilities caps a = Some capabilities →
  (a, capabilities) ∈ caps.
Proof.
  unfold SmartRoutingEngine.lookupCapabilities.
  induction caps as [|[k v] caps IH]; cbn; [done|].
  destruct (String.eqb k a) eqn:E; cbn.
  - apply String.eqb_eq in E as ->. intros [= ->]. by left.
  - intros H. right. by apply IH.
Qed.

Lemma elem_lookupCapabilities caps a capabilities :
  NoDup (map fst caps) → (a, capabilities) ∈ caps →
  SmartRoutingEngine.lookupCapabilities caps a = Some capabilities.
Proof.
  unfold SmartRoutingEngine.lookupCapabilities.
  induction caps as [|[k v] caps IH]; cbn; [by intros _ ?%elem_of_nil|].
  intros [Hk Hnd]%NoDup_cons [[= -> ->]|Hin]%elem_of_cons.
  - by rewrite String.eqb_refl.
  - destruct (String.eqb k a) eqn:E; [|by apply IH].
    apply String.eqb_eq in E as ->. exfalso. apply Hk.
    apply list_elem_of_fmap. by exists (a, capabilities).
Qed.

(** One pass of the inner loop over the capability table. *)
Lemma scoreAgents_get c n caps scores a :
  NoDup (map fst caps) →
  SmartRoutingEngine.scoresGet
    (foldl (SmartRoutingEngine.scoreAgent c n []) scores caps) a =
    match SmartRoutingEngine.lookupCapabilities caps a with
    | Some capabilities =>
        if JS.arrayIncludes capabilities c
        then Some (default 0 (SmartRoutingEngine.scoresGet scores a) + n)
        else SmartRoutingEngine.scoresGet scores a
    | None => SmartRoutingEngine.scoresGet scores a
    end.
Proof.
  revert scores. induction caps as [|[k v] caps IH]; intros scores Hnd; [done|].
  cbn [map fst] in Hnd. apply NoDup_cons in Hnd as [Hk Hnd].
  cbn [foldl]. rewrite (IH _ Hnd).
  assert (SmartRoutingEngine.scoreAgent c n [] scores (k, v) =
          if JS.arrayIncludes v c
          then SmartRoutingEngine.scoresSet scores k
                 (default 0 (SmartRoutingEngine.scoresGet scores k) + n)
          else scores) as ->.
  { unfold SmartRoutingEngine.scoreAgent.
    change (JS.arrayIncludes [] k) with false. by rewrite andb_true_r. }
  unfold SmartRoutingEngine.lookupCapabilities at 2. cbn [List.find fst].
  destruct (String.eqb k a) eqn:E.
  - apply String.eqb_eq in E as ->. rewrite (lookupCapabilities_None caps a Hk).
    cbn [fmap option_fmap option_map snd].
    destruct (JS.arrayIncludes v c); [|done].
    by rewrite scoresGet_set_eq.
  - apply String.eqb_neq in E.
    fold (SmartRoutingEngine.lookupCapabilities caps a).
    assert (SmartRoutingEngine.scoresGet
              (if JS.arrayIncludes v c
               then SmartRoutingEngine.scoresSet scores k
                      (default 0 (SmartRoutingEngine.scoresGet scores k) + n)
               else scores) a
            = SmartRoutingEngine.scoresGet scores a) as ->; [|done].
    destruct (JS.arrayIncludes v c); [|done]. by apply scoresGet_set_ne.
Qed.

Lemma sum_list_map_ge {A} (f : A → nat) (l : list A) x :
  x ∈ l → f x ≤ sum_list (map f l).
Proof.
  induction l as [|y l IH]; [by intros ?%elem_of_nil|].
  cbn. intros [->|Hx]%elem_of_cons; [lia|]. specialize (IH Hx). lia.
Qed.

Lemma sum_list_map_pos {A} (f : A → nat) (l : list A) :
  0 < sum_list (map f l) → ∃ x, x ∈ l ∧ 0 < f x.
Proof.
  induction l as [|y l IH]; cbn; [lia|].
  intros H. destruct (decide (0 < f y)) as [Hy|Hy].
  - exists y. split; [by left|done].
  - destruct IH as (x & Hx & Hfx); [lia|]. exists x. split; [by right|done].
Qed.

Lemma Sorted_weaken {A} (R1 R2 : A → A → Prop) l :
  (∀ x y, R1 x y → R2 x y) → Sorted R1 l → Sorted R2 l.
Proof.
  intros HR. induction 1 as [|x l Hl IH Hx]; constructor; [done|].
  destruct Hx; constructor. by apply HR.
Qed.

Section Routing.
Variable e : SmartRoutingEngine.t.
Hypothesis caps_NoDup : NoDup (map fst (SmartRoutingEngine.agentCapabilities e)).
Variable message : string.

Lemma scoreCategory_NoDup scores entry :
  NoDup (map fst scores) →
  NoDup (map fst (SmartRoutingEngine.scoreCategory e (JS.toLowerCase message) []
                    scores entry)).
Proof.
  intros Hnd. destruct entry as [c kws]. unfold SmartRoutingEngine.scoreCategory.
  cbv zeta. destruct (0 <? _); [by apply scoreAgents_NoDup|done].
Qed.

Lemma scoreAll_NoDup :
  NoDup (map fst (SmartRoutingEngine.scoreAll e message [])).
Proof.
  unfold SmartRoutingEngine.scoreAll.
  assert (NoDup (map fst (@nil (string * nat)))) as Hnil by constructor.
  revert Hnil. generalize (@nil (string * nat)).
  induction (SmartRoutingEngine.patterns e) as [|entry P IH]; intros acc Hacc; [done|].
  cbn [foldl]. by apply IH, scoreCategory_NoDup.
Qed.

Lemma scoreCategories_get P acc (S0 : string → nat) :
  (∀ a, SmartRoutingEngine.scoresGet acc a = if S0 a =? 0 then None else Some (S0 a)) →
  ∀ a,
    SmartRoutingEngine.scoresGet
      (foldl (SmartRoutingEngine.scoreCategory e (JS.toLowerCase message) []) acc P) a =
    let total :=
      S0 a +
      match SmartRoutingEngine.lookupCapabilities (SmartRoutingEngine.agentCapabilities e) a with
      | Some capabilities =>
          SmartRoutingEngine.hitsIn (JS.toLowerCase message) capabilities P
      | None => 0
      end in
    if total =? 0 then None else Some total.
Proof.
  revert acc S0. induction P as [|[c kws] P IH]; intros acc S0 Hacc a.
  - cbn. rewrite Hacc. unfold SmartRoutingEngine.hitsIn. cbn.
    destruct (SmartRoutingEngine.lookupCapabilities _ a); by rewrite Nat.add_0_r.
  - cbn [foldl].
    set (n := SmartRoutingEngine.matchCount (JS.toLowerCase message) kws).
    set (contribution := fun a =>
           match SmartRoutingEngine.lookupCapabilities
                   (SmartRoutingEngine.agentCapabilities e) a with
           | Some capabilities => if JS.arrayIncludes capabilities c then n else 0
           | None => 0
           end).
    rewrite (IH _ (fun a => S0 a + contribution a)).
    + cbv zeta. subst contribution. cbn beta.
      unfold SmartRoutingEngine.hitsIn. cbn [map sum_list fst snd]. fold n.
      destruct (SmartRoutingEngine.lookupCapabilities _ a) as [capabilities|];
        [|by rewrite !Nat.add_0_r].
      by rewrite Nat.add_assoc.
    + clear a. intros a. unfold SmartRoutingEngine.scoreCategory. cbv zeta. fold n.
      subst contribution. cbn beta.
      destruct (Nat.ltb_spec 0 n) as [Hn|Hn].
      * rewrite (scoreAgents_get c n _ acc a caps_NoDup), Hacc.
        destruct (SmartRoutingEngine.lookupCapabilities _ a) as [capabilities|];
          [|by rewrite Nat.add_0_r].
        destruct (JS.arrayIncludes capabilities c); [|by rewrite Nat.add_0_r].
        destruct (Nat.eqb_spec (S0 a) 0) as [->|Hne]; cbn [default].
        -- destruct (Nat.eqb_spec (0 + n) 0); [lia|done].
        -- destruct (Nat.eqb_spec (S0 a + n) 0); [lia|done].
      * assert (n = 0) as -> by lia. rewrite Hacc.
        destruct (SmartRoutingEngine.lookupCapabilities _ a) as [capabilities|];
          [|by rewrite Nat.add_0_r].
        destruct (JS.arrayIncludes capabilities c); by rewrite Nat.add_0_r.
Qed.

Lemma scoreAll_get a :
  SmartRoutingEngine.scoresGet (SmartRoutingEngine.scoreAll e message []) a =
    if SmartRoutingEngine.hitScore e message a =? 0 then None
    else Some (SmartRoutingEngine.hitScore e message a).
Proof.
  unfold SmartRoutingEngine.scoreAll.
  rewrite (scoreCategories_get _ [] (fun _ => 0)); [|done].
  cbv zeta. by rewrite Nat.add_0_l.
Qed.

Lemma scoreAll_elem a n :
  (a, n) ∈ SmartRoutingEngine.scoreAll e message [] ↔
  n = SmartRoutingEngine.hitScore e message a ∧ 0 < n.
Proof.
  split.
  - intros Hin. apply (elem_scoresGet _ _ _ scoreAll_NoDup) in Hin.
    rewrite scoreAll_get in Hin.
    destruct (Nat.eqb_spec (SmartRoutingEngine.hitScore e message a) 0); [done|].
    injection Hin as <-. split; [done|lia].
  - intros [-> Hpos]. apply scoresGet_elem. rewrite scoreAll_get.
    destruct (Nat.eqb_spec (SmartRoutingEngine.hitScore e message a) 0); [lia|done].
Qed.

Lemma hitScore_pos a :
  0 < SmartRoutingEngine.hitScore e message a ↔
  ∃ c, SmartRoutingEngine.triggered e message c ∧ SmartRoutingEngine.serves e a c.
Proof.
  unfold SmartRoutingEngine.hitScore, SmartRoutingEngine.serves. split.
  - destruct (SmartRoutingEngine.lookupCapabilities _ a) as [capabilities|] eqn:Hl; [|lia].
    intros ([c kws] & Hin & Hpos)%sum_list_map_pos. cbn [fst snd] in Hpos.
    destruct (JS.arrayIncludes capabilities c) eqn:Hc; [|lia].
    exists c. split.
    + apply triggered_matchCount. by exists kws.
    + exists capabilities. split; [by apply lookupCapabilities_elem|].
      by apply arrayIncludes_elem.
  - intros (c & (kws & Hin & Hpos)%triggered_matchCount & capabilities & Ha & Hc).
    rewrite (elem_lookupCapabilities _ _ _ caps_NoDup Ha).
    unfold SmartRoutingEngine.hitsIn.
    eapply Nat.lt_le_trans; [|apply (sum_list_map_ge _ _ (c, kws) Hin)].
    cbn [fst snd]. by rewrite (proj2 (arrayIncludes_elem capabilities c) Hc).
Qed.

Lemma byScoreDesc_total (x y : string * nat) :
  SmartRoutingEngine.byScoreDesc x y = true ∨ SmartRoutingEngine.byScoreDesc y x = true.
Proof.
  unfold SmartRoutingEngine.byScoreDesc. rewrite !Nat.leb_le. lia.
Qed.

Lemma ranked_sorted :
  StronglySorted (fun x y : string * nat => snd y ≤ snd x)
    (JS.sortBy SmartRoutingEngine.byScoreDesc (SmartRoutingEngine.scoreAll e message [])).
Proof.
  apply Sorted.Sorted_StronglySorted; [intros x y z; lia|].
  eapply Sorted_weaken; [|apply (sortBy_sorted _ byScoreDesc_total)].
  intros x y. unfold SmartRoutingEngine.byScoreDesc. by rewrite Nat.leb_le.
Qed.

Lemma ranked_elem a n :
  (a, n) ∈ JS.sortBy SmartRoutingEngine.byScoreDesc (SmartRoutingEngine.scoreAll e message [])
  ↔ n = SmartRoutingEngine.hitScore e message a ∧ 0 < n.
Proof. by rewrite sortBy_perm, scoreAll_elem. Qed.

Lemma ranked_keys_sorted (l : list (string * nat)) :
  (∀ a n, (a, n) ∈ l → n = SmartRoutingEngine.hitScore e message a) →
  StronglySorted (fun x y : string * nat => snd y ≤ snd x) l →
  StronglySorted
    (fun a b => SmartRoutingEngine.hitScore e message b
                ≤ SmartRoutingEngine.hitScore e message a)
    (map fst l).
Proof.
  intros Hl. induction 1 as [|[a n] l Hs IH Hall]; cbn; constructor.
  - apply IH. intros b m Hb. apply Hl. by right.
  - apply Forall_forall. intros b ([b' m] & -> & Hb)%list_elem_of_fmap.
    rewrite Forall_forall in Hall. specialize (Hall (b', m) Hb). cbn in *.
    rewrite <- (Hl a n) by (by left). rewrite <- (Hl b' m) by (by right). done.
Qed.

(** The ranking returned for a message, for any engine whose capability
    table has one entry per agent. *)
Lemma recommendAgents_ranked :
  let result := SmartRoutingEngine.recommendAgents e message [] in
  let score := SmartRoutingEngine.hitScore e message in
  result ≠ [] ∧ length result ≤ 3 ∧
  ((∃ a, 0 < score a) →
   (∀ a, a ∈ result → 0 < score a) ∧
   StronglySorted (fun a b => score b ≤ score a) result ∧
   (∀ a b, a ∈ result → b ∉ result → score b ≤ score a)) ∧
  ((∀ a, score a = 0) → result = ["workday"; "policy"]).
Proof.
  intros result score.
  set (ranked := JS.sortBy SmartRoutingEngine.byScoreDesc
                   (SmartRoutingEngine.scoreAll e message [])).
  assert (result = if length (take 3 (map fst ranked)) =? 0
                   then ["workday"; "policy"] else take 3 (map fst ranked)) as Hres.
  { done. }
  assert (∀ a, a ∈ map fst ranked ↔ 0 < score a) as Hkeys.
  { intros a. rewrite list_elem_of_fmap. split.
    - intros ([a' n] & -> & [-> Hpos]%ranked_elem). done.
    - intros Hpos. exists (a, score a). split; [done|]. by apply ranked_elem. }
  assert (StronglySorted (fun a b => score b ≤ score a) (map fst ranked)) as Hsorted.
  { apply ranked_keys_sorted; [|apply ranked_sorted].
    intros a n Hin. by apply ranked_elem in Hin as [-> _]. }
  rewrite <- (take_drop 3 (map fst ranked)) in Hsorted.
  apply StronglySorted_app in Hsorted as (Hcross & Htake & _).
  split; [|split; [|split]].
  - rewrite Hres. destruct (Nat.eqb_spec (length (take 3 (map fst ranked))) 0) as [E|E];
      [done|]. by destruct (take 3 (map fst ranked)).
  - rewrite Hres. destruct (Nat.eqb_spec (length (take 3 (map fst ranked))) 0) as [E|E];
      [cbn; lia|]. rewrite length_take. apply Nat.le_min_l.
  - intros [a0 Ha0].
    assert (result = take 3 (map fst ranked)) as ->.
    { rewrite Hres.
      destruct (Nat.eqb_spec (length (take 3 (map fst ranked))) 0) as [E|E]; [|done].
      apply Hkeys in Ha0. destruct (map fst ranked); [by apply elem_of_nil in Ha0|done]. }
    split; [|split; [done|]].
    + intros a Ha. apply Hkeys.
      rewrite <- (take_drop 3 (map fst ranked)). apply elem_of_app. by left.
    + intros a b Ha Hb. destruct (decide (b ∈ map fst ranked)) as [Hin|Hout].
      * apply Hcross; [done|].
        rewrite <- (take_drop 3 (map fst ranked)), elem_of_app in Hin.
        by destruct Hin.
      * destruct (decide (0 < score b)) as [Hpos|Hz]; [by apply Hkeys in Hpos|lia].
  - intros Hzero. rewrite Hres.
    assert (map fst ranked = []) as ->; [|done].
    destruct (map fst ranked) as [|a l] eqn:E; [done|].
    assert (0 < score a) as Hpos by (apply Hkeys; by left).
    rewrite Hzero in Hpos. lia.
Qed.

End Routing.

(** ** Routing with the engine's own tables *)

Lemma initialize_NoDup :
  NoDup (map fst (SmartRoutingEngine.agentCapabilities SmartRoutingEngine.initialize)).
Proof. apply (bool_decide_unpack _). by vm_compute. Qed.

Lemma not_serves_initialize a c :
  (∀ capabilities,
     (a, capabilities) ∈ SmartRoutingEngine.loadAgentCapabilities →
     JS.arrayIncludes capabilities c = false) →
  ¬ SmartRoutingEngine.serves SmartRoutingEngine.initialize a c.
Proof.
  intros Hno (capabilities & Hin & Hc). specialize (Hno capabilities Hin).
  apply arrayIncludes_elem in Hc. congruence.
Qed.

(** C3, as stated, fails: a finance keyword yields the default pair, neither
    of which lists "finance"; and a message that triggers two categories
    yields agents that do not all list the first one. *)
Lemma recommendAgents_not_only_category :
  let e := SmartRoutingEngine.initialize in
  (SmartRoutingEngine.triggered e "Show the budget" "finance" ∧
   SmartRoutingEngine.recommendAgents e "Show the budget" [] = ["workday"; "policy"] ∧
   ¬ SmartRoutingEngine.serves e "workday" "finance" ∧
   ¬ SmartRoutingEngine.serves e "policy" "finance") ∧
  (SmartRoutingEngine.triggered e "Vacation policy and compliance" "hr" ∧
   SmartRoutingEngine.recommendAgents e "Vacation policy and compliance" []
     = ["policy"; "workday"] ∧
   ¬ SmartRoutingEngine.serves e "policy" "hr").
Proof.
  assert (∀ a c,
            forallb (fun entry : string * list string =>
                       negb (String.eqb (fst entry) a) || negb (JS.arrayIncludes (snd entry) c))
                    SmartRoutingEngine.loadAgentCapabilities = true →
            ¬ SmartRoutingEngine.serves SmartRoutingEngine.initialize a c) as Hno.
  { intros a c Hall. apply not_serves_initialize. intros capabilities Hin.
    rewrite forallb_forall in Hall. apply list_elem_of_In in Hin.
    specialize (Hall _ Hin). cbn [fst snd] in Hall.
    rewrite String.eqb_refl in Hall. cbn in Hall. by apply negb_true_iff in Hall. }
  intros e. split; [split; [|split; [|split]]|split; [|split]].
  - apply triggered_matchCount. eexists. split; [do 2 right; left|]. vm_compute. lia.
  - by vm_compute.
  - by apply Hno.
  - by apply Hno.
  - apply triggered_matchCount. eexists. split; [left|]. vm_compute. lia.
  - by vm_compute.
  - by apply Hno.
Qed.

Lemma recommendAgents_all_scored e message :
  NoDup (map fst (SmartRoutingEngine.agentCapabilities e)) →
  length (SmartRoutingEngine.scoreAll e message []) ≤ 3 →
  ∀ a, 0 < SmartRoutingEngine.hitScore e message a →
       a ∈ SmartRoutingEngine.recommendAgents e message [].
Proof.
  intros Hnd Hlen a Hpos. unfold SmartRoutingEngine.recommendAgents. cbv zeta.
  set (ranked := JS.sortBy SmartRoutingEngine.byScoreDesc
                   (SmartRoutingEngine.scoreAll e message [])).
  assert (a ∈ map fst ranked) as Hin.
  { apply list_elem_of_fmap. exists (a, SmartRoutingEngine.hitScore e message a).
    split; [done|]. by apply ranked_elem. }
  rewrite take_ge by (rewrite length_map; unfold ranked; rewrite sortBy_length; lia).
  destruct (map fst ranked) as [|b l]; [by apply elem_of_nil in Hin|done].
Qed.

Lemma initialize_scored message a :
  0 < SmartRoutingEngine.hitScore SmartRoutingEngine.initialize message a →
  a ∈ ["workday"; "policy"].
Proof.
  intros Hpos.
  destruct (SmartRoutingEngine.lookupCapabilities
              (SmartRoutingEngine.agentCapabilities SmartRoutingEngine.initialize) a)
    as [capabilities|] eqn:Hl.
  2:{ unfold SmartRoutingEngine.hitScore in Hpos. rewrite Hl in Hpos. lia. }
  apply lookupCapabilities_elem in Hl. cbn in Hl.
  apply elem_of_cons in Hl as [[= -> _]|Hl]; [by left|].
  apply elem_of_cons in Hl as [[= -> _]|Hl]; [by right; left|].
  apply elem_of_cons in Hl as [[= -> _]|Hl]; [by vm_compute in Hpos; lia|].
  apply elem_of_cons in Hl as [[= -> _]|Hl]; [by vm_compute in Hpos; lia|].
  by apply elem_of_nil in Hl.
Qed.

Lemma initialize_scoreAll_length message :
  length (SmartRoutingEngine.scoreAll SmartRoutingEngine.initialize message []) ≤ 2.
Proof.
  rewrite <- (length_map fst).
  change 2 with (length ["workday"; "policy"]).
  apply submseteq_length, NoDup_submseteq.
  - apply scoreAll_NoDup.
  - intros a ([a' n] & -> & Hin)%list_elem_of_fmap.
    apply (scoreAll_elem _ initialize_NoDup) in Hin as [-> Hpos].
    by apply (initialize_scored message).
Qed.

(** C3 (amended): for a message containing a trigger keyword of a category
    C, [recommendAgents] (no exclusions) returns a non-empty list of at most
    three agents that contains every agent listing C. When some agent serves
    a triggered category, every returned agent lists at least one triggered
    category (not necessarily C), the list is in descending order of
    keyword-hit score, and no agent left out scores higher than one returned.
    When no agent serves any triggered category, the default pair workday,
    policy is returned. *)
Theorem recommendAgents_amended (message c : string) :
  let e := SmartRoutingEngine.initialize in
  let result := SmartRoutingEngine.recommendAgents e message [] in
  let score := SmartRoutingEngine.hitScore e message in
  SmartRoutingEngine.triggered e message c →
  result ≠ [] ∧ length result ≤ 3 ∧
  (∀ a, SmartRoutingEngine.serves e a c → a ∈ result) ∧
  ((∃ a c', SmartRoutingEngine.triggered e message c' ∧ SmartRoutingEngine.serves e a c') →
   (∀ a, a ∈ result →
         ∃ c', SmartRoutingEngine.triggered e message c' ∧ SmartRoutingEngine.serves e a c') ∧
   StronglySorted (fun a b => score b ≤ score a) result ∧
   (∀ a b, a ∈ result → b ∉ result → score b ≤ score a)) ∧
  ((∀ a c', SmartRoutingEngine.triggered e message c' → ¬ SmartRoutingEngine.serves e a c') →
   result = ["workday"; "policy"]).
Proof.
  intros e result score Hc.
  destruct (recommendAgents_ranked e initialize_NoDup message)
    as (Hne & Hlen & Hsome & Hnone).
  split; [done|]. split; [done|]. split; [|split].
  - intros a Ha. apply (recommendAgents_all_scored e message initialize_NoDup).
    + etrans; [apply initialize_scoreAll_length|lia].
    + apply (hitScore_pos e initialize_NoDup). by exists c.
  - intros (a & c' & Ht & Hs).
    destruct Hsome as (Hpos & Hsorted & Htop).
    { exists a. apply (hitScore_pos e initialize_NoDup). by exists c'. }
    split; [|by split].
    intros b Hb. apply (hitScore_pos e initialize_NoDup), Hpos, Hb.
  - intros Hnone'. apply Hnone. intros a.
    destruct (Nat.eq_dec (SmartRoutingEngine.hitScore e message a) 0) as [|Hpos]; [done|].
    assert (0 < SmartRoutingEngine.hitScore e message a) as Hlt by lia.
    apply (hitScore_pos e initialize_NoDup) in Hlt as (c' & Ht & Hs).
    by destruct (Hnone' a c' Ht).
Qed.

Lemma recommendAgents_amended_witness :
  let e := SmartRoutingEngine.initialize in
  let message := "How many vacation days do I have?" in
  SmartRoutingEngine.recommendAgents e message [] = ["workday"] ∧
  (∀ a, a ∈ SmartRoutingEngine.recommendAgents e message [] →
        ∃ c', SmartRoutingEngine.triggered e message c' ∧ SmartRoutingEngine.serves e a c').
Proof.
  intros e message.
  assert (SmartRoutingEngine.triggered e message "hr") as Hhr.
  { exists ["vacation"; "pto"; "time off"; "benefits"; "insurance"; "401k";
            "payroll"; "salary"; "leave"; "holiday"; "sick day"], "vacation".
    split; [by left|]. split; [by left|].
    by exists "How many ", "vacation", " days do I have?". }
  split; [by vm_compute|].
  destruct (recommendAgents_amended message "hr" Hhr) as (_ & _ & _ & Hsome & _).
  apply Hsome. exists "workday", "hr". split; [exact Hhr|].
  exists ["hr"; "vacation"; "payroll"; "benefits"]. split; by left.
Defined.

(** ** Routing plans and availability *)

Lemma createRoutingPlan_specified s queryData agentIds :
  Config.enableSmartRouting (State.config s) = true →
  Query.agents queryData = Some agentIds → agentIds ≠ [] →
  let available := List.filter (AgentOrchestrator.isAvailable (State.agents s)) agentIds in
  AgentOrchestrator.createRoutingPlan queryData s =
    if length available =? 0
    then (inl (Error "No available agents for this query"), s)
    else (inr {| Plan.strategy := "specified"; Plan.agents := available;
                 Plan.parallel := 1 <? length available;
                 Plan.timeout := Config.defaultTimeout (State.config s) |}, s).
Proof.
  intros Hsmart Hagents Hne available.
  unfold AgentOrchestrator.createRoutingPlan, bind, gets.
  rewrite Hsmart, Hagents. cbn [negb orb default].
  destruct agentIds as [|a l]; [done|]. cbn [length Nat.eqb].
  unfold id. fold available. by destruct (length available =? 0).
Qed.

(** On the caller-specified path a plan holds online agents only, and no
    plan is made when none of the specified agents is online. *)
Lemma createRoutingPlan_specified_online s queryData agentIds :
  Config.enableSmartRouting (State.config s) = true →
  Query.agents queryData = Some agentIds → agentIds ≠ [] →
  match fst (AgentOrchestrator.createRoutingPlan queryData s) with
  | inr plan =>
      Plan.agents plan ≠ [] ∧
      ∀ a, a ∈ Plan.agents plan →
           ∃ agent, State.agents s !! a = Some agent ∧ Agent.status agent = Online
  | inl err =>
      err = Error "No available agents for this query" ∧
      ∀ a, a ∈ agentIds → AgentOrchestrator.isAvailable (State.agents s) a = false
  end.
Proof.
  intros Hsmart Hagents Hne.
  rewrite (createRoutingPlan_specified s queryData agentIds Hsmart Hagents Hne).
  cbv zeta.
  destruct (List.filter _ agentIds) as [|b l] eqn:E; cbn [length Nat.eqb fst].
  - split; [done|]. intros a Ha.
    destruct (AgentOrchestrator.isAvailable (State.agents s) a) eqn:Hav; [|done].
    assert (a ∈ List.filter (AgentOrchestrator.isAvailable (State.agents s)) agentIds)
      as Hin by (apply list_elem_of_In, filter_In; by rewrite <- list_elem_of_In).
    rewrite E in Hin. by apply elem_of_nil in Hin.
  - split; [done|]. cbn [Plan.agents]. intros a Ha. rewrite <- E in Ha.
    apply list_elem_of_In, filter_In in Ha as [_ Hav].
    unfold AgentOrchestrator.isAvailable in Hav.
    destruct (State.agents s !! a) as [agent|]; [|done].
    exists agent. split; [done|]. by destruct (Agent.status agent).
Qed.

(** On the smart-routing path the plan is the engine's recommendation; the
    agent map, hence the availability of the agents, plays no part. *)
Lemma createRoutingPlan_smart s queryData m :
  Query.message queryData = Some m →
  Query.agents queryData = None ∨ Query.agents queryData = Some [] →
  AgentOrchestrator.createRoutingPlan queryData s =
    (inr {| Plan.strategy := "smart";
            Plan.agents :=
              SmartRoutingEngine.recommendAgents (State.routingEngine s) m [];
            Plan.parallel := true;
            Plan.timeout := Config.defaultTimeout (State.config s) |}, s).
Proof.
  intros Hm Hagents.
  unfold AgentOrchestrator.createRoutingPlan, bind, gets. rewrite Hm.
  destruct Hagents as [-> | ->]; cbn [length Nat.eqb]; by rewrite orb_true_r.
Qed.

(** C1 fails on the smart-routing path: with the agent map of
    [loadFallbackAgents] (both agents offline) a query without an agent list
    gets the plan ["workday"], whose agent is offline; the dispatcher is then
    entered and the query ends with "Agent workday is not available". *)
Theorem createRoutingPlan_smart_offline :
  let s := AgentOrchestrator.initialize Scenario.fallbackAgents in
  let queryData := Scenario.query "How many vacation days do I have?" None in
  Agent.status <$> State.agents s !! "workday" = Some Offline ∧
  fst (AgentOrchestrator.createRoutingPlan queryData s) =
    inr {| Plan.strategy := "smart"; Plan.agents := ["workday"];
           Plan.parallel := true; Plan.timeout := 30000 |} ∧
  State.events
    (AgentOrchestrator.processQuery (Simulated.env "query_1" 1000 800) queryData s) =
    [ResponseReady (Some "widget-1")
       (AgentOrchestrator.errorResponse (Error "Agent workday is not available"))].
Proof. intros s queryData. split; [|split]; by vm_compute. Qed.

(** * Further properties of the orchestration layer *)

(** ** Rules for run specifications *)

Lemma triple_ret {A} (P : State.t → Prop) (x : A) Q E :
  (∀ s, P s → Q x s) → triple P (ret x) Q E.
Proof. intros H s Hs. by apply H. Qed.

Lemma triple_throw {A} (P : State.t → Prop) (e : JsError) (Q : A → State.t → Prop) E :
  (∀ s, P s → E e s) → triple P (throw e) Q E.
Proof. intros H s Hs. by apply H. Qed.

Lemma triple_gets {A} (P : State.t → Prop) (f : State.t → A) Q E :
  (∀ s, P s → Q (f s) s) → triple P (gets f) Q E.
Proof. intros H s Hs. by apply H. Qed.

Lemma triple_modify (P : State.t → Prop) f Q E :
  (∀ s, P s → Q tt (f s)) → triple P (modify f) Q E.
Proof. intros H s Hs. by apply H. Qed.

Lemma triple_bind {A B} (P : State.t → Prop) (m : M A) (k : A → M B) R Q E :
  triple P m R E → (∀ x, triple (R x) (k x) Q E) → triple P (bind m k) Q E.
Proof.
  intros Hm Hk s Hs. unfold bind. specialize (Hm s Hs).
  destruct (m s) as [[e|x] s1]; [done|]. by apply Hk.
Qed.

Lemma triple_conseq {A} (P P' : State.t → Prop) (m : M A) (Q Q' : A → State.t → Prop)
    (E E' : JsError → State.t → Prop) :
  triple P' m Q' E' →
  (∀ s, P s → P' s) → (∀ x s, Q' x s → Q x s) → (∀ e s, E' e s → E e s) →
  triple P m Q E.
Proof.
  intros Hm HP HQ HE s Hs. specialize (Hm s (HP s Hs)).
  destruct (m s) as [[e|x] s1]; auto.
Qed.

Lemma triple_preserves {A} (P : State.t → Prop) (m : M A) :
  preserves P m → triple P m (fun _ => P) (fun _ => P).
Proof.
  intros Hm s Hs. specialize (Hm s Hs). by destruct (m s) as [[e|x] s1].
Qed.

Lemma preserves_bind_result P {A B} (m : M A) (k : A → M B) (R : A → Prop) :
  preserves P m → (∀ s x, fst (m s) = inr x → R x) →
  (∀ x, R x → preserves P (k x)) → preserves P (bind m k).
Proof.
  intros Hm HR Hk s Hs. unfold bind. specialize (Hm s Hs). specialize (HR s).
  destruct (m s) as [[e|x] s1]; cbn in *; [done|]. apply Hk; [by apply HR|done].
Qed.

(** ** What a plan execution returns *)

Lemma synthesizeResponses_no_error agents results :
  Response.error (AgentOrchestrator.synthesizeResponses agents results) = false ∧
  is_Some (Response.confidence (AgentOrchestrator.synthesizeResponses agents results)).
Proof.
  unfold AgentOrchestrator.synthesizeResponses.
  destruct results as [|r [|r' results]]; cbn; eauto.
Qed.

Lemma executeQueryPlan_no_error env queryId plan s response :
  fst (AgentOrchestrator.executeQueryPlan env queryId plan s) = inr response →
  Response.error response = false.
Proof.
  unfold AgentOrchestrator.executeQueryPlan. unfold bind at 1. unfold gets at 1.
  destruct (Plan.parallel plan && (1 <? length (Plan.agents plan))).
  - destruct (executeParallelQueries_run env (State.activeQueries s !! queryId) plan s)
      as [pm ->].
    destruct (forallb failed _); cbn; [done|]. intros [= <-].
    apply synthesizeResponses_no_error.
  - destruct (Plan.agents plan) as [|agentId rest]; [done|].
    unfold bind.
    destruct (executeSingleQuery_run env 0 (State.activeQueries s !! queryId) agentId s)
      as [pm ->].
    destruct (callOutcome _ _ _ _ _) as [err|v]; cbn; [done|]. by intros [= <-].
Qed.

(** ** Invariants of a run, step by step *)

Section RunInvariant.
Variable env : Env.t.
Variable P : State.t → Prop.
Hypothesis inv_register :
  ∀ aq s, P s → P (State.withActiveQueries (insert (Env.queryId env) aq) s).
Hypothesis inv_emit : ∀ ev s, P s → P (State.emit ev s).
Hypothesis inv_synthesize : ∀ ids s, P s → P (State.record (Synthesize ids) s).
Hypothesis inv_single :
  ∀ index queryData agentId,
    preserves P (AgentOrchestrator.executeSingleQuery env index queryData agentId).
Hypothesis inv_total :
  ∀ agentId success,
    preserves P (AgentOrchestrator.updateAgentMetrics agentId
                   (Env.metricsNow env - Env.startTime env) success).
Hypothesis inv_lookup :
  ∀ queryData,
    preserves P (AgentOrchestrator.getCachedResponse (Env.lookupNow env) queryData).
Hypothesis inv_store :
  ∀ queryData response,
    AgentOrchestrator.shouldCacheResponse response = true →
    preserves P (AgentOrchestrator.cacheResponse env queryData response).
Hypothesis inv_log :
  ∀ queryData response duration,
    Response.error response = false →
    preserves P (AgentOrchestrator.logQuery (Env.queryId env) queryData response duration).

Lemma settleAll_invariant index queryData agentIds :
  preserves P (AgentOrchestrator.settleAll env index queryData agentIds).
Proof.
  revert index. induction agentIds as [|agentId rest IH]; intros index; cbn.
  - apply preserves_ret.
  - preserve; [apply inv_single | apply IH].
Qed.

Lemma executeQueryPlan_invariant queryId plan :
  preserves P (AgentOrchestrator.executeQueryPlan env queryId plan).
Proof.
  unfold AgentOrchestrator.executeQueryPlan, AgentOrchestrator.executeParallelQueries.
  preserve; first [apply settleAll_invariant | apply inv_single].
Qed.

Lemma updatePerformanceMetrics_invariant agentIds success :
  preserves P
    (AgentOrchestrator.updatePerformanceMetrics agentIds
       (Env.metricsNow env) (Env.startTime env) success).
Proof.
  unfold AgentOrchestrator.updatePerformanceMetrics. preserve. apply inv_total.
Qed.

Lemma processQueryCatch_invariant queryData err :
  preserves P (AgentOrchestrator.processQueryCatch env queryData err).
Proof.
  unfold AgentOrchestrator.processQueryCatch, AgentOrchestrator.deliverErrorResponse.
  preserve. apply updatePerformanceMetrics_invariant.
Qed.

Lemma processQueryBody_invariant queryData :
  preserves P (AgentOrchestrator.processQueryBody env queryData).
Proof.
  unfold AgentOrchestrator.processQueryBody, AgentOrchestrator.deliverResponse.
  apply preserves_bind; [preserve|intros _].
  apply preserves_bind; [preserve|intros cfg].
  apply preserves_bind; [destruct (Config.enableCaching cfg); preserve; auto|].
  intros [cached|]; [preserve|].
  apply preserves_bind; [preserve|intros _].
  apply preserves_bind; [apply createRoutingPlan_preserves|intros plan].
  apply (preserves_bind_result P _ _ (fun response => Response.error response = false)).
  { apply executeQueryPlan_invariant. }
  { intros s response. apply executeQueryPlan_no_error. }
  intros response Hresponse.
  apply preserves_bind.
  { destruct (Config.enableCaching cfg); cbn; [|preserve].
    destruct (AgentOrchestrator.shouldCacheResponse response) eqn:E; [auto|preserve]. }
  intros _. apply preserves_bind; [preserve|intros _].
  apply preserves_bind; [apply updatePerformanceMetrics_invariant|intros _].
  auto.
Qed.

(** The state of a run before its [finally] block. *)
Lemma processQuery_invariant queryData s :
  P s → ∃ s1,
    P s1 ∧
    AgentOrchestrator.processQuery env queryData s
    = State.withActiveQueries (delete (Env.queryId env)) s1.
Proof.
  intros Hs. unfold AgentOrchestrator.processQuery.
  pose proof (processQueryBody_invariant queryData s Hs) as Hbody.
  destruct (AgentOrchestrator.processQueryBody env queryData s) as [[err|[]] s1];
    cbn in Hbody; [|by exists s1].
  eexists. split; [|reflexivity]. by apply processQueryCatch_invariant.
Qed.

End RunInvariant.

Lemma getCachedResponse_frame (P : State.t → Prop) now queryData :
  (∀ f s, P s → P (State.withResponseCache f s)) →
  preserves P (AgentOrchestrator.getCachedResponse now queryData).
Proof. intros H. unfold AgentOrchestrator.getCachedResponse. preserve. Qed.

Lemma cacheResponse_frame (P : State.t → Prop) env queryData response :
  (∀ f s, P s → P (State.withResponseCache f s)) →
  preserves P (AgentOrchestrator.cacheResponse env queryData response).
Proof.
  intros H. unfold AgentOrchestrator.cacheResponse, AgentOrchestrator.cleanExpiredCache.
  preserve.
Qed.

Lemma logQuery_frame (P : State.t → Prop) queryId queryData response duration :
  (∀ f s, P s → P (State.withQueryHistory f s)) →
  preserves P (AgentOrchestrator.logQuery queryId queryData response duration).
Proof. intros H. unfold AgentOrchestrator.logQuery. preserve. Qed.

Lemma updateAgentMetrics_frame (P : State.t → Prop) agentId responseTime success :
  (∀ f s, P s → P (State.withPerformanceMetrics f s)) →
  preserves P (AgentOrchestrator.updateAgentMetrics agentId responseTime success).
Proof. intros H. by apply updateAgentMetrics_preserves. Qed.

(** ** Only online agents are called *)

(** The calls of a run, checked against the agent map one by one. *)
Lemma processQuery_calls env queryData s :
  let s' := AgentOrchestrator.processQuery env queryData s in
  State.agents s' = State.agents s ∧
  State.config s' = State.config s ∧
  ∃ calls,
    State.trace s' = State.trace s ++ calls ∧
    forallb (callsOnline (State.agents s)) calls = true.
Proof.
  intros s'. subst s'.
  set (P := fun s1 : State.t =>
              State.agents s1 = State.agents s ∧ State.config s1 = State.config s ∧
              ∃ calls, State.trace s1 = State.trace s ++ calls ∧
                       forallb (callsOnline (State.agents s)) calls = true).
  destruct (processQuery_invariant env P) with (queryData := queryData) (s := s)
    as (s1 & (Hagents & Hconfig & calls & Htrace & Hcalls) & ->).
  - by intros aq s1 H.
  - by intros ev s1 H.
  - intros ids s1 (Ha & Hc & calls & Ht & Hcalls). split; [done|]. split; [done|].
    exists (calls ++ [Synthesize ids]). cbn. rewrite Ht, app_assoc. split; [done|].
    by rewrite forallb_app, Hcalls.
  - intros index aq agentId s1 (Ha & Hc & calls & Ht & Hcalls).
    destruct (executeSingleQuery_run env index aq agentId s1) as [pm ->].
    cbn [snd]. split; [done|]. split; [done|].
    exists (calls ++ dispatched (State.agents s1) aq [agentId]).
    cbn. rewrite Ht, app_assoc. split; [done|].
    rewrite forallb_app, Hcalls, dispatched_one, Ha. cbn [andb].
    destruct aq as [q|]; [|done].
    destruct (State.agents s !! agentId) as [agent|] eqn:Hagent; [|done].
    destruct (isOnline (Agent.status agent)) eqn:Hon; [|done].
    cbn. unfold AgentOrchestrator.isAvailable. by rewrite Hagent, Hon.
  - intros agentId success. by apply updateAgentMetrics_frame.
  - intros q. by apply getCachedResponse_frame.
  - intros q r _. by apply cacheResponse_frame.
  - intros q r d _. by apply logQuery_frame.
  - split; [done|]. split; [done|]. exists []. by rewrite app_nil_r.
  - cbn. split; [done|]. split; [done|]. by exists calls.
Qed.

(** X4: whatever the query, a [processQuery] run calls only agents that are
    online in the agent map, and it leaves the agent map and the
    configuration as they are. *)
Theorem processQuery_calls_online_only env queryData s :
  let s' := AgentOrchestrator.processQuery env queryData s in
  State.agents s' = State.agents s ∧
  State.config s' = State.config s ∧
  ∃ calls,
    State.trace s' = State.trace s ++ calls ∧
    ∀ agentId,
      CallAgent agentId ∈ calls →
      ∃ agent, State.agents s !! agentId = Some agent ∧ Agent.status agent = Online.
Proof.
  intros s'.
  destruct (processQuery_calls env queryData s) as (Hagents & Hconfig & calls & Ht & Hcalls).
  split; [done|]. split; [done|]. exists calls. split; [done|].
  intros agentId Hin. rewrite forallb_forall in Hcalls.
  apply list_elem_of_In, Hcalls in Hin. cbn in Hin.
  unfold AgentOrchestrator.isAvailable in Hin.
  destruct (State.agents s !! agentId) as [agent|]; [|done].
  exists agent. split; [done|]. by destruct (Agent.status agent).
Qed.

(** ** Active queries *)

(** X7: when [processQuery] is over its query is no longer registered and
    the other active queries are as before; between runs no query is
    registered at all. *)
Theorem processQuery_clears_active :
  (∀ env queryData s,
     State.activeQueries (AgentOrchestrator.processQuery env queryData s)
     = delete (Env.queryId env) (State.activeQueries s)) ∧
  (∀ s, AgentOrchestrator.reachable s → State.activeQueries s = ∅).
Proof.
  assert (∀ env queryData s,
            State.activeQueries (AgentOrchestrator.processQuery env queryData s)
            = delete (Env.queryId env) (State.activeQueries s)) as Hrun.
  { intros env queryData s.
    set (P := fun s1 : State.t =>
                delete (Env.queryId env) (State.activeQueries s1)
                = delete (Env.queryId env) (State.activeQueries s)).
    destruct (processQuery_invariant env P) with (queryData := queryData) (s := s)
      as (s1 & Hs1 & ->); try done.
    - intros aq s1 H. unfold P. cbn. by rewrite delete_insert_eq.
    - intros index aq agentId.
      apply executeSingleQuery_preserves; by intros ? s1 H.
    - intros agentId success. by apply updateAgentMetrics_frame.
    - intros q. by apply getCachedResponse_frame.
    - intros q r _. by apply cacheResponse_frame.
    - intros q r d _. by apply logQuery_frame. }
  split; [done|].
  induction 1 as [agentMap | env q s _ IH | agentId status patch s _ IH].
  - done.
  - rewrite Hrun, IH. apply delete_empty.
  - unfold AgentOrchestrator.handleAgentStatusChange.
    destruct (State.agents s !! agentId); [|done]. by destruct patch.
Qed.

(** ** Metrics records *)

Lemma updateAgentMetrics_dom agentId responseTime success s :
  dom (State.performanceMetrics
         (snd (AgentOrchestrator.updateAgentMetrics agentId responseTime success s)))
  = dom (State.performanceMetrics s).
Proof.
  unfold AgentOrchestrator.updateAgentMetrics, bind, gets.
  destruct (State.performanceMetrics s !! agentId) as [m|] eqn:Hm; [|done].
  cbn. by apply dom_insert_lookup_L.
Qed.

Lemma executeSingleQuery_invariant (P : State.t → Prop) env index queryData agentId :
  (∀ tr s, P s → P (State.record tr s)) →
  (∀ success,
     preserves P (AgentOrchestrator.updateAgentMetrics agentId
                    (Env.responseTime env index) success)) →
  preserves P (AgentOrchestrator.executeSingleQuery env index queryData agentId).
Proof.
  intros Hrecord Hmetrics. unfold AgentOrchestrator.executeSingleQuery.
  preserve; apply Hmetrics.
Qed.

Lemma updateAgentMetrics_registered agentId responseTime success :
  preserves
    (fun s => dom (State.performanceMetrics s) = dom (State.agents s))
    (AgentOrchestrator.updateAgentMetrics agentId responseTime success).
Proof.
  intros s Hs. rewrite updateAgentMetrics_dom.
  by destruct (updateAgentMetrics_run agentId responseTime success s) as [pm ->].
Qed.

(** X9: in every reachable state the agents that have a metrics record are
    exactly the registered agents: no run and no status change adds or
    drops a record. *)
Theorem reachable_metrics_registered s :
  AgentOrchestrator.reachable s →
  dom (State.performanceMetrics s) = dom (State.agents s).
Proof.
  induction 1 as [agentMap | env q s _ IH | agentId status patch s _ IH].
  - cbn. apply dom_fmap_L.
  - set (P := fun s1 : State.t =>
                dom (State.performanceMetrics s1) = dom (State.agents s1)).
    destruct (processQuery_invariant env P) with (queryData := q) (s := s)
      as (s1 & Hs1 & ->); try done.
    + intros index aq agentId. apply executeSingleQuery_invariant; [done|].
      intros success. apply updateAgentMetrics_registered.
    + intros agentId success. apply updateAgentMetrics_registered.
    + intros q'. by apply getCachedResponse_frame.
    + intros q' r _. by apply cacheResponse_frame.
    + intros q' r d _. by apply logQuery_frame.
  - unfold AgentOrchestrator.handleAgentStatusChange.
    destruct (State.agents s !! agentId) as [agent|] eqn:Hagent; [|done].
    destruct patch as [f|]; cbn.
    + rewrite dom_alter_L, IH. symmetry. by apply dom_insert_lookup_L.
    + rewrite IH. symmetry. by apply dom_insert_lookup_L.
Qed.

Lemma reachable_metrics_registered_witness :
  let s :=
    AgentOrchestrator.processQuery (Simulated.env "query_1" 1000 800)
      (Scenario.query "Vacation policy" None)
      (AgentOrchestrator.initialize Scenario.mixedAgents) in
  dom (State.performanceMetrics s) = dom (State.agents s).
Proof.
  intros s. apply reachable_metrics_registered.
  apply AgentOrchestrator.reachable_query, AgentOrchestrator.reachable_init.
Defined.

Lemma updateMetrics_ok m responseTime success :
  Metrics.successfulQueries m ≤ Metrics.totalQueries m → (0 <= responseTime)%Q →
  metricsOk (AgentOrchestrator.updateMetrics m responseTime success).
Proof.
  intros Hle Hrt. unfold metricsOk, AgentOrchestrator.updateMetrics. cbn.
  assert ((if success then S (Metrics.successfulQueries m)
           else Metrics.successfulQueries m) ≤ S (Metrics.totalQueries m)) as Hle'.
  { destruct success; lia. }
  destruct (errorRate_range (Metrics.totalQueries m) _ Hle') as [H0 H100].
  destruct (reliability_range _ responseTime H0 H100 Hrt) as [Hr0 Hr100].
  done.
Qed.

Lemma updateAgentMetrics_ok agentId responseTime success :
  (0 <= responseTime)%Q →
  preserves (fun s => map_Forall (fun _ => metricsOk) (State.performanceMetrics s))
    (AgentOrchestrator.updateAgentMetrics agentId responseTime success).
Proof.
  intros Hrt s Hs. unfold AgentOrchestrator.updateAgentMetrics, bind, gets.
  destruct (State.performanceMetrics s !! agentId) as [m|] eqn:Hm; [|done].
  cbn. apply map_Forall_insert_2; [|done].
  apply updateMetrics_ok; [|done]. by destruct (Hs agentId m Hm).
Qed.

(** X8: when the measured times of a run are not negative, [processQuery]
    keeps every metrics record consistent: successfulQueries never exceeds
    totalQueries, and error rate and reliability stay between 0 and 100. *)
Theorem processQuery_metrics_consistent env queryData s :
  timesOk env →
  map_Forall (fun _ => metricsOk) (State.performanceMetrics s) →
  map_Forall (fun _ => metricsOk)
    (State.performanceMetrics (AgentOrchestrator.processQuery env queryData s)).
Proof.
  intros [Hcall Htotal] Hs.
  set (P := fun s1 : State.t =>
              map_Forall (fun _ => metricsOk) (State.performanceMetrics s1)).
  destruct (processQuery_invariant env P) with (queryData := queryData) (s := s)
    as (s1 & Hs1 & ->); try done.
  - intros index aq agentId. apply executeSingleQuery_invariant; [done|].
    intros success. by apply updateAgentMetrics_ok.
  - intros agentId success. apply updateAgentMetrics_ok. lra.
  - intros q. by apply getCachedResponse_frame.
  - intros q r _. by apply cacheResponse_frame.
  - intros q r d _. by apply logQuery_frame.
Qed.

Lemma processQuery_metrics_consistent_witness :
  map_Forall (fun _ => metricsOk)
    (State.performanceMetrics
       (AgentOrchestrator.processQuery (Simulated.env "query_1" 1000 800)
          (Scenario.query "Vacation policy" None)
          (AgentOrchestrator.initialize Scenario.onlineAgents))).
Proof.
  apply processQuery_metrics_consistent.
  - split; [intros i|]; by vm_compute.
  - intros agentId m. cbn. rewrite lookup_fmap.
    destruct (Scenario.onlineAgents !! agentId); [|done].
    intros [= <-]. unfold metricsOk. cbn. repeat split; (lia || by vm_compute).
Defined.

(** ** What the query history holds *)

Lemma logQuery_successful queryId queryData response duration :
  Response.error response = false →
  preserves
    (fun s => Forall (fun entry => LogEntry.success entry = true ∧
                                   LogEntry.cached entry = false)
                     (State.queryHistory s))
    (AgentOrchestrator.logQuery queryId queryData response duration).
Proof.
  intros Herr. unfold AgentOrchestrator.logQuery. apply preserves_modify.
  intros s Hs. cbn [State.queryHistory State.withQueryHistory].
  assert (Forall (fun entry => LogEntry.success entry = true ∧
                               LogEntry.cached entry = false)
                 (State.queryHistory s ++
                  [AgentOrchestrator.makeLogEntry queryId queryData response duration]))
    as Hall.
  { apply Forall_app. split; [done|]. constructor; [|constructor].
    cbn. by rewrite Herr. }
  destruct (_ <? _); [|done].
  unfold AgentOrchestrator.shift. destruct (_ ++ _); [done|]. by inv Hall.
Qed.

Lemma reachable_history_successful s :
  AgentOrchestrator.reachable s →
  Forall (fun entry => LogEntry.success entry = true ∧ LogEntry.cached entry = false)
    (State.queryHistory s).
Proof.
  induction 1 as [agentMap | env q s _ IH | agentId status patch s _ IH].
  - constructor.
  - set (P := fun s1 : State.t =>
                Forall (fun entry => LogEntry.success entry = true ∧
                                     LogEntry.cached entry = false)
                       (State.queryHistory s1)).
    destruct (processQuery_invariant env P) with (queryData := q) (s := s)
      as (s1 & Hs1 & ->); try done.
    + intros index aq agentId. apply executeSingleQuery_preserves; by intros ? s1 H.
    + intros agentId success. by apply updateAgentMetrics_frame.
    + intros q'. by apply getCachedResponse_frame.
    + intros q' r _. by apply cacheResponse_frame.
    + intros q' r d Herr. by apply logQuery_successful.
  - unfold AgentOrchestrator.handleAgentStatusChange.
    destruct (State.agents s !! agentId); [|done]. by destruct patch.
Qed.

(** X10: [logQuery] is reached by successful runs only, so in every
    reachable state each history entry has [success = true] and
    [cached = false]; [getPerformanceStats] then reports at most 1000
    queries and a success rate of 0 for an empty history and of 100
    otherwise. *)
Theorem getPerformanceStats_reachable s :
  AgentOrchestrator.reachable s →
  let stats := OrchestratorOps.getPerformanceStats s in
  Forall (fun entry => LogEntry.success entry = true ∧ LogEntry.cached entry = false)
    (State.queryHistory s) ∧
  PerformanceStats.totalQueries stats = length (State.queryHistory s) ∧
  PerformanceStats.totalQueries stats ≤ 1000 ∧
  (State.queryHistory s = [] →
   PerformanceStats.successRate stats = 0%Q ∧
   PerformanceStats.averageResponseTime stats = 0%Q) ∧
  (State.queryHistory s ≠ [] → (PerformanceStats.successRate stats == 100)%Q).
Proof.
  intros Hs stats. pose proof (reachable_history_successful s Hs) as Hall.
  split; [done|]. split; [done|]. split; [by apply reachable_history_bounded|].
  subst stats. unfold OrchestratorOps.getPerformanceStats. cbn.
  split; [by intros ->|].
  intros Hne.
  assert (List.filter LogEntry.success (State.queryHistory s) = State.queryHistory s)
    as ->.
  { clear Hne. induction Hall as [|entry l [Hsucc _] _ IH]; [done|].
    cbn. by rewrite Hsucc, IH. }
  destruct (State.queryHistory s) as [|entry l]; [done|].
  cbn [length Nat.ltb Nat.leb].
  assert (¬ (inject_Z (Z.of_nat (S (length l))) == 0)%Q) as Hn.
  { change 0%Q with (inject_Z 0). rewrite inject_Z_injective. lia. }
  unfold Qdiv. by rewrite (Qmult_inv_r _ Hn).
Qed.

Lemma getPerformanceStats_reachable_witness :
  let s :=
    AgentOrchestrator.processQuery (Simulated.env "query_1" 1000 800)
      (Scenario.query "Vacation policy" None)
      (AgentOrchestrator.initialize Scenario.onlineAgents) in
  State.queryHistory s ≠ [] ∧
  (PerformanceStats.successRate (OrchestratorOps.getPerformanceStats s) == 100)%Q.
Proof.
  intros s.
  assert (State.queryHistory s ≠ []) as Hne by (by vm_compute).
  split; [exact Hne|].
  apply (getPerformanceStats_reachable s); [|exact Hne].
  apply AgentOrchestrator.reachable_query, AgentOrchestrator.reachable_init.
Defined.

(** ** Cache hits *)

Lemma processQuery_hit_run env queryData s key entry :
  AgentOrchestrator.validateQuery queryData = true →
  Config.enableCaching (State.config s) = true →
  AgentOrchestrator.generateCacheKey queryData = inr key →
  State.responseCache s !! key = Some entry →
  AgentOrchestrator.expired (Env.lookupNow env) entry = false →
  AgentOrchestrator.processQuery env queryData s =
    State.withActiveQueries (delete (Env.queryId env))
      (State.emit
         (ResponseReady (Query.widgetId queryData) (CacheEntry.response entry)) s).
Proof.
  intros Hv Hcaching Hkey Hin Hexp.
  unfold AgentOrchestrator.processQuery, AgentOrchestrator.processQueryBody.
  rewrite Hv. cbn [negb]. unfold bind at 1. unfold ret at 1.
  unfold bind at 1. unfold gets at 1. rewrite Hcaching. unfold bind at 1.
  rewrite (getCachedResponse_run _ _ _ _ _ Hkey Hin), Hexp.
  reflexivity.
Qed.

(** X5: a valid query whose key has an unexpired cache entry is answered
    from the cache: the stored response is delivered to the widget of the
    query and nothing else happens, so no agent is called and neither
    metrics, history nor cache change (a hit is not logged). *)
Theorem processQuery_cache_hit env queryData s key entry :
  AgentOrchestrator.validateQuery queryData = true →
  Config.enableCaching (State.config s) = true →
  AgentOrchestrator.generateCacheKey queryData = inr key →
  State.responseCache s !! key = Some entry →
  (Env.lookupNow env - CacheEntry.timestamp entry ≤ AgentOrchestrator.cacheExpiry)%Z →
  AgentOrchestrator.processQuery env queryData s =
    State.withActiveQueries (delete (Env.queryId env))
      (State.emit
         (ResponseReady (Query.widgetId queryData) (CacheEntry.response entry)) s).
Proof.
  intros Hv Hcaching Hkey Hin Hfresh.
  apply (processQuery_hit_run env queryData s key entry); try done.
  unfold AgentOrchestrator.expired. by apply Z.ltb_ge.
Qed.

Lemma processQuery_cache_hit_witness :
  let stored :=
    {| CacheEntry.response :=
         AgentOrchestrator.singleResponse
           {| SingleResult.content := "12 days"; SingleResult.sources := [];
              SingleResult.confidence := 0.95; SingleResult.responseTime := 800 |};
       CacheEntry.timestamp := 1000;
       CacheEntry.queryData := Scenario.query "Vacation days" (Some ["workday"]) |} in
  let s1 :=
    State.withResponseCache (insert "vacation days|workday" stored)
      (AgentOrchestrator.initialize Scenario.onlineAgents) in
  let s2 :=
    AgentOrchestrator.processQuery (Simulated.env "query_2" 200000 700)
      (Scenario.query "  vacation DAYS " (Some ["workday"])) s1 in
  State.trace s2 = State.trace s1 ∧
  State.queryHistory s2 = State.queryHistory s1 ∧
  State.events s2 =
    State.events s1 ++ [ResponseReady (Some "widget-1") (CacheEntry.response stored)].
Proof.
  intros stored s1 s2. subst s2.
  rewrite (processQuery_cache_hit (Simulated.env "query_2" 200000 700)
             (Scenario.query "  vacation DAYS " (Some ["workday"])) s1
             "vacation days|workday" stored); [done|by vm_compute..].
Defined.

(** ** Routing with exclusions *)

Lemma scoreAgent_keys c n exclude caps scores entry :
  entry ∈ caps → scoresOk exclude caps scores →
  scoresOk exclude caps (SmartRoutingEngine.scoreAgent c n exclude scores entry).
Proof.
  intros Hentry [Hnd Hkeys]. destruct entry as [agentId capabilities]. cbn.
  destruct (JS.arrayIncludes capabilities c); cbn [andb]; [|done].
  destruct (JS.arrayIncludes exclude agentId) eqn:Hex; cbn [negb]; [done|].
  split; [by apply scoresSet_NoDup|].
  intros k. rewrite scoresSet_keys. case_bool_decide as Hin; [apply Hkeys|].
  rewrite elem_of_app, list_elem_of_singleton. intros [Hk| ->]; [by apply Hkeys|].
  split.
  - intros Hk%arrayIncludes_elem. congruence.
  - apply list_elem_of_fmap. by exists (agentId, capabilities).
Qed.

Lemma scoreAgents_keys c n exclude caps scores l :
  l ⊆ caps → scoresOk exclude caps scores →
  scoresOk exclude caps (foldl (SmartRoutingEngine.scoreAgent c n exclude) scores l).
Proof.
  revert scores. induction l as [|entry l IH]; intros scores Hl Hok; cbn; [done|].
  apply IH.
  - intros x Hx. apply Hl. by right.
  - apply scoreAgent_keys; [|done]. apply Hl. by left.
Qed.

Lemma scoreAll_keys e message exclude :
  scoresOk exclude (SmartRoutingEngine.agentCapabilities e)
    (SmartRoutingEngine.scoreAll e message exclude).
Proof.
  unfold SmartRoutingEngine.scoreAll.
  assert (scoresOk exclude (SmartRoutingEngine.agentCapabilities e) []) as Hnil.
  { split; [constructor|]. by intros k ?%elem_of_nil. }
  revert Hnil. generalize (@nil (string * nat)).
  induction (SmartRoutingEngine.patterns e) as [|[c kws] P IH]; intros acc Hacc; [done|].
  cbn [foldl]. apply IH. unfold SmartRoutingEngine.scoreCategory.
  destruct (0 <? _); [|done]. by apply scoreAgents_keys.
Qed.

(** What holds of every recommendation, whatever the engine's tables. *)
Lemma recommendAgents_keys e message exclude :
  let result := SmartRoutingEngine.recommendAgents e message exclude in
  NoDup result ∧ length result ≤ 3 ∧
  ∀ a, a ∈ result →
    (a ∉ exclude) ∧
    (a ∈ map fst (SmartRoutingEngine.agentCapabilities e) ∨ a = "workday" ∨ a = "policy").
Proof.
  intros result. subst result. unfold SmartRoutingEngine.recommendAgents. cbv zeta.
  destruct (scoreAll_keys e message exclude) as [Hnd Hkeys].
  set (scores := SmartRoutingEngine.scoreAll e message exclude) in *.
  set (ranked := map fst (JS.sortBy SmartRoutingEngine.byScoreDesc scores)).
  assert (ranked ≡ₚ map fst scores) as Hperm.
  { apply Permutation_map, sortBy_perm. }
  assert (NoDup ranked) as Hranked by (by rewrite Hperm).
  destruct (Nat.eqb_spec (length (take 3 ranked)) 0) as [E|E].
  - cbn [List.filter].
    assert (∀ a, JS.arrayIncludes exclude a = false → a ∉ exclude) as Hout.
    { intros a Hex Hin%arrayIncludes_elem. congruence. }
    destruct (JS.arrayIncludes exclude "workday") eqn:Hw;
      destruct (JS.arrayIncludes exclude "policy") eqn:Hp; cbn [negb];
      (split; [apply (bool_decide_unpack _); by vm_compute|]);
      (split; [cbn; lia|]);
      intros a Ha; repeat (apply elem_of_cons in Ha as [->|Ha]);
      try (by apply elem_of_nil in Ha); (split; [by apply Hout|auto]).
  - split; [|split].
    + rewrite <- (take_drop 3 ranked) in Hranked. by apply NoDup_app in Hranked as [? _].
    + rewrite length_take. lia.
    + intros a Ha. assert (a ∈ ranked) as Hin.
      { rewrite <- (take_drop 3 ranked). apply elem_of_app. by left. }
      rewrite Hperm in Hin. destruct (Hkeys a Hin) as [? ?]. auto.
Qed.

(** X1: whatever the engine's tables, the message and the exclusion list,
    [recommendAgents] (and so [findAlternativeAgents]) returns at most three
    agents, no agent twice and never an excluded one; each is an agent of the
    capability table or one of the two defaults. It returns no agent at all
    only when both defaults are excluded. *)
Theorem recommendAgents_respects_exclusions e message exclude :
  let result := SmartRoutingEngine.findAlternativeAgents e message exclude in
  result = SmartRoutingEngine.recommendAgents e message exclude ∧
  NoDup result ∧ length result ≤ 3 ∧
  (∀ a, a ∈ result →
     (a ∉ exclude) ∧
     (a ∈ map fst (SmartRoutingEngine.agentCapabilities e) ∨ a = "workday" ∨ a = "policy")) ∧
  (result = [] → "workday" ∈ exclude ∧ "policy" ∈ exclude).
Proof.
  intros result. split; [done|].
  destruct (recommendAgents_keys e message exclude) as (Hnd & Hlen & Hkeys).
  split; [done|]. split; [done|]. split; [done|].
  subst result.
  unfold SmartRoutingEngine.findAlternativeAgents, SmartRoutingEngine.recommendAgents.
  cbv zeta.
  destruct (Nat.eqb_spec
              (length (take 3 (map fst (JS.sortBy SmartRoutingEngine.byScoreDesc
                                          (SmartRoutingEngine.scoreAll e message exclude)))))
              0) as [E|E].
  - cbn [List.filter].
    destruct (JS.arrayIncludes exclude "workday") eqn:Hw;
      destruct (JS.arrayIncludes exclude "policy") eqn:Hp; cbn [negb]; try done.
    intros _. split; by apply arrayIncludes_elem.
  - intros Hnil. by rewrite Hnil in E.
Qed.

(** ** Rerouting an active query *)

Lemma rerouteAgents_ok engine query failedAgentId agents :
  OrchestratorOps.rerouteAgents engine query failedAgentId = inr agents →
  agents ≠ [] ∧ failedAgentId ∉ agents.
Proof.
  unfold OrchestratorOps.rerouteAgents.
  destruct (Query.agents query) as [ids|]; [|done].
  cbv zeta.
  set (remaining := List.filter (fun id => negb (String.eqb id failedAgentId)) ids).
  destruct (Nat.ltb_spec 0 (length remaining)) as [Hrem|Hrem].
  - intros [= <-]. split; [intros E; rewrite E in Hrem; cbn in Hrem; lia|].
    intros [_ Hne]%list_elem_of_In%filter_In.
    by rewrite String.eqb_refl in Hne.
  - destruct (Query.message query) as [m|]; [|done].
    destruct (Nat.ltb_spec 0 (length (SmartRoutingEngine.findAlternativeAgents
                                        engine m [failedAgentId]))) as [Halt|Halt];
      [|done].
    intros [= <-]. split; [intros E; rewrite E in Halt; cbn in Halt; lia|].
    intros Hin.
    destruct (recommendAgents_keys engine m [failedAgentId]) as (_ & _ & Hkeys).
    destruct (Hkeys failedAgentId Hin) as [Hout _]. apply Hout. by left.
Qed.

(** X2: [rerouteQuery] touches no other active query. If the query is still
    active afterwards, it is the same query with a new agent list that is not
    empty and does not hold the failed agent, and nothing was delivered.
    Otherwise either the query was not active and nothing changed, or it was
    dropped and exactly one error response was delivered to its widget. *)
Theorem rerouteQuery_outcome queryId failedAgentId s :
  let s' := OrchestratorOps.rerouteQuery queryId failedAgentId s in
  (∀ other, other ≠ queryId →
     State.activeQueries s' !! other = State.activeQueries s !! other) ∧
  match State.activeQueries s' !! queryId with
  | Some query' =>
      ∃ query agents,
        State.activeQueries s !! queryId = Some query ∧
        query' = OrchestratorOps.withAgents query agents ∧
        agents ≠ [] ∧ (failedAgentId ∉ agents) ∧
        State.events s' = State.events s
  | None =>
      s' = s ∨
      ∃ query err,
        State.activeQueries s !! queryId = Some query ∧
        State.events s' =
          State.events s ++
            [ResponseReady (Query.widgetId (ActiveQuery.query query))
               (AgentOrchestrator.errorResponse err)]
  end.
Proof.
  intros s'. subst s'. unfold OrchestratorOps.rerouteQuery.
  destruct (State.activeQueries s !! queryId) as [query|] eqn:Hq.
  2:{ split; [done|]. rewrite Hq. by left. }
  destruct (OrchestratorOps.rerouteAgents _ _ _) as [err|agents] eqn:Hre; cbn.
  - split; [intros other Hne; by rewrite lookup_delete_ne|].
    rewrite lookup_delete_eq. right. by exists query, err.
  - split; [intros other Hne; by rewrite lookup_insert_ne|].
    rewrite lookup_insert_eq. exists query, agents.
    apply rerouteAgents_ok in Hre as [? ?]. done.
Qed.

(** ** Queries none of whose agents is online *)






(** ** One response per run *)

(** The [try] block either returns after one delivery or throws before any. *)
Lemma processQueryBody_events env queryData s :
  triple (fun s0 => State.events s0 = State.events s)
    (AgentOrchestrator.processQueryBody env queryData)
    (fun _ s1 =>
       ∃ response,
         State.events s1 =
           State.events s ++ [ResponseReady (Query.widgetId queryData) response])
    (fun _ s1 => State.events s1 = State.events s).
Proof.
  set (P := fun s0 : State.t => State.events s0 = State.events s).
  assert (∀ f s0, P s0 → P (State.withPerformanceMetrics f s0)) as Hpm by done.
  assert (∀ f s0, P s0 → P (State.withResponseCache f s0)) as Hcache by done.
  unfold AgentOrchestrator.processQueryBody.
  apply (triple_bind P _ _ (fun _ => P)); [apply triple_preserves; by preserve|].
  intros _.
  apply (triple_bind P _ _ (fun _ => P)); [apply triple_preserves; by preserve|].
  intros cfg.
  apply (triple_bind P _ _ (fun _ => P)).
  { apply triple_preserves. destruct (Config.enableCaching cfg); [|by preserve].
    by apply getCachedResponse_frame. }
  assert (Query.widgetId (if Config.enableCaching cfg
                          then AgentOrchestrator.sortedQuery queryData else queryData)
          = Query.widgetId queryData) as Hwid by (by destruct (Config.enableCaching cfg)).
  intros [cached|]; cbv zeta; rewrite Hwid.
  { apply triple_modify. intros s0 Hs0. exists cached. cbn. by rewrite Hs0. }
  apply (triple_bind P _ _ (fun _ => P)); [apply triple_preserves; by preserve|].
  intros _.
  apply (triple_bind P _ _ (fun _ => P));
    [apply triple_preserves, createRoutingPlan_preserves|].
  intros plan.
  apply (triple_bind P _ _ (fun _ => P)).
  { apply triple_preserves, executeQueryPlan_preserves; [done|]. by intros tr s0 H. }
  intros response.
  apply (triple_bind P _ _ (fun _ => P)).
  { apply triple_preserves.
    destruct (Config.enableCaching cfg && AgentOrchestrator.shouldCacheResponse response);
      [by apply cacheResponse_frame|by preserve]. }
  intros _ s0 Hs0. unfold bind at 1.
  unfold AgentOrchestrator.deliverResponse at 1. unfold modify at 1.
  unfold bind at 1.
  destruct (updatePerformanceMetrics_run (Plan.agents plan) (Env.metricsNow env)
              (Env.startTime env) true
              (State.emit (ResponseReady (Query.widgetId queryData) response) s0))
    as [pm ->].
  exists response. cbn. by rewrite Hs0.
Qed.

(** X6: every [processQuery] run, whatever the query and the state, and
    whether it succeeds, hits the cache or fails, delivers exactly one
    response, addressed to the widget of the query. *)
Theorem processQuery_delivers_once env queryData s :
  ∃ response,
    State.events (AgentOrchestrator.processQuery env queryData s) =
      State.events s ++ [ResponseReady (Query.widgetId queryData) response].
Proof.
  unfold AgentOrchestrator.processQuery.
  pose proof (processQueryBody_events env queryData s s eq_refl) as Hbody.
  destruct (AgentOrchestrator.processQueryBody env queryData s) as [[err|[]] s1].
  - cbv zeta.
    set (queryData' :=
           if AgentOrchestrator.validateQuery queryData
              && Config.enableCaching (State.config s)
           then AgentOrchestrator.sortedQuery queryData else queryData).
    destruct (processQueryCatch_run env queryData' err s1) as [pm ->].
    exists (AgentOrchestrator.errorResponse err). cbn. rewrite Hbody.
    subst queryData'. by destruct (_ && _).
  - destruct Hbody as [response Hresponse]. by exists response.
Qed.

(** ** A repeated query is served from the cache *)

Lemma triple_frame {A} (P : State.t → Prop) (m : M A) (E : JsError → State.t → Prop) :
  preserves P m → (∀ e s, P s → E e s) → triple P m (fun _ => P) E.
Proof.
  intros Hm HE s Hs. specialize (Hm s Hs).
  destruct (m s) as [[e|x] s1]; cbn in *; auto.
Qed.

Lemma triple_bind_gets {A B} (P : State.t → Prop) (f : State.t → A) (k : A → M B) Q E :
  (∀ x, triple (fun s => P s ∧ f s = x) (k x) Q E) → triple P (bind (gets f) k) Q E.
Proof. intros Hk s Hs. unfold bind, gets. by apply Hk. Qed.

Lemma generateCacheKey_sortedQuery queryData :
  AgentOrchestrator.generateCacheKey (AgentOrchestrator.sortedQuery queryData)
  = AgentOrchestrator.generateCacheKey queryData.
Proof.
  unfold AgentOrchestrator.generateCacheKey, AgentOrchestrator.sortedQuery.
  cbn [Query.message Query.agents].
  destruct (Query.message queryData) as [m|]; [|done].
  destruct (Query.agents queryData) as [l|]; [|done].
  change (default [] (JS.sort <$> Some l)) with (JS.sort l).
  change (default [] (Some l)) with l.
  by rewrite (sort_perm_eq (JS.sort l) l) by apply sortBy_perm.
Qed.

Lemma processQuery_config env queryData s :
  State.config (AgentOrchestrator.processQuery env queryData s) = State.config s.
Proof.
  apply (processQuery_preserves (fun s0 => State.config s0 = State.config s)); try done.
  - intros now q. by apply getCachedResponse_frame.
  - intros env' q r _. by apply cacheResponse_frame.
  - intros qid q r d. by apply logQuery_frame.
Qed.

(** A run that misses the cache stores what it delivers, if that passes the
    admission test. *)
Lemma processQueryBody_stores env queryData s key :
  Config.enableCaching (State.config s) = true →
  AgentOrchestrator.generateCacheKey queryData = inr key →
  State.responseCache s !! key = None →
  (Env.cleanNow env - Env.storeNow env ≤ AgentOrchestrator.cacheExpiry)%Z →
  triple (fun s0 => s0 = s)
    (AgentOrchestrator.processQueryBody env queryData)
    (fun _ s1 =>
       ∃ response,
         State.events s1 =
           State.events s ++ [ResponseReady (Query.widgetId queryData) response] ∧
         (AgentOrchestrator.shouldCacheResponse response = true →
          ∃ entry,
            State.responseCache s1 !! key = Some entry ∧
            CacheEntry.response entry = response ∧
            CacheEntry.timestamp entry = Env.storeNow env))
    (fun _ s1 => State.events s1 = State.events s).
Proof.
  intros Hcaching Hkey Hmiss Hfresh.
  set (P0 := fun s0 : State.t =>
               State.events s0 = State.events s ∧ State.responseCache s0 !! key = None).
  unfold AgentOrchestrator.processQueryBody.
  apply (triple_bind _ _ _ (fun _ s0 => s0 = s)).
  { apply triple_frame; [by preserve|by intros e s0 ->]. }
  intros _. apply triple_bind_gets. intros cfg.
  destruct (Config.enableCaching cfg) eqn:Hcfg.
  2:{ intros s0 [-> Hc]. congruence. }
  cbn [andb].
  apply (triple_bind _ _ _ (fun c s0 => c = None ∧ P0 s0)).
  { intros s0 [-> _]. unfold AgentOrchestrator.getCachedResponse. rewrite Hkey. cbn.
    unfold bind, gets. by rewrite Hmiss. }
  intros [c|]; [by intros s0 [? _]|].
  apply (triple_bind _ _ _ (fun _ => P0)); [apply triple_modify; by intros s0 [_ ?]|].
  intros _.
  apply (triple_bind _ _ _ (fun _ => P0)).
  { apply triple_frame; [apply createRoutingPlan_preserves|by intros e s0 [? _]]. }
  intros plan.
  apply (triple_bind _ _ _ (fun _ => P0)).
  { apply triple_frame; [|by intros e s0 [? _]].
    apply executeQueryPlan_preserves; [done|]. by intros tr s0 H. }
  intros response.
  apply (triple_bind _ _ _
           (fun _ s0 =>
              State.events s0 = State.events s ∧
              (AgentOrchestrator.shouldCacheResponse response = true →
               ∃ entry,
                 State.responseCache s0 !! key = Some entry ∧
                 CacheEntry.response entry = response ∧
                 CacheEntry.timestamp entry = Env.storeNow env))).
  { intros s0 [He Hm].
    destruct (AgentOrchestrator.shouldCacheResponse response) eqn:Hsc; [|done].
    unfold AgentOrchestrator.cacheResponse, AgentOrchestrator.cleanExpiredCache.
    rewrite generateCacheKey_sortedQuery, Hkey. cbn. split; [done|]. intros _.
    exists {| CacheEntry.response := response;
              CacheEntry.timestamp := Env.storeNow env;
              CacheEntry.queryData := AgentOrchestrator.sortedQuery queryData |}.
    split; [|done].
    apply map_lookup_filter_Some. split; [by rewrite lookup_insert_eq|].
    cbn. unfold AgentOrchestrator.expired. cbn. by apply Z.ltb_ge. }
  intros _ s0 [He Hstore]. unfold bind at 1.
  unfold AgentOrchestrator.deliverResponse at 1. unfold modify at 1.
  unfold bind at 1.
  destruct (updatePerformanceMetrics_run (Plan.agents plan) (Env.metricsNow env)
              (Env.startTime env) true
              (State.emit
                 (ResponseReady
                    (Query.widgetId (AgentOrchestrator.sortedQuery queryData)) response)
                 s0))
    as [pm ->].
  exists response. cbn. by rewrite He.
Qed.

(** X11: with caching on, when a run that found nothing in the cache under
    the key of its query delivers a response that passes the admission test,
    a later valid query with the same key (the same message up to case and
    outer blanks, the same agents in any order), looked up within the TTL of
    the store, is answered with that very response: no agent is called and
    the history is not extended. *)
Theorem processQuery_repeat_from_cache env1 env2 query1 query2 s key widgetId response :
  AgentOrchestrator.validateQuery query2 = true →
  AgentOrchestrator.generateCacheKey query1 = inr key →
  AgentOrchestrator.generateCacheKey query2 = inr key →
  Config.enableCaching (State.config s) = true →
  State.responseCache s !! key = None →
  (Env.cleanNow env1 - Env.storeNow env1 ≤ AgentOrchestrator.cacheExpiry)%Z →
  (Env.lookupNow env2 - Env.storeNow env1 ≤ AgentOrchestrator.cacheExpiry)%Z →
  let s1 := AgentOrchestrator.processQuery env1 query1 s in
  State.events s1 = State.events s ++ [ResponseReady widgetId response] →
  AgentOrchestrator.shouldCacheResponse response = true →
  let s2 := AgentOrchestrator.processQuery env2 query2 s1 in
  State.events s2 = State.events s1 ++ [ResponseReady (Query.widgetId query2) response] ∧
  State.trace s2 = State.trace s1 ∧
  State.queryHistory s2 = State.queryHistory s1.
Proof.
  intros Hv2 Hkey1 Hkey2 Hcaching Hmiss Hfresh1 Hfresh2 s1 Hev Hsc s2.
  assert (∃ entry,
            State.responseCache s1 !! key = Some entry ∧
            CacheEntry.response entry = response ∧
            CacheEntry.timestamp entry = Env.storeNow env1) as (entry & Hin & Hr & Ht).
  { subst s1. unfold AgentOrchestrator.processQuery in *.
    pose proof (processQueryBody_stores env1 query1 s key Hcaching Hkey1 Hmiss Hfresh1
                  s eq_refl) as Hbody.
    destruct (AgentOrchestrator.processQueryBody env1 query1 s) as [[err|[]] sb].
    - exfalso. cbv zeta in Hev.
      set (query1' :=
             if AgentOrchestrator.validateQuery query1
                && Config.enableCaching (State.config s)
             then AgentOrchestrator.sortedQuery query1 else query1) in Hev.
      destruct (processQueryCatch_run env1 query1' err sb) as [pm Hcatch].
      rewrite Hcatch in Hev. cbn in Hev. rewrite Hbody in Hev.
      apply app_inv_head in Hev. injection Hev as _ <-. done.
    - destruct Hbody as (response' & Hev' & Hstore). cbn in Hev.
      rewrite Hev' in Hev. apply app_inv_head in Hev. injection Hev as _ ->.
      by apply Hstore. }
  subst s2.
  rewrite (processQuery_hit_run env2 query2 s1 key entry); try done.
  - cbn. by rewrite Hr.
  - subst s1. by rewrite processQuery_config.
  - unfold AgentOrchestrator.expired. rewrite Ht. by apply Z.ltb_ge.
Qed.

Lemma processQuery_repeat_from_cache_witness :
  let s := AgentOrchestrator.initialize Scenario.onlineAgents in
  let s1 :=
    AgentOrchestrator.processQuery (Simulated.env "query_1" 1000 800)
      (Scenario.query "Vacation days" (Some ["workday"; "policy"])) s in
  let s2 :=
    AgentOrchestrator.processQuery (Simulated.env "query_2" 200000 700)
      (Scenario.query "  vacation DAYS " (Some ["policy"; "workday"])) s1 in
  ∃ response,
    State.events s2 = State.events s1 ++ [ResponseReady (Some "widget-1") response] ∧
    State.trace s2 = State.trace s1 ∧
    State.queryHistory s2 = State.queryHistory s1.
Proof.
  intros s s1 s2. eexists.
  eapply (processQuery_repeat_from_cache (Simulated.env "query_1" 1000 800)
            (Simulated.env "query_2" 200000 700)
            (Scenario.query "Vacation days" (Some ["workday"; "policy"]))
            (Scenario.query "  vacation DAYS " (Some ["policy"; "workday"]))
            s "vacation days|policy,workday").
  - by vm_compute.
  - by vm_compute.
  - by vm_compute.
  - done.
  - done.
  - by vm_compute.
  - by vm_compute.
  - vm_compute. reflexivity.
  - by vm_compute.
Defined.

(** ** What a store leaves in the cache *)

(** X12: after [cacheResponse] the cache holds exactly the entries, among
    the new one and the old ones under other keys, whose age at the sweep
    does not exceed the TTL: every store sweeps the whole cache, and an old
    entry under the same key is replaced. *)
Theorem cacheResponse_sweeps env queryData response s key key' entry' :
  AgentOrchestrator.generateCacheKey queryData = inr key →
  let s' := snd (AgentOrchestrator.cacheResponse env queryData response s) in
  let stored :=
    {| CacheEntry.response := response;
       CacheEntry.timestamp := Env.storeNow env;
       CacheEntry.queryData := queryData |} in
  State.responseCache s' !! key' = Some entry' ↔
    (Env.cleanNow env - CacheEntry.timestamp entry' ≤ AgentOrchestrator.cacheExpiry)%Z ∧
    (key' = key ∧ entry' = stored ∨
     key' ≠ key ∧ State.responseCache s !! key' = Some entry').
Proof.
  intros Hkey s' stored. subst s'.
  unfold AgentOrchestrator.cacheResponse, AgentOrchestrator.cleanExpiredCache.
  rewrite Hkey. cbn. rewrite map_lookup_filter_Some, lookup_insert_Some. cbn.
  unfold AgentOrchestrator.expired. rewrite Z.ltb_ge. fold stored.
  split.
  - intros [[[<- <-]|[Hne Hin]] Hage]; (split; [done|]); [by left|by right].
  - intros [Hage [[-> ->]|[Hne Hin]]]; (split; [|done]); [by left|by right].
Qed.

Lemma cacheResponse_sweeps_witness :
  let old :=
    {| CacheEntry.response := AgentOrchestrator.errorResponse (Error "old");
       CacheEntry.timestamp := 1000;
       CacheEntry.queryData := Scenario.query "Benefits" None |} in
  let s :=
    State.withResponseCache (insert "benefits|" old)
      (AgentOrchestrator.initialize Scenario.onlineAgents) in
  let s' :=
    snd (AgentOrchestrator.cacheResponse (Simulated.env "query_2" 400000 700)
           (Scenario.query "Vacation days" (Some ["workday"]))
           (AgentOrchestrator.errorResponse (Error "new")) s) in
  State.responseCache s' !! "benefits|" = None.
Proof.
  intros old s s'.
  destruct (State.responseCache s' !! "benefits|") as [entry|] eqn:E; [|done].
  apply (cacheResponse_sweeps (Simulated.env "query_2" 400000 700)
           (Scenario.query "Vacation days" (Some ["workday"]))
           (AgentOrchestrator.errorResponse (Error "new")) s
           "vacation days|workday" "benefits|" entry eq_refl) in E
    as [Hage [[Hk _]|[_ Hin]]]; [done|].
  unfold s in Hin. cbn [State.responseCache State.withResponseCache] in Hin.
  apply lookup_insert_Some in Hin as [[_ <-]|[Hne _]]; [|done].
  cbn in Hage. unfold AgentOrchestrator.cacheExpiry in Hage. lia.
Defined.

(** ** The simulated agents always answer *)

Lemma validateQuery_message queryData :
  AgentOrchestrator.validateQuery queryData = true →
  ∃ m, Query.message queryData = Some m.
Proof.
  unfold AgentOrchestrator.validateQuery.
  destruct (Query.message queryData) as [m|]; [by exists m|].
  by rewrite andb_false_r.
Qed.

Lemma callAgent_answers index agent m context :
  ∃ reply, Simulated.callAgent index agent (Some m) context = inr reply.
Proof.
  unfold Simulated.callAgent.
  destruct (String.eqb (Agent.type agent) "hr"); [by eexists|].
  destruct (String.eqb (Agent.type agent) "knowledge"); [by eexists|].
  destruct (String.eqb (Agent.type agent) "finance"); by eexists.
Qed.

Lemma reachable_config s :
  AgentOrchestrator.reachable s → State.config s = AgentOrchestrator.defaultConfig.
Proof.
  induction 1 as [agentMap | env q s _ IH | agentId status patch s _ IH].
  - done.
  - by rewrite processQuery_config.
  - unfold AgentOrchestrator.handleAgentStatusChange.
    destruct (State.agents s !! agentId); [|done]. by destruct patch.
Qed.

Lemma callOutcome_answers env agents aq index agentId m :
  (∀ i a c, ∃ reply, Env.callAgent env i a (Some m) c = inr reply) →
  Query.message (ActiveQuery.query aq) = Some m →
  AgentOrchestrator.isAvailable agents agentId = true →
  failed (callOutcome env agents (Some aq) index agentId) = false.
Proof.
  intros Hans Hm Hav. unfold callOutcome, AgentOrchestrator.isAvailable in *.
  destruct (agents !! agentId) as [agent|]; [|done]. rewrite Hav. cbn [negb].
  rewrite Hm.
  by destruct (Hans index agent (Query.context (ActiveQuery.query aq))) as [reply ->].
Qed.

Lemma executeQueryPlan_answers env queryId plan s aq m :
  (∀ i a c, ∃ reply, Env.callAgent env i a (Some m) c = inr reply) →
  State.activeQueries s !! queryId = Some aq →
  Query.message (ActiveQuery.query aq) = Some m →
  Plan.agents plan ≠ [] →
  (∀ a, a ∈ Plan.agents plan → AgentOrchestrator.isAvailable (State.agents s) a = true) →
  ∃ response s',
    AgentOrchestrator.executeQueryPlan env queryId plan s = (inr response, s') ∧
    Response.error response = false ∧ State.events s' = State.events s.
Proof.
  intros Hans Haq Hm Hne Hall.
  unfold AgentOrchestrator.executeQueryPlan. unfold bind at 1. unfold gets at 1.
  rewrite Haq.
  destruct (Plan.agents plan) as [|a rest] eqn:Hplan; [done|].
  assert (failed (callOutcome env (State.agents s) (Some aq) 0 a) = false) as Hfirst.
  { apply (callOutcome_answers env _ aq 0 a m); [done..|]. apply Hall. by left. }
  destruct (Plan.parallel plan && (1 <? length (a :: rest))).
  - destruct (executeParallelQueries_run env (Some aq) plan s) as [pm ->].
    rewrite Hplan. cbn [callOutcomes forallb]. rewrite Hfirst. cbn [andb].
    eexists _, _. split; [done|]. split; [apply synthesizeResponses_no_error|done].
  - unfold bind. destruct (executeSingleQuery_run env 0 (Some aq) a s) as [pm ->].
    destruct (callOutcome env (State.agents s) (Some aq) 0 a) as [err|v]; [done|].
    by eexists _, _.
Qed.

(** With agents that answer, the [try] block of a valid query naming an
    online agent returns, having delivered a response that is no error. *)
Lemma processQueryBody_answers env queryData s agentIds :
  (∀ i a m c, ∃ reply, Env.callAgent env i a (Some m) c = inr reply) →
  AgentOrchestrator.validateQuery queryData = true →
  Query.agents queryData = Some agentIds →
  (∃ a, a ∈ agentIds ∧ AgentOrchestrator.isAvailable (State.agents s) a = true) →
  Config.enableSmartRouting (State.config s) = true →
  cacheOk (State.responseCache s) →
  triple (fun s0 => s0 = s)
    (AgentOrchestrator.processQueryBody env queryData)
    (fun _ s1 =>
       ∃ response,
         State.events s1 =
           State.events s ++ [ResponseReady (Query.widgetId queryData) response] ∧
         Response.error response = false)
    (fun _ _ => False).
Proof.
  intros Hans Hv Hagents (a & Ha & Hav) Hsmart Hcache.
  destruct (validateQuery_message _ Hv) as [m Hm].
  unfold AgentOrchestrator.processQueryBody. rewrite Hv. cbn [negb].
  apply (triple_bind _ _ _ (fun _ s0 => s0 = s)); [by apply triple_ret|].
  intros _. apply triple_bind_gets. intros cfg.
  set (queryData' :=
         if Config.enableCaching cfg
         then AgentOrchestrator.sortedQuery queryData else queryData).
  set (agentIds' := if Config.enableCaching cfg then JS.sort agentIds else agentIds).
  assert (Query.agents queryData' = Some agentIds') as Hagents'.
  { subst queryData' agentIds'. destruct (Config.enableCaching cfg); [|done].
    cbn. by rewrite Hagents. }
  assert (agentIds' ≡ₚ agentIds) as Hperm.
  { subst agentIds'. destruct (Config.enableCaching cfg); [|done]. apply sortBy_perm. }
  assert (Query.widgetId queryData' = Query.widgetId queryData) as Hwid.
  { subst queryData'. by destruct (Config.enableCaching cfg). }
  assert (Query.message queryData' = Some m) as Hm'.
  { subst queryData'. by destruct (Config.enableCaching cfg). }
  set (P0 := fun s0 : State.t =>
               State.events s0 = State.events s ∧ State.agents s0 = State.agents s ∧
               State.config s0 = State.config s).
  apply (triple_bind _ _ _
           (fun c s0 => P0 s0 ∧ ∀ r, c = Some r → Response.error r = false)).
  { intros s0 [-> Hcfg]. destruct (Config.enableCaching cfg); [|done].
    unfold AgentOrchestrator.getCachedResponse, AgentOrchestrator.generateCacheKey.
    rewrite Hm. cbn [AgentOrchestrator.lift]. unfold bind at 1. unfold ret at 1.
    unfold bind at 1. unfold gets at 1.
    destruct (State.responseCache s !! _) as [entry|] eqn:Hin; [|done].
    destruct (AgentOrchestrator.expired (Env.lookupNow env) entry); cbn.
    - split; [done|]. by intros r [=].
    - split; [done|]. intros r [= <-]. apply (Hcache _ entry Hin). }
  intros [r|]; rewrite ?Hwid.
  { apply triple_modify. intros s0 [(He & _) Hr]. exists r. cbn. rewrite He.
    split; [done|]. by apply Hr. }
  set (aq := {| ActiveQuery.query := queryData';
                ActiveQuery.startTime := Env.startTime env |}).
  apply (triple_bind _ _ _
           (fun _ s0 => P0 s0 ∧ State.activeQueries s0 !! Env.queryId env = Some aq)).
  { apply triple_modify. intros s0 [HP0 _]. split; [done|]. cbn. apply lookup_insert_eq. }
  intros _.
  apply (triple_bind _ _ _
           (fun plan s0 =>
              (P0 s0 ∧ State.activeQueries s0 !! Env.queryId env = Some aq) ∧
              Plan.agents plan ≠ [] ∧
              ∀ b, b ∈ Plan.agents plan →
                   AgentOrchestrator.isAvailable (State.agents s) b = true)).
  { intros s0 [(He & Hag & Hc) Haq].
    rewrite (createRoutingPlan_specified s0 queryData' agentIds'); [|congruence|done|].
    2:{ intros E. rewrite E in Hperm. apply Permutation_length in Hperm.
        destruct agentIds; [by apply elem_of_nil in Ha|done]. }
    cbv zeta. rewrite Hag.
    assert (a ∈ List.filter (AgentOrchestrator.isAvailable (State.agents s)) agentIds')
      as Hin.
    { apply list_elem_of_In, filter_In. rewrite <- list_elem_of_In, Hperm. done. }
    destruct (List.filter _ agentIds') as [|b l] eqn:E; [by apply elem_of_nil in Hin|].
    cbn [length Nat.eqb Plan.agents]. split; [done|]. split; [done|].
    intros b0 Hb0. rewrite <- E in Hb0.
    by apply list_elem_of_In, filter_In in Hb0 as [_ ?]. }
  intros plan.
  apply (triple_bind _ _ _
           (fun response s0 =>
              State.events s0 = State.events s ∧ Response.error response = false)).
  { intros s0 [[(He & Hag & Hc) Haq] [Hne Hall]].
    rewrite <- Hag in Hall.
    destruct (executeQueryPlan_answers env (Env.queryId env) plan s0 aq m
                (fun i b c => Hans i b m c) Haq Hm' Hne Hall)
      as (response & s1 & -> & Herr & Hev).
    split; [congruence|done]. }
  intros response.
  apply (triple_bind _ _ _
           (fun _ s0 =>
              State.events s0 = State.events s ∧ Response.error response = false)).
  { intros s0 [He Herr].
    destruct (Config.enableCaching cfg && AgentOrchestrator.shouldCacheResponse response);
      [|done].
    unfold AgentOrchestrator.cacheResponse, AgentOrchestrator.cleanExpiredCache,
      AgentOrchestrator.generateCacheKey.
    rewrite Hm'. by cbn. }
  intros _ s0 [He Herr]. unfold bind at 1.
  unfold AgentOrchestrator.deliverResponse at 1. unfold modify at 1.
  unfold bind at 1.
  destruct (updatePerformanceMetrics_run (Plan.agents plan) (Env.metricsNow env)
              (Env.startTime env) true
              (State.emit (ResponseReady (Query.widgetId queryData) response) s0))
    as [pm ->].
  exists response. cbn. by rewrite He.
Qed.

(** X16: the simulated agents answer every call that carries a message, and
    so, in any state the orchestrator can reach, a valid query that names at
    least one online agent is always answered: one response is delivered to
    its widget and it is not an error response. *)
Theorem processQuery_simulated_answers env queryData s agentIds :
  Env.callAgent env = Simulated.callAgent →
  AgentOrchestrator.reachable s →
  AgentOrchestrator.validateQuery queryData = true →
  Query.agents queryData = Some agentIds →
  (∃ a, a ∈ agentIds ∧ AgentOrchestrator.isAvailable (State.agents s) a = true) →
  ∃ response,
    State.events (AgentOrchestrator.processQuery env queryData s) =
      State.events s ++ [ResponseReady (Query.widgetId queryData) response] ∧
    Response.error response = false.
Proof.
  intros Hsim Hs Hv Hagents Hon.
  pose proof (processQueryBody_answers env queryData s agentIds) as Hbody.
  specialize (Hbody ltac:(intros i a m c; rewrite Hsim; apply callAgent_answers)
                Hv Hagents Hon).
  specialize (Hbody ltac:(by rewrite (reachable_config s Hs))
                (reachable_cacheOk s Hs) s eq_refl).
  unfold AgentOrchestrator.processQuery.
  destruct (AgentOrchestrator.processQueryBody env queryData s) as [[err|[]] s1];
    [done|].
  destruct Hbody as (response & Hev & Herr). by exists response.
Qed.

Lemma processQuery_simulated_answers_witness :
  ∃ response,
    State.events
      (AgentOrchestrator.processQuery (Simulated.env "query_1" 1000 800)
         (Scenario.query "What is the expense policy?" (Some ["workday"; "policy"]))
         (AgentOrchestrator.initialize Scenario.mixedAgents))
    = [ResponseReady (Some "widget-1") response] ∧
    Response.error response = false.
Proof.
  apply (processQuery_simulated_answers (Simulated.env "query_1" 1000 800)
           (Scenario.query "What is the expense policy?" (Some ["workday"; "policy"]))
           (AgentOrchestrator.initialize Scenario.mixedAgents) ["workday"; "policy"]).
  - done.
  - apply AgentOrchestrator.reachable_init.
  - by vm_compute.
  - done.
  - exists "policy". split; [|by vm_compute]. right. by left.
Defined.

(** ** Routing plans are never empty *)

Lemma recommendAgents_nonempty e message :
  SmartRoutingEngine.recommendAgents e message [] ≠ [].
Proof.
  unfold SmartRoutingEngine.recommendAgents. cbv zeta.
  destruct (Nat.eqb_spec
              (length (take 3 (map fst (JS.sortBy SmartRoutingEngine.byScoreDesc
                                          (SmartRoutingEngine.scoreAll e message [])))))
              0) as [E|E]; [done|].
  intros Hnil. by rewrite Hnil in E.
Qed.

(** X14: whenever [createRoutingPlan] returns a plan, the plan names at
    least one agent and the orchestrator state is untouched. A smart plan is
    parallel and names at most three distinct agents; a specified plan names
    only agents that are online, and is parallel exactly when it names more
    than one. *)
Theorem createRoutingPlan_nonempty queryData s plan s' :
  AgentOrchestrator.createRoutingPlan queryData s = (inr plan, s') →
  s' = s ∧ Plan.agents plan ≠ [] ∧
  (Plan.strategy plan = "smart" ∧ Plan.parallel plan = true ∧
   length (Plan.agents plan) ≤ 3 ∧ NoDup (Plan.agents plan)
   ∨
   Plan.strategy plan = "specified" ∧
   Plan.parallel plan = (1 <? length (Plan.agents plan)) ∧
   ∀ a, a ∈ Plan.agents plan → AgentOrchestrator.isAvailable (State.agents s) a = true).
Proof.
  unfold AgentOrchestrator.createRoutingPlan, bind, gets.
  destruct (negb _ || _).
  - destruct (Query.message queryData) as [m|]; [|done].
    intros [= <- <-]. split; [done|]. cbn. split; [apply recommendAgents_nonempty|].
    left. destruct (recommendAgents_keys (State.routingEngine s) m []) as (? & ? & _).
    done.
  - set (available := List.filter _ _).
    destruct (Nat.eqb_spec (length available) 0) as [E|E]; [done|].
    intros [= <- <-]. split; [done|]. cbn. split; [intros Hnil; by rewrite Hnil in E|].
    right. split; [done|]. split; [done|].
    intros a Ha. by apply list_elem_of_In, filter_In in Ha as [_ ?].
Qed.

Lemma createRoutingPlan_nonempty_witness :
  ∃ plan,
    fst (AgentOrchestrator.createRoutingPlan
           (Scenario.query "What is the expense policy?" (Some ["workday"; "policy"]))
           (AgentOrchestrator.initialize Scenario.mixedAgents)) = inr plan ∧
    Plan.agents plan ≠ [].
Proof.
  destruct (AgentOrchestrator.createRoutingPlan
              (Scenario.query "What is the expense policy?" (Some ["workday"; "policy"]))
              (AgentOrchestrator.initialize Scenario.mixedAgents))
    as [[err|plan] s'] eqn:E; [by vm_compute in E|].
  exists plan. split; [done|].
  by destruct (createRoutingPlan_nonempty _ _ _ _ E) as (_ & ? & _).
Defined.

(** ** Performance tracking of the canvas *)

Lemma sliceLast_snoc {A} (l : list A) (x : A) :
  OrchestratorOps.sliceLast 100 (l ++ [x]) =
    let pushed := OrchestratorOps.sliceLast 100 l ++ [x] in
    if 100 <? length pushed then tail pushed else pushed.
Proof.
  unfold OrchestratorOps.sliceLast. cbv zeta.
  rewrite !length_app, length_drop. cbn [length].
  destruct (Nat.ltb_spec 100 (length l - (length l - 100) + 1)) as [E|E].
  - assert (length l + 1 - 100 = length l - 100 + 1) as -> by lia.
    rewrite drop_app_le by lia.
    rewrite <- (drop_drop l 1 (length l - 100)).
    generalize (drop (length l - 100) l) (length_drop l (length l - 100)).
    intros [|y d] Hd; [cbn in Hd; lia|]. cbn. by rewrite drop_0.
  - assert (length l + 1 - 100 = 0) as -> by lia.
    assert (length l - 100 = 0) as -> by lia. by rewrite !drop_0.
Qed.

Lemma samplesOf_snoc metric samples sample :
  AICanvas.samplesOf metric (samples ++ [sample]) =
    AICanvas.samplesOf metric samples ++
      (if String.eqb (sample.1.1) metric
       then [{| AICanvas.value := sample.1.2; AICanvas.timestamp := sample.2 |}]
       else []).
Proof.
  unfold AICanvas.samplesOf. rewrite omap_app. cbn.
  by destruct (String.eqb (sample.1.1) metric).
Qed.

Lemma initialMetrics_default metric :
  default [] (AICanvas.initialMetrics !! metric) = [].
Proof.
  unfold AICanvas.initialMetrics.
  destruct (decide (metric = "memoryUsage")) as [->|H1]; [done|].
  rewrite lookup_insert_ne by done.
  destruct (decide (metric = "agentResponseTime")) as [->|H2]; [done|].
  rewrite lookup_insert_ne by done.
  destruct (decide (metric = "widgetRenderTime")) as [->|H3]; [done|].
  by rewrite lookup_insert_ne by done.
Qed.

(** X17: a sequence of [trackPerformanceMetric] calls on a new canvas, none
    of them for a metric named like a property of [Object.prototype], never
    throws, and afterwards each metric holds exactly the last 100 of its
    measurements, oldest first (all of them while there are at most 100); a
    metric never tracked is as the constructor left it. *)
Theorem trackPerformanceMetric_window samples :
  Forall (fun sample : string * Q * Z =>
            JS.arrayIncludes AICanvas.inheritedKeys (sample.1.1) = false) samples →
  ∃ pm,
    AICanvas.trackAll samples = inr pm ∧
    ∀ metric,
      let measured := AICanvas.samplesOf metric samples in
      pm !! metric =
        (if bool_decide (measured = [])
         then AICanvas.initialMetrics !! metric
         else Some (OrchestratorOps.sliceLast 100 measured)) ∧
      ∀ l, pm !! metric = Some l → length l ≤ 100.
Proof.
  intros Hnames.
  assert (∃ pm,
            AICanvas.trackAll samples = inr pm ∧
            ∀ metric,
              pm !! metric =
                if bool_decide (AICanvas.samplesOf metric samples = [])
                then AICanvas.initialMetrics !! metric
                else Some (OrchestratorOps.sliceLast 100
                             (AICanvas.samplesOf metric samples)))
    as (pm & Hrun & Hwindow).
  { induction samples as [|[[k v] now] samples IH] using rev_ind.
    { exists AICanvas.initialMetrics. by split. }
    apply Forall_app in Hnames as [Hnames Hk]. rewrite Forall_singleton in Hk.
    destruct (IH Hnames) as (pm & Hrun & Hwindow). cbn [fst snd] in Hk.
    unfold AICanvas.trackAll in *. rewrite foldl_app, Hrun. cbn [foldl fst snd].
    set (m := {| AICanvas.value := v; AICanvas.timestamp := now |}).
    set (pushed := OrchestratorOps.sliceLast 100 (AICanvas.samplesOf k samples) ++ [m]).
    exists (<[k := if 100 <? length pushed then tail pushed else pushed]> pm).
    assert (default [] (pm !! k)
            = OrchestratorOps.sliceLast 100 (AICanvas.samplesOf k samples)) as Hcur.
    { rewrite Hwindow. case_bool_decide as Hnone; [|done].
      rewrite Hnone. apply initialMetrics_default. }
    split.
    - unfold AICanvas.trackPerformanceMetric. subst pushed. revert Hcur.
      destruct (pm !! k) as [current|]; cbn [default]; intros <-; [done|].
      by rewrite Hk.
    - intros metric. rewrite samplesOf_snoc. cbn [fst snd].
      destruct (String.eqb_spec k metric) as [->|Hne].
      + rewrite lookup_insert_eq, sliceLast_snoc.
        rewrite bool_decide_eq_false_2; [done|].
        intros Hnil. by apply app_nil in Hnil as [_ ?].
      + rewrite lookup_insert_ne by done. rewrite app_nil_r. apply Hwindow. }
  exists pm. split; [done|]. intros metric measured. subst measured.
  split; [apply Hwindow|]. intros l. rewrite Hwindow. case_bool_decide.
  - unfold AICanvas.initialMetrics. intros Hl.
    repeat (apply lookup_insert_Some in Hl as [[_ <-]|[_ Hl]]; [cbn; lia|]).
    done.
  - intros [= <-]. unfold OrchestratorOps.sliceLast. rewrite length_drop. lia.
Qed.

Lemma trackPerformanceMetric_window_witness :
  ∃ pm,
    AICanvas.trackAll
      [("memoryUsage", 512%Q, 10%Z); ("widgetRenderTime", 16%Q, 20%Z);
       ("memoryUsage", 640%Q, 30%Z)] = inr pm ∧
    pm !! "memoryUsage" =
      Some [{| AICanvas.value := 512; AICanvas.timestamp := 10 |};
            {| AICanvas.value := 640; AICanvas.timestamp := 30 |}].
Proof.
  destruct (trackPerformanceMetric_window
              [("memoryUsage", 512%Q, 10%Z); ("widgetRenderTime", 16%Q, 20%Z);
               ("memoryUsage", 640%Q, 30%Z)]) as (pm & Hrun & Hwindow).
  - repeat constructor.
  - exists pm. split; [exact Hrun|]. by destruct (Hwindow "memoryUsage") as [-> _].
Defined.

Lemma foldl_Qmin_lb (a : Q) (l : list Q) :
  (foldl Qmin a l <= a)%Q ∧ ∀ x, x ∈ l → (foldl Qmin a l <= x)%Q.
Proof.
  revert a. induction l as [|y l IH]; intros a; cbn [foldl].
  - split; [apply Qle_refl|]. by intros x ?%elem_of_nil.
  - destruct (IH (Qmin a y)) as [Hhead Htail]. split.
    + eapply Qle_trans; [exact Hhead|apply Q.le_min_l].
    + intros x [->|Hx]%elem_of_cons; [|by apply Htail].
      eapply Qle_trans; [exact Hhead|apply Q.le_min_r].
Qed.

Lemma foldl_Qmax_ub (a : Q) (l : list Q) :
  (a <= foldl Qmax a l)%Q ∧ ∀ x, x ∈ l → (x <= foldl Qmax a l)%Q.
Proof.
  revert a. induction l as [|y l IH]; intros a; cbn [foldl].
  - split; [apply Qle_refl|]. by intros x ?%elem_of_nil.
  - destruct (IH (Qmax a y)) as [Hhead Htail]. split.
    + eapply Qle_trans; [apply Q.le_max_l|exact Hhead].
    + intros x [->|Hx]%elem_of_cons; [|by apply Htail].
      eapply Qle_trans; [apply Q.le_max_r|exact Hhead].
Qed.

(** [Math.min] and [Math.max] return one of their arguments. *)
Lemma foldl_Qmin_elem (a : Q) (l : list Q) : foldl Qmin a l ∈ a :: l.
Proof.
  revert a. induction l as [|y l IH]; intros a; cbn [foldl]; [by left|].
  specialize (IH (Qmin a y)). apply elem_of_cons in IH as [->|IH].
  - unfold Qmin, GenericMinMax.gmin. destruct (a ?= y)%Q; [by left|by left|].
    right. by left.
  - right. by right.
Qed.

Lemma foldl_Qmax_elem (a : Q) (l : list Q) : foldl Qmax a l ∈ a :: l.
Proof.
  revert a. induction l as [|y l IH]; intros a; cbn [foldl]; [by left|].
  specialize (IH (Qmax a y)). apply elem_of_cons in IH as [->|IH].
  - unfold Qmax, GenericMinMax.gmax. destruct (a ?= y)%Q; [by left| |by left].
    right. by left.
  - right. by right.
Qed.

Lemma last_elem {A} (l : list A) (d : A) : l ≠ [] → List.last l d ∈ l.
Proof.
  induction l as [|x [|y l] IH]; intros Hne; [done|by left|].
  right. by apply IH.
Qed.

(** X18: whatever the rounding of sums and quotients, [getPerformanceStats]
    reports a metric exactly when it has at least one measurement. For a
    reported metric the count is the number of measurements, the minimum and
    the maximum are measured values, every measured value lies between
    them, and the latest value is that of the last measurement. (Nothing of
    the kind holds of the average, which is rounded.) *)
Theorem getPerformanceStats_bounds (round : Q → Q)
    (pm : gmap string (list AICanvas.Measurement)) metric :
  match AICanvas.getPerformanceStats round pm !! metric with
  | Some stats =>
      ∃ l, pm !! metric = Some l ∧ l ≠ [] ∧
           AICanvas.count stats = length l ∧
           (∀ m, m ∈ l → (AICanvas.min stats <= AICanvas.value m)%Q ∧
                         (AICanvas.value m <= AICanvas.max stats)%Q) ∧
           AICanvas.min stats ∈ map AICanvas.value l ∧
           AICanvas.max stats ∈ map AICanvas.value l ∧
           (∃ older m, l = older ++ [m] ∧ AICanvas.latest stats = AICanvas.value m) ∧
           (AICanvas.min stats <= AICanvas.latest stats)%Q ∧
           (AICanvas.latest stats <= AICanvas.max stats)%Q
  | None => pm !! metric = None ∨ pm !! metric = Some []
  end.
Proof.
  unfold AICanvas.getPerformanceStats. rewrite lookup_omap.
  destruct (pm !! metric) as [l|]; cbn [mbind option_bind]; [|by left].
  destruct (map AICanvas.value l) as [|first rest] eqn:Hvalues.
  { right. by destruct l. }
  cbn [AICanvas.statsOf]. exists l. split; [done|]. split; [by destruct l|].
  cbn [AICanvas.count AICanvas.min AICanvas.max AICanvas.latest].
  destruct (foldl_Qmin_lb first rest) as [Hmin0 Hmin].
  destruct (foldl_Qmax_ub first rest) as [Hmax0 Hmax].
  assert (∀ x, x ∈ first :: rest →
               (foldl Qmin first rest <= x)%Q ∧ (x <= foldl Qmax first rest)%Q) as Hall.
  { intros x [->|Hx]%elem_of_cons; [done|]. split; [by apply Hmin|by apply Hmax]. }
  split; [by rewrite <- Hvalues, length_map|].
  split.
  { intros m Hm. apply Hall. rewrite <- Hvalues. apply list_elem_of_fmap. by exists m. }
  split; [rewrite Hvalues; apply foldl_Qmin_elem|].
  split; [rewrite Hvalues; apply foldl_Qmax_elem|].
  assert (List.last (first :: rest) first ∈ first :: rest) as Hlast
    by (by apply last_elem).
  split; [|split; by apply Hall].
  assert (l ≠ []) as Hne by (by destruct l).
  destruct (exists_last Hne) as (older & m & Hl). exists older, m. split; [done|].
  rewrite <- Hvalues, Hl, map_app. cbn [map]. apply last_last.
Qed.

(** ** Status changes take effect *)

(** X19: once [handleAgentStatusChange] has given an agent a status other
    than online, no later [processQuery] run calls that agent, whatever the
    query and however its plan is made; the other agents keep their status. *)
Theorem handleAgentStatusChange_takes_effect agentId status patch env queryData s :
  AgentOrchestrator.reachable s →
  status ≠ Online →
  let s1 := AgentOrchestrator.handleAgentStatusChange agentId status patch s in
  let s2 := AgentOrchestrator.processQuery env queryData s1 in
  (∀ other, other ≠ agentId → State.agents s1 !! other = State.agents s !! other) ∧
  ∃ calls,
    State.trace s2 = State.trace s ++ calls ∧ CallAgent agentId ∉ calls.
Proof.
  intros _ Hstatus s1 s2.
  assert (State.trace s1 = State.trace s ∧
          (∀ other, other ≠ agentId →
                    State.agents s1 !! other = State.agents s !! other) ∧
          ∀ agent, State.agents s1 !! agentId = Some agent → Agent.status agent = status)
    as (Htrace & Hothers & Hagent).
  { subst s1. unfold AgentOrchestrator.handleAgentStatusChange.
    destruct (State.agents s !! agentId) as [agent|] eqn:Hin.
    - destruct patch; cbn; (split; [done|]);
        (split; [intros other Hne; by rewrite lookup_insert_ne|]);
        intros agent'; rewrite lookup_insert_eq; by intros [= <-].
    - split; [done|]. split; [done|]. intros agent'. by rewrite Hin. }
  split; [done|].
  destruct (processQuery_calls env queryData s1) as (_ & _ & calls & Hcalls & Honline).
  exists calls. fold s2 in Hcalls. rewrite Hcalls, Htrace. split; [done|].
  intros Hin. rewrite forallb_forall in Honline.
  apply list_elem_of_In, Honline in Hin. cbn in Hin.
  unfold AgentOrchestrator.isAvailable in Hin.
  destruct (State.agents s1 !! agentId) as [agent|] eqn:Hlookup; [|done].
  rewrite (Hagent agent eq_refl) in Hin. by destruct status.
Qed.

Lemma handleAgentStatusChange_takes_effect_witness :
  let s := AgentOrchestrator.initialize Scenario.onlineAgents in
  let s1 := AgentOrchestrator.handleAgentStatusChange "workday" Offline None s in
  let s2 :=
    AgentOrchestrator.processQuery (Simulated.env "query_1" 1000 800)
      (Scenario.query "How many vacation days do I have?" None) s1 in
  ∃ calls, State.trace s2 = State.trace s ++ calls ∧ CallAgent "workday" ∉ calls.
Proof.
  intros s s1 s2.
  apply (handleAgentStatusChange_takes_effect "workday" Offline None
           (Simulated.env "query_1" 1000 800)
           (Scenario.query "How many vacation days do I have?" None) s).
  - apply AgentOrchestrator.reachable_init.
  - done.
Defined.

(** ** Saved state *)

(** X15: the state object built for saving keeps the most recent entries of
    the query history, in order and at most 100 of them (the whole history
    while it has at most 100 entries); of the cache it keeps the size only. *)
Theorem getSerializableState_recent s :
  let saved := OrchestratorOps.getSerializableState s in
  let history := State.queryHistory s in
  (∃ older, history = older ++ SerializableState.queryHistory saved) ∧
  length (SerializableState.queryHistory saved) = Nat.min 100 (length history) ∧
  SerializableState.cacheSize saved = size (State.responseCache s).
Proof.
  intros saved history. subst saved. unfold OrchestratorOps.getSerializableState.
  cbn [SerializableState.queryHistory SerializableState.cacheSize]. fold history.
  unfold OrchestratorOps.sliceLast. split; [|split; [|done]].
  - exists (take (length history - 100) history). by rewrite take_drop.
  - rewrite length_drop. lia.
Qed.
